(** * uzulog-deno: a shallow embedding of the logging library

    The development follows the TypeScript sources file by file:
    - [util/helpers.ts]            ([asString], [isObject], [argsToString]);
    - [logger.ts]                  ([LogRecord], [Logger], [LoggerCategory]);
    - [handlers.ts]                ([BaseHandler], [ConsoleHandler],
                                    [FileHandler], [RotatingFileHandler]);
    - [handlers/telegram.handler.ts] ([TelegramHandler]);
    - [logger_test.ts]             ([TestHandler]);
    - [mod.ts], [util/assert.ts]   ([getLogger], [createCategoryLogger],
                                    [setup], [assert]).

    Conventions of the embedding.
    - A JavaScript string is a [string]: the sequence of its code units;
      the development covers code units below 256.
    - A JavaScript exception is a [Throw] completion; objects that the
      code mutates in place are passed and returned explicitly, so the
      state reached when an exception escapes is still visible.
    - The file system is a finite map from paths to contents; what else
      makes a call of the runtime fail (a missing directory, a permission
      that is not granted) is a parameter of a run.
    - What [deps.ts] imports and what the Deno runtime provides is the
      interface [Env]. *)

From Stdlib Require Import ZArith Ascii String List Bool Lia.
From stdpp Require Import gmap strings pretty list.

Set Warnings "-register-all,-clear-no-such-hyp".

(** ** Strings *)

Module Str.

Definition code (c : ascii) : nat := nat_of_ascii c.

(** [\w] of a regular expression without the [u] and [i] flags. *)
Definition is_word (c : ascii) : bool :=
  let n := code c in
  (Nat.leb 48 n && Nat.leb n 57) || (Nat.leb 65 n && Nat.leb n 90)
  || (Nat.leb 97 n && Nat.leb n 122) || Nat.eqb n 95.

Definition is_digit (c : ascii) : bool :=
  let n := code c in Nat.leb 48 n && Nat.leb n 57.

(** The line terminators that [.] does not match (LF and CR; U+2028 and
    U+2029 lie outside the code units covered). *)
Definition is_line_terminator (c : ascii) : bool :=
  let n := code c in Nat.eqb n 10 || Nat.eqb n 13.

(** White space and line terminators removed by [String.prototype.trim]. *)
Definition is_space (c : ascii) : bool :=
  let n := code c in
  (Nat.leb 9 n && Nat.leb n 13) || Nat.eqb n 32 || Nat.eqb n 160.

Fixpoint all (p : ascii → bool) (s : string) : bool :=
  match s with
  | EmptyString => true
  | String c s' => p c && all p s'
  end.

(** Longest prefix whose characters satisfy [p], and what follows it. *)
Fixpoint span (p : ascii → bool) (s : string) : string * string :=
  match s with
  | EmptyString => (EmptyString, EmptyString)
  | String c s' =>
      if p c then let '(a, b) := span p s' in (String c a, b)
      else (EmptyString, s)
  end.

Fixpoint trimStart (s : string) : string :=
  match s with
  | EmptyString => EmptyString
  | String c s' => if is_space c then trimStart s' else s
  end.

Fixpoint trimEnd (s : string) : string :=
  match s with
  | EmptyString => EmptyString
  | String c s' =>
      match trimEnd s' with
      | EmptyString => if is_space c then EmptyString else String c EmptyString
      | t => String c t
      end
  end.

Definition trim (s : string) : string := trimStart (trimEnd s).

(** [occurs_in pat s]: [pat] occurs in [s] at some position. *)
Fixpoint occurs_in (pat s : string) : bool :=
  String.prefix pat s ||
  match s with
  | EmptyString => false
  | String _ s' => occurs_in pat s'
  end.

Definition tail (s : string) : string :=
  match s with
  | EmptyString => EmptyString
  | String _ s' => s'
  end.

(** No line terminator in [s]. *)
Definition single_line (s : string) : bool :=
  all (λ c, negb (is_line_terminator c)) s.

(** The text before the first occurrence of [pat] in [s], and the text
    from that occurrence on. *)
Fixpoint cut_at_first (pat s : string) : option (string * string) :=
  if String.prefix pat s then Some (EmptyString, s)
  else
    match s with
    | EmptyString => None
    | String c s' =>
        match cut_at_first pat s' with
        | Some (a, b) => Some (String c a, b)
        | None => None
        end
    end.

(** Number of positions of [s] at which [pat] occurs. *)
Fixpoint count_occ (pat s : string) : nat :=
  (if String.prefix pat s then 1 else 0) +
  match s with
  | EmptyString => 0
  | String _ s' => count_occ pat s'
  end.

End Str.

(** ** Regular expressions of the sources *)

Module Regex.

(** An attempt to match [/{(\w+)}/] at the start of [s]: the captured
    name and the text after the closing brace.  [\w+] is greedy and a
    shorter run cannot be followed by [}], so the longest run decides. *)
Definition match_placeholder (s : string) : option (string * string) :=
  match s with
  | String "{" s' =>
      match Str.span Str.is_word s' with
      | (String c w, String "}" rest) => Some (String c w, rest)
      | _ => None
      end
  | _ => None
  end.

(** [s.replace(/{(\w+)}/g, cb)], with [cb(match, p1)]: matches are looked
    for from left to right, a match is replaced by the callback's result
    and the search resumes after it.  Every step consumes a character,
    so [length s] steps are enough. *)
Fixpoint replace_go (fuel : nat) (cb : string → string → string)
    (s : string) : string :=
  match fuel, s with
  | _, EmptyString => EmptyString
  | O, _ => s
  | S fuel', String c s' =>
      match match_placeholder s with
      | Some (p1, rest) =>
          cb ("{" +:+ p1 +:+ "}") p1 +:+ replace_go fuel' cb rest
      | None => String c (replace_go fuel' cb s')
      end
  end.

Definition replace_placeholders (cb : string → string → string)
    (s : string) : string :=
  replace_go (String.length s) cb s.

(** Longest prefix of [s] free of line terminators: what a greedy [.*]
    can cover from the start of [s]. *)
Definition dot_star (s : string) : string :=
  fst (Str.span (λ c, negb (Str.is_line_terminator c)) s).

(** The two groups of the pattern of [splitFormatter] (a greedy
    dot-star, then [{msg}] followed by a greedy dot-star), anchored at
    the start of the line [l] (no line terminator in [l]): the first group
    is tried longest first, hence the split is at the last [{msg}] of
    [l]. *)
Fixpoint split_line (l : string) : option (string * string) :=
  match l with
  | EmptyString => None
  | String c l' =>
      match split_line l' with
      | Some (g1, g2) => Some (String c g1, g2)
      | None => if String.prefix "{msg}" l then Some (EmptyString, l) else None
      end
  end.

(** [exec] of that pattern on [s], with a fresh regular expression
    ([lastIndex] 0): the first start position with a match wins. *)
Fixpoint exec_split (s : string) : option (string * string) :=
  match split_line (dot_star s) with
  | Some groups => Some groups
  | None =>
      match s with
      | EmptyString => None
      | String _ s' => exec_split s'
      end
  end.

End Regex.

(** ** JavaScript values and completions *)

(** The values a caller can pass to a log call.  A function value carries
    the computation it would run if it were called; [VObject] is an object
    literal (its prototype is [Object.prototype]); [VBuiltin] is a function
    or object of the host, known by its name only. *)
Inductive value : Type :=
  | VUndefined
  | VNull
  | VBool (b : bool)
  | VNumber (n : Z)
  | VString (s : string)
  | VFunction (name : string) (body : unit → value)
  | VObject (props : list (string * value))
  | VArray (elems : list value)
  | VBuiltin (name : string).

(** How a call ends: normally with a result, or by an exception. *)
Inductive Completion (A : Type) : Type :=
  | Normal (a : A)
  | Throw (e : string).
Arguments Normal {A} a.
Arguments Throw {A} e.

(** Modelled from the spec: [levels.ts] is missing; the level names are
    NOTSET, DEBUG, INFO, WARNING, ERROR and CRITICAL (the sources use
    [LogLevels.DEBUG] to [LogLevels.CRITICAL], and the name [NOTSET] in
    [mod.ts]). *)
Inductive LogLevels : Type :=
  | NOTSET | DEBUG | INFO | WARNING | ERROR | CRITICAL.

(** What the sources import from outside the repository ([deps.ts], the
    Deno runtime), and the numeric values of [levels.ts]. *)
Class Env : Type := {
  (** [stripColor] of std/fmt/colors *)
  stripColor : string → string;
  (** [asString(format, date)] of date-format-deno; a date is its time value *)
  dateAsString : string → Z → string;
  ABSOLUTETIME_FORMAT : string;
  (** [Deno.inspect] *)
  inspect : value → string;
  (** [String(v)] for a [v] that is not a string, when it returns (it
      throws on a value that has no conversion to a string, such as a
      symbol, which [value] does not have) *)
  toStr : value → string;
  (** the number of a level: [LogLevels.X], [getLevelByName("X")] *)
  levelNum : LogLevels → Z
}.

(** Modelled from the spec: [levels.ts] is missing; the levels form the
    total order NOTSET < DEBUG < INFO < WARNING < ERROR < CRITICAL. *)
Definition levels_ordered `{Env} : Prop :=
  (levelNum NOTSET < levelNum DEBUG)%Z ∧ (levelNum DEBUG < levelNum INFO)%Z ∧
  (levelNum INFO < levelNum WARNING)%Z ∧ (levelNum WARNING < levelNum ERROR)%Z ∧
  (levelNum ERROR < levelNum CRITICAL)%Z.

(** The order of the spec on the enumeration itself. *)
Definition level_rank (l : LogLevels) : nat :=
  match l with
  | NOTSET => 0 | DEBUG => 1 | INFO => 2 | WARNING => 3 | ERROR => 4
  | CRITICAL => 5
  end.

(** Modelled from the spec: [getLevelName] of the missing [levels.ts]; the
    level name is derived from the level. *)
Definition getLevelName (l : LogLevels) : string :=
  match l with
  | NOTSET => "NOTSET" | DEBUG => "DEBUG" | INFO => "INFO"
  | WARNING => "WARNING" | ERROR => "ERROR" | CRITICAL => "CRITICAL"
  end.

Module Js.

(** [v == null] *)
Definition is_nullish (v : value) : bool :=
  match v with
  | VUndefined | VNull => true
  | _ => false
  end.

Fixpoint assoc (k : string) (props : list (string * value)) : option value :=
  match props with
  | [] => None
  | (k', v) :: rest => if String.eqb k k' then Some v else assoc k rest
  end.

(** The properties every object inherits from [Object.prototype]. *)
Definition object_prototype : list (string * value) :=
  [ ("constructor", VBuiltin "Object");
    ("__defineGetter__", VBuiltin "__defineGetter__");
    ("__defineSetter__", VBuiltin "__defineSetter__");
    ("hasOwnProperty", VBuiltin "hasOwnProperty");
    ("__lookupGetter__", VBuiltin "__lookupGetter__");
    ("__lookupSetter__", VBuiltin "__lookupSetter__");
    ("isPrototypeOf", VBuiltin "isPrototypeOf");
    ("propertyIsEnumerable", VBuiltin "propertyIsEnumerable");
    ("toString", VBuiltin "toString");
    ("valueOf", VBuiltin "valueOf");
    ("__proto__", VBuiltin "Object.prototype");
    ("toLocaleString", VBuiltin "toLocaleString") ].

(** [o[k]] for an object literal [o]: own properties, then the
    prototype; [undefined] when absent. *)
Definition get (props : list (string * value)) (k : string) : value :=
  match assoc k props with
  | Some v => v
  | None => default VUndefined (assoc k object_prototype)
  end.

(** [a[i]] for an array [a] and an integer [i >= 0]. *)
Definition index (a : list value) (i : N) : value :=
  default VUndefined (a !! N.to_nat i).

Definition digit_val (c : ascii) : option N :=
  let n := N_of_ascii c in
  if Str.is_digit c then Some (n - 48)%N else None.

Definition hex_val (c : ascii) : option N :=
  let n := N_of_ascii c in
  if Str.is_digit c then Some (n - 48)%N
  else if (97 <=? n)%N && (n <=? 102)%N then Some (n - 87)%N
  else if (65 <=? n)%N && (n <=? 70)%N then Some (n - 55)%N
  else None.

(** The digits of [s] read in [radix], up to the first character that
    is no digit; [None] when there is no digit at all. *)
Fixpoint digits (dv : ascii → option N) (radix : N) (acc : option N)
    (s : string) : option N :=
  match s with
  | EmptyString => acc
  | String c s' =>
      match dv c with
      | Some d => digits dv radix (Some (default 0%N acc * radix + d)%N) s'
      | None => acc
      end
  end.

(** [parseInt(s)] for a string without leading white space or sign (such
    as a [\w+] capture): a [0x] or [0X] prefix selects radix 16, else the
    radix is 10; [None] is [NaN].  The integer is kept exactly; the code
    only compares it with a length and uses it as an index. *)
Definition parseInt (s : string) : option N :=
  match s with
  | String "0" (String "x" s') | String "0" (String "X" s') =>
      digits hex_val 16 None s'
  | _ => digits digit_val 10 None s
  end.

End Js.

(** ** util/helpers.ts *)

Module helpers.
Section WithEnv.
Context `{Env}.

Definition asString (data : value) : string :=
  match data with
  | VString s => s
  | _ => inspect data
  end.

(** [o instanceof Object && o.constructor === Object] *)
Definition isObject (o : value) : bool :=
  match o with
  | VObject props =>
      match Js.get props "constructor" with
      | VBuiltin "Object" => true
      | _ => false
      end
  | _ => false
  end.

Definition argsToString (args : list value) : string :=
  let result :=
    match args with
    | [] => ""
    | [a] => asString a
    | _ => foldl (λ result ars, result +:+ asString ars +:+ " ") "" args
    end in
  Str.trim result.

End WithEnv.
End helpers.

(** ** logger.ts: records *)

Module LogRecord.

(** A record; [datetime] is the time value of the [Date] taken when the
    record was built. *)
Record t : Type := mk {
  msg : string;
  args : list value;
  level : LogLevels;
  levelName : string;
  loggerName : string;
  category : option string;
  datetime : Z
}.

Record Options : Type := mkOptions {
  o_msg : string;
  o_args : list value;
  o_level : LogLevels;
  o_loggerName : string;
  o_category : option string
}.

(** [options.category || null]: an empty category is no category. *)
Definition new (now : Z) (options : Options) : t :=
  {| msg := o_msg options;
     args := o_args options;
     level := o_level options;
     levelName := getLevelName (o_level options);
     loggerName := o_loggerName options;
     category :=
       match o_category options with
       | Some EmptyString | None => None
       | Some c => Some c
       end;
     datetime := now |}.

Section WithEnv.
Context `{Env}.

Definition clearMsg (r : t) : string := stripColor (msg r).

(** [logRecord[p1]]: the fields, the getters of the class, then what
    every object inherits. *)
Definition get (r : t) (p1 : string) : value :=
  if String.eqb p1 "msg" then VString (msg r)
  else if String.eqb p1 "level" then VNumber (levelNum (level r))
  else if String.eqb p1 "levelName" then VString (levelName r)
  else if String.eqb p1 "loggerName" then VString (loggerName r)
  else if String.eqb p1 "category" then
    match category r with Some c => VString c | None => VNull end
  else if String.eqb p1 "clearMsg" then VString (clearMsg r)
  else if String.eqb p1 "args" then VArray (args r)
  else if String.eqb p1 "datetime" then VBuiltin "Date"
  else if String.eqb p1 "constructor" then VBuiltin "LogRecord"
  else if String.eqb p1 "__proto__" then VBuiltin "LogRecord.prototype"
  else default VUndefined (Js.assoc p1 Js.object_prototype).

End WithEnv.
End LogRecord.

(** ** handlers.ts: the base handler *)

Definition DEFAULT_FORMATTER : string := "{levelName} {msg}".

(** [string | FormatterFunction]; a formatter function may throw. *)
Inductive Formatter : Type :=
  | Template (format : string)
  | Callback (f : LogRecord.t → Completion string).

Record HandlerOptions : Type := mkHandlerOptions {
  o_formatter : option Formatter;
  o_datetimeFormat : option string;
  o_noColor : option bool
}.

Definition no_options : HandlerOptions :=
  {| o_formatter := None; o_datetimeFormat := None; o_noColor := None |}.

Record IFormatResult : Type := mkFormatResult {
  fr_prefix : option string;
  fr_msg : string
}.

Record ISplitFormatter : Type := mkSplitFormatter {
  sf_prefix : option string;
  sf_msg : option string
}.

Module BaseHandler.

Record t : Type := mk {
  level : Z;
  levelName : LogLevels;
  formatter : Formatter;
  datetimeFormat : string;
  noColor : bool
}.

Section WithEnv.
Context `{Env}.

(** [x || d] on an optional string: the empty string is falsy too. *)
Definition or_default (x : option string) (d : string) : string :=
  match x with
  | Some EmptyString | None => d
  | Some s => s
  end.

Definition new (levelName : LogLevels) (options : HandlerOptions) : t :=
  {| level := levelNum levelName;
     levelName := levelName;
     formatter :=
       match o_formatter options with
       | Some (Template EmptyString) | None => Template DEFAULT_FORMATTER
       | Some f => f
       end;
     datetimeFormat :=
       or_default (o_datetimeFormat options) ABSOLUTETIME_FORMAT;
     noColor := default true (o_noColor options) |}.

(** The [value] that the callback of [formatCustom] computes for the
    captured name [p1]. *)
Definition formatCustom_value (h : t) (logRecord : LogRecord.t)
    (p1 : string) : value :=
  if String.eqb p1 "datetime" then
    VString (dateAsString (datetimeFormat h)
               (LogRecord.datetime logRecord))
  else LogRecord.get logRecord p1.

(** [String(value)] *)
Definition String_ (v : value) : string :=
  match v with
  | VString s => s
  | _ => toStr v
  end.

Definition formatCustom (h : t) (format : string)
    (logRecord : LogRecord.t) : string :=
  Regex.replace_placeholders
    (λ match_ p1,
       let value := formatCustom_value h logRecord p1 in
       (* do not interpolate missing values *)
       if Js.is_nullish value then match_ else String_ value)
    format.

Definition splitFormatter (formatter : string) : ISplitFormatter :=
  match Regex.exec_split formatter with
  | Some (g1, g2) => {| sf_prefix := Some g1; sf_msg := Some g2 |}
  | None => {| sf_prefix := None; sf_msg := None |}
  end.

(** [if (x)] on an optional string. *)
Definition truthy (x : option string) : option string :=
  match x with
  | Some EmptyString | None => None
  | Some s => Some s
  end.

Definition formatAndPrefix (h : t) (logRecord : LogRecord.t)
    : Completion IFormatResult :=
  match formatter h with
  | Callback f =>
      match f logRecord with
      | Normal m => Normal {| fr_prefix := None; fr_msg := m |}
      | Throw e => Throw e
      end
  | Template fmt =>
      let sf := splitFormatter fmt in
      let m :=
        match truthy (sf_msg sf) with
        | Some g => formatCustom h g logRecord
        | None => ""
        end in
      let p :=
        match truthy (sf_prefix sf) with
        | Some g => Some (formatCustom h g logRecord)
        | None => None
        end in
      Normal {| fr_prefix := p; fr_msg := m |}
  end.

Definition format (h : t) (logRecord : LogRecord.t) : Completion string :=
  match formatter h with
  | Callback f => f logRecord
  | Template fmt => Normal (formatCustom h fmt logRecord)
  end.

(** [handle], over the methods [format] and [log] of the class of
    [this] (both are overridden by subclasses). *)
Definition handle {T : Type} (base : T → t)
    (format : T → LogRecord.t → Completion string)
    (log : string → T → T * Completion unit)
    (this : T) (logRecord : LogRecord.t) : T * Completion unit :=
  if (level (base this) >? levelNum (LogRecord.level logRecord))%Z
  then (this, Normal tt)
  else
    match format this logRecord with
    | Throw e => (this, Throw e)
    | Normal msg =>
        log (if noColor (base this) then stripColor msg else msg) this
    end.

(** [log] of the base class does nothing. *)
Definition log (_msg : string) (this : t) : t * Completion unit :=
  (this, Normal tt).

End WithEnv.
End BaseHandler.

(** The split as the specification words it: the prefix is everything
    before the first [{msg}] of the template, the remainder starts at that
    first [{msg}]. *)
Definition spec_splitFormatter (formatter : string) : ISplitFormatter :=
  match Str.cut_at_first "{msg}" formatter with
  | Some (a, b) => {| sf_prefix := Some a; sf_msg := Some b |}
  | None => {| sf_prefix := None; sf_msg := None |}
  end.

(** The interface a logger uses of its handlers: the method [handle]. *)
Class Handler (T : Type) : Type := {
  handle : T → LogRecord.t → T * Completion unit
}.

#[export] Instance BaseHandler_Handler `{Env} : Handler BaseHandler.t := {
  handle := BaseHandler.handle id BaseHandler.format BaseHandler.log
}.

(** ** logger_test.ts: the handler of the tests *)

Module TestHandler.

Record t : Type := mk {
  base : BaseHandler.t;
  messages : list string;
  records : list LogRecord.t
}.

Section WithEnv.
Context `{Env}.

Definition new (levelName : LogLevels) (options : HandlerOptions) : t :=
  {| base := BaseHandler.new levelName options;
     messages := [];
     records := [] |}.

Definition log (str : string) (this : t) : t * Completion unit :=
  ({| base := base this;
      messages := messages this ++ [str];
      records := records this |}, Normal tt).

Definition handle (this : t) (record : LogRecord.t) : t * Completion unit :=
  let this1 :=
    {| base := base this;
       messages := messages this;
       records := records this ++ [record] |} in
  BaseHandler.handle base (λ h, BaseHandler.format (base h)) log
    this1 record.

End WithEnv.
End TestHandler.

#[export] Instance TestHandler_Handler `{Env} : Handler TestHandler.t := {
  handle := TestHandler.handle
}.

(** ** logger.ts: loggers *)

(** [handlers.forEach(h => h.handle(record))]: the handlers are visited in
    order; an exception thrown by a callback ends the iteration and is
    thrown by [forEach]. *)
Fixpoint forEach {T : Type} (f : T → T * Completion unit) (l : list T)
    : list T * Completion unit :=
  match l with
  | [] => ([], Normal tt)
  | h :: rest =>
      match f h with
      | (h', Normal _) =>
          let '(rest', c) := forEach f rest in (h' :: rest', c)
      | (h', Throw e) => (h' :: rest, Throw e)
      end
  end.

Module Logger.

Record t (T : Type) : Type := mk {
  level : LogLevels;
  handlers : list T;
  returnResult : bool;
  loggerName : string
}.
Arguments mk {T} _ _ _ _.
Arguments level {T} _.
Arguments handlers {T} _.
Arguments returnResult {T} _.
Arguments loggerName {T} _.

Record LoggerOptions (T : Type) : Type := mkOptions {
  o_handlers : option (list T);
  o_returnResult : option bool
}.
Arguments mkOptions {T} _ _.
Arguments o_handlers {T} _.
Arguments o_returnResult {T} _.

Definition new {T : Type} (loggerName : string) (levelName : LogLevels)
    (options : LoggerOptions T) : t T :=
  {| level := levelName;
     handlers := default [] (o_handlers options);
     returnResult := default false (o_returnResult options);
     loggerName := loggerName |}.

Definition set_handlers {T : Type} (this : t T) (hndls : list T) : t T :=
  {| level := level this;
     handlers := hndls;
     returnResult := returnResult this;
     loggerName := loggerName this |}.

Section WithEnv.
Context `{Env} {T : Type} `{Handler T}.

(** What a log call leaves behind: the logger (with its handlers as
    they are after the call) and how the call ended. *)
Definition Outcome : Type := t T * Completion (option string).

Definition _log (this : t T) (now : Z) (level : LogLevels)
    (args : list value) : Outcome :=
  if (levelNum (Logger.level this) >? levelNum level)%Z then
    (this,
     Normal (if returnResult this
             then Some (stripColor (helpers.argsToString args))
             else None))
  else
    let record :=
      LogRecord.new now
        {| LogRecord.o_msg := helpers.argsToString args;
           LogRecord.o_args := args;
           LogRecord.o_level := level;
           LogRecord.o_loggerName := loggerName this;
           LogRecord.o_category := None |} in
    match forEach (λ handler, handle handler record)
            (handlers this) with
    | (hs, Throw e) => (set_handlers this hs, Throw e)
    | (hs, Normal _) =>
        (set_handlers this hs,
         Normal (if returnResult this
                 then Some (LogRecord.clearMsg record) else None))
    end.

(** [isObject(args[0]) ? args[0] : null] *)
Definition msgFormat_obj (args : list value)
    : option (list (string * value)) :=
  match args with
  | VObject props :: _ =>
      if helpers.isObject (VObject props) then Some props else None
  | _ => None
  end.

(** The [value] that the callback of [msgFormat] computes for the
    captured name [p1]. *)
Definition msgFormat_value (args : list value) (p1 : string) : value :=
  let argsLength := N.of_nat (length args) in
  match Js.parseInt p1 with
  | None =>
      match msgFormat_obj args with
      | Some props => Js.get props p1
      | None => VNull
      end
  | Some p1Int =>
      if (p1Int <=? argsLength)%N then Js.index args p1Int else VNull
  end.

Definition msgFormat (format : string) (args : list value) : string :=
  match args with
  | [] => format
  | _ =>
      Regex.replace_placeholders
        (λ match_ p1,
           let value := msgFormat_value args p1 in
           (* do not interpolate missing values *)
           if Js.is_nullish value then match_
           else helpers.asString value)
        format
  end.

Definition _logFormat (this : t T) (now : Z) (level : LogLevels)
    (format : string) (args : list value) : Outcome :=
  if (levelNum (Logger.level this) >? levelNum level)%Z then
    (this,
     Normal (if returnResult this
             then Some (stripColor (msgFormat format args))
             else None))
  else
    let record :=
      LogRecord.new now
        {| LogRecord.o_msg := msgFormat format args;
           LogRecord.o_args := args;
           LogRecord.o_level := level;
           LogRecord.o_loggerName := loggerName this;
           LogRecord.o_category := None |} in
    match forEach (λ handler, handle handler record)
            (handlers this) with
    | (hs, Throw e) => (set_handlers this hs, Throw e)
    | (hs, Normal _) =>
        (set_handlers this hs,
         Normal (if returnResult this
                 then Some (LogRecord.clearMsg record) else None))
    end.

Definition debug this now args := _log this now DEBUG args.
Definition info this now args := _log this now INFO args.
Definition warning this now args := _log this now WARNING args.
Definition error this now args := _log this now ERROR args.
Definition critical this now args := _log this now CRITICAL args.

End WithEnv.
End Logger.

Module LoggerCategory.

Record t (T : Type) : Type := mk {
  category : string;
  logger : Logger.t T
}.
Arguments mk {T} _ _.
Arguments category {T} _.
Arguments logger {T} _.

Section WithEnv.
Context `{Env} {T : Type} `{Handler T}.

Definition _log (this : t T) (now : Z) (level : LogLevels)
    (args : list value) : Logger.Outcome :=
  let lg := logger this in
  if (levelNum (Logger.level lg) >? levelNum level)%Z then
    (lg,
     Normal (if Logger.returnResult lg
             then Some (stripColor (helpers.argsToString args))
             else None))
  else
    let record :=
      LogRecord.new now
        {| LogRecord.o_msg := helpers.argsToString args;
           LogRecord.o_args := args;
           LogRecord.o_level := level;
           LogRecord.o_loggerName := Logger.loggerName lg;
           LogRecord.o_category := Some (category this) |} in
    match forEach (λ handler, handle handler record)
            (Logger.handlers lg) with
    | (hs, Throw e) => (Logger.set_handlers lg hs, Throw e)
    | (hs, Normal _) =>
        (Logger.set_handlers lg hs,
         Normal (if Logger.returnResult lg
                 then Some (LogRecord.clearMsg record) else None))
    end.

Definition _logFormat (this : t T) (now : Z) (level : LogLevels)
    (format : string) (args : list value) : Logger.Outcome :=
  let lg := logger this in
  if (levelNum (Logger.level lg) >? levelNum level)%Z then
    (lg,
     Normal (if Logger.returnResult lg
             then Some (stripColor (Logger.msgFormat format args))
             else None))
  else
    let record :=
      LogRecord.new now
        {| LogRecord.o_msg := Logger.msgFormat format args;
           LogRecord.o_args := [];
           LogRecord.o_level := level;
           LogRecord.o_loggerName := Logger.loggerName lg;
           LogRecord.o_category := Some (category this) |} in
    match forEach (λ handler, handle handler record)
            (Logger.handlers lg) with
    | (hs, Throw e) => (Logger.set_handlers lg hs, Throw e)
    | (hs, Normal _) =>
        (Logger.set_handlers lg hs,
         Normal (if Logger.returnResult lg
                 then Some (LogRecord.clearMsg record) else None))
    end.

End WithEnv.
End LoggerCategory.

(** ** The file system and the calls that change it *)

(** What a file handler does to the outside, in order. *)
Inductive Event : Type :=
  | SysOpen (path : string)
  | SysClose (path : string)
  | SysWrite (path : string) (data : list Byte.byte)
  | SysRename (source dest : string)
  | SysRemove (path : string)
  | CallDestroy.

(** The calls of the runtime on files that can fail for a reason of the
    runtime's own: a directory that is missing, a permission that is not
    granted, a directory at the path. *)
Inductive Call : Type :=
  | CallOpen (path : string)
  | CallLstat (path : string)
  | CallStat (path : string)
  | CallRemove (path : string)
  | CallRename (source dest : string)
  | CallWrite (path : string).

(** Computations over a state that may throw: the state reached is kept
    when an exception escapes. *)
Definition M (S A : Type) : Type := S → Completion A * S.

Definition ret {S A : Type} (a : A) : M S A := λ s, (Normal a, s).
Definition throw {S A : Type} (e : string) : M S A := λ s, (Throw e, s).
Definition bind {S A B : Type} (m : M S A) (k : A → M S B) : M S B :=
  λ s, match m s with
       | (Normal a, s') => k a s'
       | (Throw e, s') => (Throw e, s')
       end.
Definition gets {S A : Type} (f : S → A) : M S A := λ s, (Normal (f s), s).
Definition modify {S : Type} (f : S → S) : M S unit := λ s, (Normal tt, f s).

(** [try { m } catch (e) { h(e) }] *)
Definition try_catch {S A : Type} (m : M S A) (h : string → M S A) : M S A :=
  λ s, match m s with
       | (Normal a, s') => (Normal a, s')
       | (Throw e, s') => h e s'
       end.

Declare Scope m_scope.
Delimit Scope m_scope with M.
Notation "'let!' x ':=' m 'in' k" := (bind m (λ x, k))
  (at level 10, x name, m at level 100, k at level 200, only parsing)
  : m_scope.
Notation "m ';;' k" := (bind m (λ _, k))
  (at level 100, k at level 200, right associativity, only parsing)
  : m_scope.
Open Scope m_scope.

(** [for (const i of l) body(i)] *)
Fixpoint for_each {S A : Type} (l : list A) (body : A → M S unit) : M S unit :=
  match l with
  | [] => ret tt
  | i :: rest => body i ;; for_each rest body
  end.

Definition when {S : Type} (b : bool) (m : M S unit) : M S unit :=
  if b then m else ret tt.

(** [TextEncoder.encode]: UTF-8, for code units below 256. *)
Module TextEncoder.

Definition encode_unit (c : ascii) : list Byte.byte :=
  let n := N_of_ascii c in
  if (n <? 128)%N then [byte_of_ascii c]
  else [ byte_of_ascii (ascii_of_N (192 + n / 64));
         byte_of_ascii (ascii_of_N (128 + n mod 64)) ].

Fixpoint encode (s : string) : list Byte.byte :=
  match s with
  | EmptyString => []
  | String c s' => encode_unit c ++ encode s'
  end.

Definition byteLength (s : string) : Z := Z.of_nat (length (encode s)).

End TextEncoder.

Definition newline : string := String (ascii_of_nat 10) EmptyString.

Inductive LogMode : Type := mode_a | mode_w | mode_x.

Record OpenOptions : Type := mkOpenOptions {
  createNew : bool;
  create : bool;
  append : bool;
  truncate : bool;
  write : bool
}.

(** A [BufWriterSync] of std/io/bufio: [buf] is the bytes written to it
    and not flushed yet (the first [usedBufferBytes] bytes of its
    buffer), [err] the error of a write of its own that failed. *)
Module BufObj.

Record t : Type := mk {
  buf : list Byte.byte;
  err : option string
}.

End BufObj.

(** ** handlers.ts: the file handlers

    [RotatingFileHandler] extends [FileHandler]; one record holds the
    fields of both.  The open file is known by its path (the code closes
    it before it renames it).  [_buf] is the [BufWriterSync] on the open
    file; it writes through [_file], which the handler replaces together
    with it and clears when it closes the file. *)
Module FileObj.

Record t : Type := mk {
  _file : option string;
  _buf : option BufObj.t;
  _filename : string;
  _mode : LogMode;
  _openOptions : OpenOptions;
  unloadListener : bool;
  maxBytes : Z;
  maxBackupCount : Z;
  currentFileSize : Z
}.

Definition set_file (v : option string) (o : t) : t :=
  mk v (_buf o) (_filename o) (_mode o) (_openOptions o) (unloadListener o)
     (maxBytes o) (maxBackupCount o) (currentFileSize o).
Definition set_buf (v : option BufObj.t) (o : t) : t :=
  mk (_file o) v (_filename o) (_mode o) (_openOptions o) (unloadListener o)
     (maxBytes o) (maxBackupCount o) (currentFileSize o).
Definition set_unloadListener (v : bool) (o : t) : t :=
  mk (_file o) (_buf o) (_filename o) (_mode o) (_openOptions o) v
     (maxBytes o) (maxBackupCount o) (currentFileSize o).
Definition set_currentFileSize (v : Z) (o : t) : t :=
  mk (_file o) (_buf o) (_filename o) (_mode o) (_openOptions o)
     (unloadListener o) (maxBytes o) (maxBackupCount o) v.

End FileObj.

(** The state of a run: the files, the calls made so far, the handler,
    and what the runtime refuses: the error of each call that it lets
    fail for a reason of its own. *)
Record St : Type := mkSt {
  fs : gmap string (list Byte.byte);
  trace : list Event;
  this : FileObj.t;
  refused : Call → option string
}.

Definition set_fs (f : gmap string (list Byte.byte) → gmap string (list Byte.byte))
    (s : St) : St :=
  mkSt (f (fs s)) (trace s) (this s) (refused s).
Definition emit (e : Event) : M St unit :=
  modify (λ s, mkSt (fs s) (trace s ++ [e]) (this s) (refused s)).
Definition update (f : FileObj.t → FileObj.t) : M St unit :=
  modify (λ s, mkSt (fs s) (trace s) (f (this s)) (refused s)).
Definition field {A : Type} (f : FileObj.t → A) : M St A :=
  gets (λ s, f (this s)).

(** The calls of the Deno runtime on files.  A call that the runtime
    refuses throws before it does anything; otherwise it fails for the
    presence or the absence of a file only. *)
Module Deno.

Definition attempt (c : Call) : M St unit :=
  let! answer := gets (λ s, refused s c) in
  match answer with
  | Some e => throw e
  | None => ret tt
  end.

(** Whether there is a file at [path]. *)
Definition has_file (path : string) : M St bool :=
  gets (λ s, match fs s !! path with Some _ => true | None => false end).

(** [exists(path)], [existsSync(path)] of std/fs: [Deno.lstat]; its error
    NotFound gives [false], its other errors are thrown. *)
Definition exists_ (path : string) : M St bool :=
  attempt (CallLstat path) ;;
  has_file path.

(** [Deno.open(path, options)], [Deno.openSync]: fails on an existing
    file when [createNew], creates a missing file when allowed,
    empties an existing one when [truncate]. *)
Definition open (path : string) (options : OpenOptions) : M St string :=
  attempt (CallOpen path) ;;
  let! present := has_file path in
  if present then
    if createNew options then throw "AlreadyExists"
    else
      when (truncate options) (modify (set_fs (insert path []))) ;;
      emit (SysOpen path) ;;
      ret path
  else
    if createNew options || create options then
      modify (set_fs (insert path [])) ;;
      emit (SysOpen path) ;;
      ret path
    else throw "NotFound".

Definition close (path : string) : M St unit := emit (SysClose path).

Definition remove (path : string) : M St unit :=
  attempt (CallRemove path) ;;
  let! present := has_file path in
  if present then
    modify (set_fs (delete path)) ;; emit (SysRemove path)
  else throw "NotFound".

(** [Deno.renameSync(source, dest)]: [dest] is replaced if it exists. *)
Definition renameSync (source dest : string) : M St unit :=
  attempt (CallRename source dest) ;;
  let! content := gets (λ s, fs s !! source) in
  match content with
  | Some c =>
      modify (set_fs (λ f, <[dest := c]> (delete source f))) ;;
      emit (SysRename source dest)
  | None => throw "NotFound"
  end.

(** [Deno.stat(path).size] *)
Definition stat_size (path : string) : M St Z :=
  attempt (CallStat path) ;;
  let! content := gets (λ s, fs s !! path) in
  match content with
  | Some c => ret (Z.of_nat (length c))
  | None => throw "NotFound"
  end.

(** A write through an open file, of all of [data]: the bytes are added
    at its end. *)
Definition write (path : string) (data : list Byte.byte) : M St unit :=
  attempt (CallWrite path) ;;
  let! content := gets (λ s, fs s !! path) in
  match content with
  | Some c =>
      modify (set_fs (insert path (c ++ data))) ;;
      emit (SysWrite path data)
  | None => throw "BadResource"
  end.

End Deno.

(** [BufWriterSync] of std/io/bufio, on the writer of the handler. *)
Module BufWriterSync.

Definition DEFAULT_BUF_SIZE : Z := 4096.

(** [new BufWriterSync(file)]: a buffer of the default size, empty. *)
Definition new : BufObj.t := {| BufObj.buf := []; BufObj.err := None |}.

(** [this._buf], on which a method is called. *)
Definition writer : M St BufObj.t :=
  let! buf := field FileObj._buf in
  match buf with
  | Some w => ret w
  | None => throw "TypeError"
  end.

Definition put (w : BufObj.t) : M St unit :=
  update (FileObj.set_buf (Some w)).

Definition buffered (w : BufObj.t) : Z := Z.of_nat (length (BufObj.buf w)).

Definition available (w : BufObj.t) : Z := (DEFAULT_BUF_SIZE - buffered w)%Z.

(** [copyBytes(src, this.buf, this.usedBufferBytes)]: the bytes of [src]
    that are copied, as many as the buffer has room for. *)
Definition copyBytes (src : list Byte.byte) (w : BufObj.t)
    : list Byte.byte :=
  take (Z.to_nat (available w)) src.

(** A write of the writer to its file, of all of [data]; the writer keeps
    the error of a write that fails, and throws it. *)
Definition write_through (data : list Byte.byte) : M St unit :=
  try_catch
    (let! file := field FileObj._file in
     match file with
     | Some path => Deno.write path data
     | None => throw "BadResource"
     end)
    (λ e,
       let! w := writer in
       put {| BufObj.buf := BufObj.buf w; BufObj.err := Some e |} ;;
       throw e).

(** [this._buf.flush()]: the pending bytes go to the file. *)
Definition flush : M St unit :=
  let! w := writer in
  match BufObj.err w with
  | Some e => throw e
  | None =>
      if (buffered w =? 0)%Z then ret tt
      else
        write_through (BufObj.buf w) ;;
        put {| BufObj.buf := []; BufObj.err := None |}
  end.

(** The loop of [writeSync], [while (data.byteLength > this.available())];
    it returns the data left to copy.  On an empty buffer a round writes
    the data to the file; otherwise it fills the buffer and flushes it.
    So a round leaves no data or an empty buffer, and two rounds are
    enough. *)
Fixpoint write_rounds (fuel : nat) (data : list Byte.byte)
    : M St (list Byte.byte) :=
  let! w := writer in
  if (Z.of_nat (length data) >? available w)%Z then
    match fuel with
    | O => throw "too many rounds"
    | S fuel' =>
        if (buffered w =? 0)%Z then
          (* Large write, empty buffer *)
          write_through data ;;
          write_rounds fuel' []
        else
          let copied := copyBytes data w in
          put {| BufObj.buf := BufObj.buf w ++ copied;
                 BufObj.err := BufObj.err w |} ;;
          flush ;;
          write_rounds fuel' (drop (length copied) data)
    end
  else ret data.

(** [this._buf.writeSync(data)] *)
Definition writeSync (data : list Byte.byte) : M St unit :=
  let! w := writer in
  match BufObj.err w with
  | Some e => throw e
  | None =>
      if (Z.of_nat (length data) =? 0)%Z then ret tt
      else
        let! data := write_rounds 2 data in
        let! w := writer in
        put {| BufObj.buf := BufObj.buf w ++ copyBytes data w;
               BufObj.err := BufObj.err w |}
  end.

End BufWriterSync.

Module FileHandler.

Definition openOptions_of (mode : LogMode) : OpenOptions :=
  {| createNew := match mode with mode_x => true | _ => false end;
     create := match mode with mode_x => false | _ => true end;
     append := match mode with mode_a => true | _ => false end;
     truncate := match mode with mode_a => false | _ => true end;
     write := true |}.

(** The constructor; the mode defaults to append.  The fields of the
    subclass are filled in by its constructor. *)
Definition new (filename : string) (mode : option LogMode) : FileObj.t :=
  let m := default mode_a mode in
  {| FileObj._file := None;
     FileObj._buf := None;
     FileObj._filename := filename;
     FileObj._mode := m;
     FileObj._openOptions := openOptions_of m;
     FileObj.unloadListener := false;
     FileObj.maxBytes := 0;
     FileObj.maxBackupCount := 0;
     FileObj.currentFileSize := 0 |}.

Definition setup : M St unit :=
  let! filename := field FileObj._filename in
  let! options := field FileObj._openOptions in
  let! file := Deno.open filename options in
  update (FileObj.set_file (Some file)) ;;
  update (FileObj.set_buf (Some BufWriterSync.new)) ;;
  update (FileObj.set_unloadListener true).

Definition log (msg : string) : M St unit :=
  BufWriterSync.writeSync (TextEncoder.encode (msg +:+ newline)).

(** [if (this._buf?.buffered() > 0) this._buf.flush()] *)
Definition flush : M St unit :=
  let! buf := field FileObj._buf in
  match buf with
  | Some w =>
      when (BufWriterSync.buffered w >? 0)%Z BufWriterSync.flush
  | None => ret tt
  end.

Definition destroy : M St unit :=
  emit CallDestroy ;;
  flush ;;
  let! file := field FileObj._file in
  match file with Some path => Deno.close path | None => ret tt end ;;
  update (FileObj.set_file None) ;;
  update (FileObj.set_unloadListener false).

End FileHandler.

Module RotatingFileHandler.

(** [this._filename + "." + i] *)
Definition backup (filename : string) (i : Z) : string :=
  filename +:+ "." +:+ pretty i.

Definition new (filename : string) (mode : option LogMode)
    (maxBytes maxBackupCount : Z) : FileObj.t :=
  let o := FileHandler.new filename mode in
  {| FileObj._file := FileObj._file o;
     FileObj._buf := FileObj._buf o;
     FileObj._filename := FileObj._filename o;
     FileObj._mode := FileObj._mode o;
     FileObj._openOptions := FileObj._openOptions o;
     FileObj.unloadListener := FileObj.unloadListener o;
     FileObj.maxBytes := maxBytes;
     FileObj.maxBackupCount := maxBackupCount;
     FileObj.currentFileSize := 0 |}.

(** The body of the loop of [setup] in mode [w]. *)
Definition remove_backup (filename : string) (i : Z) : M St unit :=
  let! present := Deno.exists_ (backup filename i) in
  when present (Deno.remove (backup filename i)).

(** The body of the loop of [setup] in mode [x]. *)
Definition refuse_backup (filename : string) (i : Z) : M St unit :=
  let! present := Deno.exists_ (backup filename i) in
  if present then
    FileHandler.destroy ;;
    throw ("Backup log file " +:+ backup filename i +:+ " already exists")
  else ret tt.

Definition setup : M St unit :=
  let! maxBytes := field FileObj.maxBytes in
  let! maxBackupCount := field FileObj.maxBackupCount in
  let! filename := field FileObj._filename in
  let! mode := field FileObj._mode in
  if (maxBytes <? 1)%Z then
    FileHandler.destroy ;;
    throw "maxBytes cannot be less than 1"
  else if (maxBackupCount <? 1)%Z then
    FileHandler.destroy ;;
    throw "maxBackupCount cannot be less than 1"
  else
    FileHandler.setup ;;
    match mode with
    | mode_w =>
        (* Remove old backups too: [i] from 1 to [maxBackupCount] *)
        for_each (seqZ 1 maxBackupCount) (remove_backup filename)
    | mode_x =>
        (* Throw if any backups also exist *)
        for_each (seqZ 1 maxBackupCount) (refuse_backup filename)
    | mode_a =>
        let! size := Deno.stat_size filename in
        update (FileObj.set_currentFileSize size)
    end.

(** The body of the loop of [rotateLogFiles]. *)
Definition shift_backup (filename : string) (i : Z) : M St unit :=
  let source := if (i =? 0)%Z then filename else backup filename i in
  let dest := backup filename (i + 1) in
  let! present := Deno.exists_ source in
  when present (Deno.renameSync source dest).

(** The loop runs [i] from [maxBackupCount - 1] down to [0]. *)
Definition rotateLogFiles : M St unit :=
  let! maxBackupCount := field FileObj.maxBackupCount in
  let! filename := field FileObj._filename in
  let! options := field FileObj._openOptions in
  BufWriterSync.flush ;;
  let! file := field FileObj._file in
  match file with
  | Some path => Deno.close path
  | None => throw "TypeError"
  end ;;
  for_each (reverse (seqZ 0 maxBackupCount)) (shift_backup filename) ;;
  let! file' := Deno.open filename options in
  update (FileObj.set_file (Some file')) ;;
  update (FileObj.set_buf (Some BufWriterSync.new)).

Definition log (msg : string) : M St unit :=
  let msgByteLength := (TextEncoder.byteLength msg + 1)%Z in
  let! currentFileSize := field FileObj.currentFileSize in
  let! maxBytes := field FileObj.maxBytes in
  when (currentFileSize + msgByteLength >? maxBytes)%Z
    (rotateLogFiles ;;
     update (FileObj.set_currentFileSize 0)) ;;
  BufWriterSync.writeSync (TextEncoder.encode (msg +:+ newline)) ;;
  let! currentFileSize := field FileObj.currentFileSize in
  update (FileObj.set_currentFileSize (currentFileSize + msgByteLength)).

(** A run of log calls; it stops at the first call that throws. *)
Definition logs (msgs : list string) : M St unit := for_each msgs log.

End RotatingFileHandler.

(** The state in which a handler just built meets the files [files], in
    a runtime that refuses [refused]. *)
Definition initial_with (refused : Call → option string)
    (files : gmap string (list Byte.byte)) (o : FileObj.t) : St :=
  {| fs := files; trace := []; this := o; refused := refused |}.

(** The same in a runtime that refuses nothing. *)
Definition initial (files : gmap string (list Byte.byte)) (o : FileObj.t)
    : St :=
  initial_with (λ _, None) files o.

(** ** handlers/telegram.handler.ts

    The handler runs on the event loop of the runtime: [setTimeout] and
    [fetch] return at once, and what they started happens later, one
    callback at a time.  [Loop] is what is pending on the loop and what
    went out; the steps of the system are the calls of the producer and
    the callbacks the loop runs, in any order the loop can choose. *)
Module TelegramHandler.

Record t : Type := mk {
  base : BaseHandler.t;
  botToken : string;
  chatID : string;
  projectName : option string;
  hasConnectToTg : bool;
  queue : list string;
  isRunQueue : bool
}.

Record Loop : Type := mkLoop {
  (** [setTimeout(() => this.tapQueue(), 100)] calls not run yet *)
  timers : nat;
  (** the [getMe] request of [setup] is not settled yet *)
  probing : bool;
  (** the texts of the [sendMessage] requests not settled yet *)
  inflight : list string;
  (** the texts of the [sendMessage] requests made so far, in order *)
  sent : list string;
  (** what went to [console.error] *)
  errors : list string
}.

Record Sys : Type := mkSys {
  handler : t;
  loop : Loop
}.

Definition set_queue (q : list string) (h : t) : t :=
  mk (base h) (botToken h) (chatID h) (projectName h) (hasConnectToTg h)
     q (isRunQueue h).
Definition set_isRunQueue (b : bool) (h : t) : t :=
  mk (base h) (botToken h) (chatID h) (projectName h) (hasConnectToTg h)
     (queue h) b.
Definition set_hasConnectToTg (b : bool) (h : t) : t :=
  mk (base h) (botToken h) (chatID h) (projectName h) b
     (queue h) (isRunQueue h).

Definition setTimeout (l : Loop) : Loop :=
  mkLoop (S (timers l)) (probing l) (inflight l) (sent l) (errors l).
Definition fetch_sendMessage (text : string) (l : Loop) : Loop :=
  mkLoop (timers l) (probing l) (inflight l ++ [text]) (sent l ++ [text])
         (errors l).
Definition fetch_getMe (l : Loop) : Loop :=
  mkLoop (timers l) true (inflight l) (sent l) (errors l).
Definition console_error (err : string) (l : Loop) : Loop :=
  mkLoop (timers l) (probing l) (inflight l) (sent l) (errors l ++ [err]).

Definition idle : Loop :=
  {| timers := 0; probing := false; inflight := []; sent := [];
     errors := [] |}.

Section WithEnv.
Context `{Env}.

(** [options.projectName || null] *)
Definition new (levelName : LogLevels) (options : HandlerOptions)
    (botToken chatID : string) (projectName : option string) : t :=
  {| base := BaseHandler.new levelName options;
     botToken := botToken;
     chatID := chatID;
     projectName :=
       match projectName with
       | Some EmptyString | None => None
       | Some p => Some p
       end;
     hasConnectToTg := false;
     queue := [];
     isRunQueue := false |}.

Definition format (this : t) (logRecord : LogRecord.t)
    : Completion string :=
  match BaseHandler.format (base this) logRecord with
  | Throw e => Throw e
  | Normal msg =>
      let msg := "<pre>" +:+ msg +:+ "</pre>" in
      match projectName this with
      | Some p => Normal (p +:+ newline +:+ msg)
      | None => Normal msg
      end
  end.

End WithEnv.

(** [setup]: the credentials are checked, then the probe is started and
    [setup] returns. *)
Definition setup (s : Sys) : Sys * Completion unit :=
  match botToken (handler s), chatID (handler s) with
  | EmptyString, _ => (s, Throw "botToken is required")
  | _, EmptyString => (s, Throw "chatID is required")
  | _, _ => (mkSys (handler s) (fetch_getMe (loop s)), Normal tt)
  end.

(** The [then] and [catch] callbacks of the probe, when it settles:
    [err] is [None] for a response of status 200, else the error (of the
    request, or the one thrown for another status). *)
Definition probe_settled (err : option string) (s : Sys) : Sys :=
  let l := mkLoop (timers (loop s)) false (inflight (loop s))
                  (sent (loop s)) (errors (loop s)) in
  match err with
  | None => mkSys (set_hasConnectToTg true (handler s)) (setTimeout l)
  | Some e => mkSys (handler s) (console_error e l)
  end.

Definition log (msg : string) (s : Sys) : Sys :=
  let h := set_queue (queue (handler s) ++ [msg]) (handler s) in
  if hasConnectToTg h then mkSys h (setTimeout (loop s))
  else mkSys h (loop s).

Definition tapQueue (s : Sys) : Sys :=
  let h := handler s in
  if isRunQueue h || bool_decide (queue h = []) || negb (hasConnectToTg h)
  then s
  else
    match queue h with
    | [] => mkSys h (setTimeout (loop s))
    | msg :: rest =>
        (* [this.#queue.shift()] *)
        let h := set_queue rest h in
        if String.eqb msg "" then mkSys h (setTimeout (loop s))
        else
          mkSys (set_isRunQueue true h) (fetch_sendMessage msg (loop s))
    end.

(** The [catch] and [finally] callbacks of a [sendMessage] request, when
    it settles: [err] is the error of a failed request. *)
Definition send_settled (err : option string) (s : Sys) : Sys :=
  let l := match err with
           | Some e => console_error e (loop s)
           | None => loop s
           end in
  mkSys (set_isRunQueue false (handler s)) (setTimeout l).

(** What can happen next. *)
Inductive event : Type :=
  | CallsSetup                     (* the owner calls [setup] *)
  | CallsLog (msg : string)        (* the producer calls [log] *)
  | CallsTapQueue                  (* a caller calls [tapQueue] *)
  | TimerFires                     (* the loop runs a pending timer *)
  | ProbeSettles (err : option string) (* the [getMe] request settles *)
  | SendSettles (k : nat) (err : option string).
                                   (* the [k]-th request in flight settles *)

Definition take_timer (l : Loop) : Loop :=
  mkLoop (pred (timers l)) (probing l) (inflight l) (sent l) (errors l).
Definition take_inflight (k : nat) (l : Loop) : Loop :=
  mkLoop (timers l) (probing l) (delete k (inflight l)) (sent l) (errors l).

(** One step; [None] when the event cannot happen in [s]. *)
Definition step (s : Sys) (e : event) : option Sys :=
  match e with
  | CallsSetup => Some (fst (setup s))
  | CallsLog msg => Some (log msg s)
  | CallsTapQueue => Some (tapQueue s)
  | TimerFires =>
      match timers (loop s) with
      | O => None
      | S _ => Some (tapQueue (mkSys (handler s) (take_timer (loop s))))
      end
  | ProbeSettles err =>
      if probing (loop s) then Some (probe_settled err s) else None
  | SendSettles k err =>
      match inflight (loop s) !! k with
      | Some _ =>
          Some (send_settled err
                  (mkSys (handler s) (take_inflight k (loop s))))
      | None => None
      end
  end.

Fixpoint run (s : Sys) (es : list event) : option Sys :=
  match es with
  | [] => Some s
  | e :: es' =>
      match step s e with
      | Some s' => run s' es'
      | None => None
      end
  end.

(** The messages handed to [log] during a run, in order. *)
Definition logged (es : list event) : list string :=
  omap (λ e, match e with CallsLog m => Some m | _ => None end) es.

(** [!msg] is false. *)
Definition nonempty (m : string) : bool := negb (String.eqb m "").

End TelegramHandler.

#[export] Instance TelegramHandler_Handler `{Env}
    : Handler TelegramHandler.Sys := {
  handle s r :=
    BaseHandler.handle
      (λ s, TelegramHandler.base (TelegramHandler.handler s))
      (λ s, TelegramHandler.format (TelegramHandler.handler s))
      (λ msg s, (TelegramHandler.log msg s, Normal tt)) s r
}.

(** ** A concrete environment

    Stand-ins for the imports, to run the definitions on concrete inputs:
    the level numbers of Deno's std/log, a [stripColor] that removes the
    escape sequences std/fmt/colors emits, and a plain rendering of
    values. *)
Module Sample.

Definition ESC : ascii := ascii_of_nat 27.

(** Drops [ESC [ digits-and-semicolons letter]. *)
Fixpoint strip (skipping : bool) (s : string) : string :=
  match s with
  | EmptyString => EmptyString
  | String c s' =>
      if skipping then
        if Str.is_digit c || Ascii.eqb c ";" || Ascii.eqb c "[" then strip true s'
        else strip false s'
      else if Ascii.eqb c ESC then
        match s' with
        | String "[" _ => strip true s'
        | _ => String c (strip false s')
        end
      else String c (strip false s')
  end.

Definition join (sep : string) (l : list string) : string :=
  match l with
  | [] => ""
  | x :: rest => foldl (λ acc y, acc +:+ sep +:+ y) x rest
  end.

Fixpoint show (quote : bool) (v : value) : string :=
  match v with
  | VUndefined => "undefined"
  | VNull => "null"
  | VBool b => if b then "true" else "false"
  | VNumber n => pretty n
  | VString s => if quote then "'" +:+ s +:+ "'" else s
  | VFunction name _ => "[Function: " +:+ name +:+ "]"
  | VObject props =>
      "{ " +:+ join ", "
        ((fix go (l : list (string * value)) : list string :=
            match l with
            | [] => []
            | (k, x) :: l' => (k +:+ ": " +:+ show true x) :: go l'
            end) props) +:+ " }"
  | VArray elems =>
      "[ " +:+ join ", "
        ((fix go (l : list value) : list string :=
            match l with
            | [] => []
            | x :: l' => show true x :: go l'
            end) elems) +:+ " ]"
  | VBuiltin name => "[" +:+ name +:+ "]"
  end.

(** [String(v)]: an array is its elements joined by commas, [null] and
    [undefined] elements being empty. *)
Fixpoint to_string (v : value) : string :=
  match v with
  | VUndefined => "undefined"
  | VNull => "null"
  | VBool b => if b then "true" else "false"
  | VNumber n => pretty n
  | VString s => s
  | VFunction name _ => "function " +:+ name +:+ "() { [code] }"
  | VObject _ => "[object Object]"
  | VArray elems =>
      join ","
        ((fix go (l : list value) : list string :=
            match l with
            | [] => []
            | x :: l' =>
                (if Js.is_nullish x then "" else to_string x) :: go l'
            end) elems)
  | VBuiltin name => "[" +:+ name +:+ "]"
  end.

Definition env : Env :=
  {| stripColor := strip false;
     dateAsString := λ _ time, pretty time;
     ABSOLUTETIME_FORMAT := "hh:mm:ss.SSS";
     inspect := show true;
     toStr := to_string;
     levelNum := λ l, (10 * Z.of_nat (level_rank l))%Z |}.

End Sample.

(** ** handlers.ts: the console handler *)

(** The colour functions of std/fmt/colors that [deps.ts] exports. *)
Class Colors : Type := {
  red : string → string;
  yellow : string → string;
  blue : string → string;
  bold : string → string
}.

Module ConsoleHandler.

(** [console] is what went to [console.log], in order. *)
Record t : Type := mk {
  base : BaseHandler.t;
  console : list string
}.

Section WithEnv.
Context `{Env} `{Colors}.

(** [if (!options.noColor) options.noColor = false], then the
    constructor of the base class. *)
Definition new (levelName : LogLevels) (options : HandlerOptions) : t :=
  let options' :=
    {| o_formatter := o_formatter options;
       o_datetimeFormat := o_datetimeFormat options;
       o_noColor :=
         match o_noColor options with
         | Some true => Some true
         | _ => Some false
         end |} in
  {| base := BaseHandler.new levelName options'; console := [] |}.

(** [(prefix ? colour(prefix) : "") + msg] *)
Definition coloured_prefix (colour : string → string) (fp : IFormatResult)
    : string :=
  match BaseHandler.truthy (fr_prefix fp) with
  | Some p => colour p
  | None => ""
  end +:+ fr_msg fp.

(** [prefix + msg]: a prefix that is [undefined] is converted to the
    string of that name. *)
Definition prefix_and_msg (fp : IFormatResult) : string :=
  match fr_prefix fp with
  | Some p => p
  | None => "undefined"
  end +:+ fr_msg fp.

Definition format (this : t) (logRecord : LogRecord.t) : Completion string :=
  if BaseHandler.noColor (base this) then
    BaseHandler.format (base this) logRecord
  else
    match BaseHandler.formatAndPrefix (base this) logRecord with
    | Throw e => Throw e
    | Normal formatAndPrefix =>
        let level := levelNum (LogRecord.level logRecord) in
        Normal
          (if (level =? levelNum INFO)%Z then
             coloured_prefix blue formatAndPrefix
           else if (level =? levelNum WARNING)%Z then
             coloured_prefix yellow formatAndPrefix
           else if (level =? levelNum ERROR)%Z then
             red (prefix_and_msg formatAndPrefix)
           else if (level =? levelNum CRITICAL)%Z then
             bold (red (prefix_and_msg formatAndPrefix))
           else "")
    end.

Definition log (msg : string) (this : t) : t * Completion unit :=
  ({| base := base this; console := console this ++ [msg] |}, Normal tt).

Definition handle (this : t) (logRecord : LogRecord.t)
    : t * Completion unit :=
  BaseHandler.handle base format log this logRecord.

End WithEnv.
End ConsoleHandler.

#[export] Instance ConsoleHandler_Handler `{Env} `{Colors}
    : Handler ConsoleHandler.t := {
  handle := ConsoleHandler.handle
}.

(** ** handlers.ts: [handle] of the file handlers

    [FileHandler] overrides [handle]; [RotatingFileHandler] inherits it
    and overrides [log].  [base] holds the fields of [BaseHandler]; [log]
    is the method [log] of the class of [this]: [FileHandler.log] or
    [RotatingFileHandler.log]. *)
Module FileHandling.
Section WithEnv.
Context `{Env}.

(** [super.handle(logRecord)] *)
Definition super_handle (base : BaseHandler.t) (log : string → M St unit)
    (logRecord : LogRecord.t) : M St unit :=
  λ s,
    let '(s', c) :=
      BaseHandler.handle (λ _, base) (λ _, BaseHandler.format base)
        (λ msg s0, let '(c, s1) := log msg s0 in (s1, c)) s logRecord in
    (c, s').

Definition handle (base : BaseHandler.t) (log : string → M St unit)
    (logRecord : LogRecord.t) : M St unit :=
  super_handle base log logRecord ;;
  (* Immediately flush if log level is higher than ERROR *)
  when (levelNum (LogRecord.level logRecord) >? levelNum ERROR)%Z
    FileHandler.flush.

End WithEnv.
End FileHandling.

(** ** util/assert.ts and mod.ts: the registry of loggers *)

Module Mod.

(** [assert(expr, msg = "")] throws an [UzuLoggerInternalError] of
    message [msg] when [expr] is falsy. *)
Definition assert {S : Type} (expr : bool) (msg : option string)
    : M S unit :=
  if expr then ret tt else throw (default "" msg).

Definition quote : string := String (ascii_of_nat 34) EmptyString.

Definition default_required : string :=
  quote +:+ "default" +:+ quote
  +:+ " logger must be set for getting logger without name".

Section WithHandlers.
Context {T : Type}.

(** [state.loggers] *)
Definition Loggers : Type := gmap string (Logger.t T).

Definition getLogger (name : option string) : M Loggers (Logger.t T) :=
  match BaseHandler.truthy name with
  | None =>
      let! d :=
        gets (λ loggers : gmap string (Logger.t T), loggers !! "default") in
      assert (bool_decide (is_Some d)) (Some default_required) ;;
      match d with
      | Some d => ret d
      | None => throw default_required
      end
  | Some name =>
      let! result :=
        gets (λ loggers : gmap string (Logger.t T), loggers !! name) in
      match result with
      | None =>
          let logger :=
            Logger.new name NOTSET
              {| Logger.o_handlers := Some [];
                 Logger.o_returnResult := None |} in
          modify (λ loggers : gmap string (Logger.t T),
                    <[name := logger]> loggers) ;;
          ret logger
      | Some result => ret result
      end
  end.

(** The category defaults to ["default"] when it is not given. *)
Definition createCategoryLogger (category nameLogger : option string)
    : M Loggers (LoggerCategory.t T) :=
  let! logger := getLogger nameLogger in
  ret (LoggerCategory.mk (default "default" category) logger).

End WithHandlers.

(** *** [setup]

    A handler is known by its identity; what its methods do is given by
    the world they run in (the handler objects, the files).  No other
    code runs between the steps of [setup]. *)
Definition loc : Type := nat.

Class Handlers (W : Type) : Type := {
  (** [handler.setup()], awaited *)
  call_setup : loc → M W unit;
  (** [handler.destroy()], not awaited: what it does before it returns *)
  call_destroy : loc → M W unit
}.

(** An object literal: its own properties, in the order of their
    creation.  A [Map] is its entries in the order of their insertion. *)
Definition Obj (A : Type) : Type := list (string * A).

Fixpoint obj_get {A : Type} (k : string) (o : Obj A) : option A :=
  match o with
  | [] => None
  | (k', v) :: o' => if String.eqb k k' then Some v else obj_get k o'
  end.

(** [o[k] = v], [map.set(k, v)]: an existing key keeps its place. *)
Fixpoint obj_set {A : Type} (k : string) (v : A) (o : Obj A) : Obj A :=
  match o with
  | [] => [(k, v)]
  | (k', v') :: o' =>
      if String.eqb k k' then (k, v) :: o' else (k', v') :: obj_set k v o'
  end.

(** An array index: the canonical decimal form of an integer below
    [2^32 - 1]. *)
Definition array_index (k : string) : option N :=
  match Js.digits Js.digit_val 10 None k with
  | Some n =>
      if String.eqb (pretty n) k && (n <=? 4294967294)%N then Some n
      else None
  | None => None
  end.

Definition index_of {A : Type} (entry : string * A) : N :=
  default 0%N (array_index entry.1).

Fixpoint insert_by_index {A : Type} (x : string * A) (l : Obj A) : Obj A :=
  match l with
  | [] => [x]
  | y :: l' =>
      if (index_of x <? index_of y)%N then x :: l
      else y :: insert_by_index x l'
  end.

(** The order in which [for ... in] and the spread visit the properties
    of an object: the array indices in ascending order, then the other
    keys in the order of their creation. *)
Definition own_properties {A : Type} (o : Obj A) : Obj A :=
  foldr insert_by_index []
    (List.filter (λ x, bool_decide (is_Some (array_index x.1))) o)
  ++ List.filter (λ x, negb (bool_decide (is_Some (array_index x.1)))) o.

Definition assign {A : Type} (target source : Obj A) : Obj A :=
  foldl (λ o entry, obj_set entry.1 entry.2 o) target (own_properties source).

(** [{ ...a, ...b }] *)
Definition spread {A : Type} (a b : Obj A) : Obj A :=
  assign (assign [] a) b.

Record LoggerConfig : Type := mkLoggerConfig {
  lc_level : option LogLevels;
  lc_handlers : option (list string)
}.

Record LogConfig : Type := mkLogConfig {
  c_handlers : option (Obj loc);
  c_loggers : option (Obj LoggerConfig)
}.

Definition DEFAULT_LEVEL : LogLevels := INFO.

(** [DEFAULT_CONFIG]; [default_handler] is the console handler that the
    module builds when it is loaded. *)
Definition DEFAULT_CONFIG (default_handler : loc) : LogConfig :=
  {| c_handlers := Some [("default", default_handler)];
     c_loggers :=
       Some [("default",
              {| lc_level := Some DEFAULT_LEVEL;
                 lc_handlers := Some ["default"] |})] |}.

(** [state]: the maps of the handlers and of the loggers, and the world
    of the handlers.  [state.config] is written and read by [setup]
    only: it is the two locals [handlers_] and [loggers_] there. *)
Record State (W : Type) : Type := mkState {
  world : W;
  handlers : Obj loc;
  loggers : gmap string (Logger.t loc)
}.
Arguments mkState {W} _ _ _.
Arguments world {W} _.
Arguments handlers {W} _.
Arguments loggers {W} _.

Section WithWorld.
Context {W : Type} `{Handlers W} (default_handler : loc).

Definition in_world {A : Type} (m : M W A) : M (State W) A :=
  λ st, let '(c, w) := m (world st) in (c, mkState w (handlers st) (loggers st)).

(** The body of the loop over the handlers of the configuration. *)
Definition register_handler (entry : string * loc) : M (State W) unit :=
  let '(handlerName, handler) := entry in
  in_world (call_setup handler) ;;
  modify (λ st, mkState (world st) (obj_set handlerName handler (handlers st))
                  (loggers st)).

(** The body of the loop over the loggers of the configuration: the
    names of handlers that are not registered are skipped. *)
Definition register_logger (entry : string * LoggerConfig)
    : M (State W) unit :=
  let '(loggerName, loggerConfig) := entry in
  let handlerNames := default [] (lc_handlers loggerConfig) in
  let! registered := gets handlers in
  let handlers_ :=
    omap (λ handlerName, obj_get handlerName registered) handlerNames in
  let levelName := default DEFAULT_LEVEL (lc_level loggerConfig) in
  let logger :=
    Logger.new loggerName levelName
      {| Logger.o_handlers := Some handlers_;
         Logger.o_returnResult := None |} in
  modify (λ st, mkState (world st) (handlers st)
                  (<[loggerName := logger]> (loggers st))).

Definition setup (config : LogConfig) : M (State W) unit :=
  let handlers_ :=
    spread (default [] (c_handlers (DEFAULT_CONFIG default_handler)))
           (default [] (c_handlers config)) in
  let loggers_ :=
    spread (default [] (c_loggers (DEFAULT_CONFIG default_handler)))
           (default [] (c_loggers config)) in
  (* tear down existing handlers *)
  let! existing := gets handlers in
  for_each existing (λ entry, in_world (call_destroy entry.2)) ;;
  modify (λ st, mkState (world st) [] (loggers st)) ;;
  (* setup handlers *)
  for_each (own_properties handlers_) register_handler ;;
  (* remove existing loggers *)
  modify (λ st, mkState (world st) (handlers st) ∅) ;;
  (* setup loggers *)
  for_each (own_properties loggers_) register_logger.

(** The state once the module is loaded: [await setup(DEFAULT_CONFIG)]
    on the empty maps. *)
Definition loaded (w : W) : Completion unit * State W :=
  setup (DEFAULT_CONFIG default_handler) (mkState w [] ∅).

End WithWorld.
End Mod.

(** Stand-ins for the colour functions: the escape sequences of
    std/fmt/colors. *)
Module SampleColors.

Definition code (open close : string) (s : string) : string :=
  String Sample.ESC ("[" +:+ open +:+ "m") +:+ s
  +:+ String Sample.ESC ("[" +:+ close +:+ "m").

Definition colors : Colors :=
  {| red := code "31" "39";
     yellow := code "33" "39";
     blue := code "34" "39";
     bold := code "1" "22" |}.

End SampleColors.

(** * Properties *)

(** ** Strings *)

Module StrFacts.

Lemma app_cons c s t : String c s +:+ t = String c (s +:+ t).
Proof. reflexivity. Qed.

Lemma app_nil_l s : "" +:+ s = s.
Proof. reflexivity. Qed.

Lemma app_nil_r s : s +:+ "" = s.
Proof. induction s as [|c s IH]; [done|]. by rewrite app_cons, IH. Qed.

Lemma app_assoc s t u : (s +:+ t) +:+ u = s +:+ (t +:+ u).
Proof.
  induction s as [|c s IH]; [done|]. by rewrite !app_cons, IH.
Qed.

Lemma length_app s t :
  String.length (s +:+ t) = String.length s + String.length t.
Proof.
  induction s as [|c s IH]; [done|]. rewrite app_cons. simpl. by rewrite IH.
Qed.

(** [span] cuts the string in two; the first part satisfies [p], the
    second part does not start with a character that satisfies [p]. *)
Lemma span_spec p s a b :
  Str.span p s = (a, b) →
  s = a +:+ b ∧ Str.all p a = true ∧
  match b with EmptyString => True | String c _ => p c = false end.
Proof.
  revert a b. induction s as [|c s IH]; intros a b Hs; simpl in Hs.
  - by inversion Hs.
  - destruct (p c) eqn:Hc.
    + destruct (Str.span p s) as [a' b'] eqn:Hs'. inversion Hs; subst.
      destruct (IH a' b eq_refl) as (-> & Ha & Hb).
      split; [done|]. split; [|done]. simpl. by rewrite Hc.
    + inversion Hs; subst. split; [done|]. split; [done|]. done.
Qed.

(** A string that satisfies [p] up to a character that does not. *)
Lemma span_stop p a c t :
  Str.all p a = true → p c = false →
  Str.span p (a +:+ String c t) = (a, String c t).
Proof.
  intros Ha Hc. induction a as [|d a IH].
  - rewrite app_nil_l. simpl. by rewrite Hc.
  - simpl in Ha. apply andb_prop in Ha as [Hd Ha].
    rewrite app_cons. simpl. rewrite Hd. by rewrite (IH Ha).
Qed.

Lemma span_all p a : Str.all p a = true → Str.span p a = (a, "").
Proof.
  intros Ha. induction a as [|d a IH]; [done|].
  simpl in Ha. apply andb_prop in Ha as [Hd Ha].
  simpl. rewrite Hd. by rewrite (IH Ha).
Qed.

Lemma prefix_app p s : String.prefix p (p +:+ s) = true.
Proof.
  induction p as [|c p IH]; [by destruct s|].
  rewrite app_cons. simpl. destruct (ascii_dec c c); [done|congruence].
Qed.

Lemma prefix_inv p s :
  String.prefix p s = true → ∃ t, s = p +:+ t.
Proof.
  revert s. induction p as [|c p IH]; intros s Hp.
  - by exists s.
  - destruct s as [|d s]; [done|]. simpl in Hp.
    destruct (ascii_dec c d) as [->|]; [|done].
    destruct (IH s Hp) as [t ->]. by exists t.
Qed.

End StrFacts.

(** ** The placeholder pattern *)

Module RegexFacts.
Import StrFacts.

(** A match covers an opening brace, a non-empty name of word
    characters and a closing brace. *)
Lemma match_placeholder_inv s p1 rest :
  Regex.match_placeholder s = Some (p1, rest) →
  s = "{" +:+ p1 +:+ "}" +:+ rest ∧ Str.all Str.is_word p1 = true ∧ p1 ≠ "".
Proof.
  unfold Regex.match_placeholder. intros Hm.
  destruct s as [|c s]; [done|].
  destruct (ascii_dec c "{") as [->|Hc]; cycle 1.
  { destruct c as [[] [] [] [] [] [] [] []]; try done. }
  destruct (Str.span Str.is_word s) as [a b] eqn:Hs.
  apply span_spec in Hs as (-> & Ha & Hb).
  destruct a as [|d a]; [done|].
  destruct b as [|e b]; [done|].
  destruct (ascii_dec e "}") as [->|He]; cycle 1.
  { destruct e as [[] [] [] [] [] [] [] []]; try done. }
  inversion Hm; subst. split; [|done].
  by rewrite !app_cons, app_nil_l.
Qed.

Lemma match_placeholder_shorter s p1 rest :
  Regex.match_placeholder s = Some (p1, rest) →
  String.length rest < String.length s.
Proof.
  intros (-> & _ & _)%match_placeholder_inv.
  rewrite !length_app. simpl. lia.
Qed.

(** A well-formed placeholder at the start of the string is matched. *)
Lemma match_placeholder_hole name post :
  Str.all Str.is_word name = true → name ≠ "" →
  Regex.match_placeholder ("{" +:+ name +:+ "}" +:+ post) = Some (name, post).
Proof.
  intros Hw Hne. rewrite app_cons, app_nil_l.
  unfold Regex.match_placeholder.
  change ("}" +:+ post) with (String "}" post).
  rewrite (span_stop Str.is_word name "}" post Hw eq_refl).
  by destruct name.
Qed.

(** More fuel than the length of the string changes nothing. *)
Lemma replace_go_fuel cb n m s :
  String.length s ≤ n → String.length s ≤ m →
  Regex.replace_go n cb s = Regex.replace_go m cb s.
Proof.
  revert m s. induction n as [|n IH]; intros m s Hn Hm.
  - destruct s; [by destruct m|simpl in Hn; lia].
  - destruct s as [|c s]; [by destruct m|].
    destruct m as [|m]; [simpl in Hm; lia|].
    simpl in Hn, Hm.
    cbn [Regex.replace_go].
    destruct (Regex.match_placeholder (String c s)) as [[p1 rest]|] eqn:Hmp.
    + apply match_placeholder_shorter in Hmp. simpl in Hmp.
      f_equal. apply IH; lia.
    + f_equal. apply IH; lia.
Qed.

(** The equation of the left-to-right replacement. *)
Lemma replace_unfold cb s :
  Regex.replace_placeholders cb s =
  match s with
  | EmptyString => EmptyString
  | String c s' =>
      match Regex.match_placeholder s with
      | Some (p1, rest) =>
          cb ("{" +:+ p1 +:+ "}") p1 +:+ Regex.replace_placeholders cb rest
      | None => String c (Regex.replace_placeholders cb s')
      end
  end.
Proof.
  unfold Regex.replace_placeholders. destruct s as [|c s]; [done|].
  cbn [String.length Regex.replace_go].
  destruct (Regex.match_placeholder (String c s)) as [[p1 rest]|] eqn:Hmp.
  - apply match_placeholder_shorter in Hmp. simpl in Hmp.
    f_equal. apply replace_go_fuel; lia.
  - done.
Qed.

Lemma span_word_brace s t a b :
  Str.span Str.is_word s = (a, b) →
  Str.span Str.is_word (s +:+ String "{" t) = (a, b +:+ String "{" t).
Proof.
  intros (-> & Ha & Hb)%span_spec.
  destruct b as [|c b].
  - rewrite app_nil_r, app_nil_l. by apply span_stop.
  - rewrite app_assoc, app_cons. by apply span_stop.
Qed.

(** A match that fits in [pre] is not changed by what follows [pre]. *)
Lemma match_placeholder_app_Some pre x p1 rest :
  Regex.match_placeholder pre = Some (p1, rest) →
  Regex.match_placeholder (pre +:+ x) = Some (p1, rest +:+ x).
Proof.
  intros (-> & Hw & Hne)%match_placeholder_inv.
  rewrite !app_assoc. by apply match_placeholder_hole.
Qed.

(** No match starts in a non-empty [pre] and runs into a following
    opening brace. *)
Lemma match_placeholder_app_None pre t :
  pre ≠ "" → Regex.match_placeholder pre = None →
  Regex.match_placeholder (pre +:+ String "{" t) = None.
Proof.
  intros Hne Hm. destruct pre as [|c pre]; [done|].
  rewrite app_cons. unfold Regex.match_placeholder in *.
  destruct (ascii_dec c "{") as [->|Hc]; cycle 1.
  { destruct c as [[] [] [] [] [] [] [] []]; try done. }
  destruct (Str.span Str.is_word pre) as [a b] eqn:Hs.
  rewrite (span_word_brace _ t _ _ Hs).
  destruct a as [|d a]; [done|].
  destruct b as [|e b]; [done|].
  rewrite app_cons.
  destruct (ascii_dec e "}") as [->|He]; [done|].
  destruct e as [[] [] [] [] [] [] [] []]; try done.
Qed.

(** The text before an opening brace is replaced on its own. *)
Lemma replace_app_brace cb pre t :
  Regex.replace_placeholders cb (pre +:+ String "{" t) =
  Regex.replace_placeholders cb pre
  +:+ Regex.replace_placeholders cb (String "{" t).
Proof.
  remember (String.length pre) as n eqn:Hn.
  revert pre Hn. induction (lt_wf n) as [n _ IH]. intros pre ->.
  destruct pre as [|c pre]; [done|].
  rewrite (replace_unfold cb (String c pre +:+ _)).
  rewrite (replace_unfold cb (String c pre)).
  rewrite app_cons. rewrite <- app_cons.
  destruct (Regex.match_placeholder (String c pre)) as [[p1 rest]|] eqn:Hmp.
  - rewrite (match_placeholder_app_Some _ _ _ _ Hmp).
    apply match_placeholder_shorter in Hmp.
    rewrite (IH _ Hmp rest eq_refl). by rewrite app_assoc.
  - rewrite (match_placeholder_app_None _ t) by done.
    rewrite app_cons. f_equal.
    apply (IH (String.length pre)); [simpl; lia|done].
Qed.

(** A well-formed placeholder in a template is replaced by what the
    callback returns for it; the text before it and the text after it
    are replaced on their own. *)
Lemma replace_hole cb pre name post :
  Str.all Str.is_word name = true → name ≠ "" →
  Regex.replace_placeholders cb (pre +:+ "{" +:+ name +:+ "}" +:+ post) =
  Regex.replace_placeholders cb pre
  +:+ cb ("{" +:+ name +:+ "}") name
  +:+ Regex.replace_placeholders cb post.
Proof.
  intros Hw Hne.
  change ("{" +:+ name +:+ "}" +:+ post)
    with (String "{" (name +:+ "}" +:+ post)).
  rewrite replace_app_brace. f_equal.
  rewrite replace_unfold.
  change (String "{" (name +:+ "}" +:+ post))
    with ("{" +:+ name +:+ "}" +:+ post).
  by rewrite match_placeholder_hole.
Qed.

(** A callback that returns the match leaves the template as it is. *)
Lemma replace_id cb s :
  (∀ p1, cb ("{" +:+ p1 +:+ "}") p1 = "{" +:+ p1 +:+ "}") →
  Regex.replace_placeholders cb s = s.
Proof.
  intros Hcb.
  remember (String.length s) as n eqn:Hn.
  revert s Hn. induction (lt_wf n) as [n _ IH]. intros s ->.
  rewrite replace_unfold. destruct s as [|c s]; [done|].
  destruct (Regex.match_placeholder (String c s)) as [[p1 rest]|] eqn:Hmp.
  - pose proof (match_placeholder_shorter _ _ _ Hmp) as Hlt.
    apply match_placeholder_inv in Hmp as (Hs & _ & _).
    rewrite (IH _ Hlt rest eq_refl), Hcb. rewrite Hs.
    by rewrite !app_assoc.
  - f_equal. apply (IH (String.length s)); [simpl; lia|done].
Qed.

End RegexFacts.

(** ** Formatting (logger.ts [msgFormat], handlers.ts [formatCustom]) *)

Section Formatting.
Context `{Env}.
Import StrFacts RegexFacts.

(** Without arguments [msgFormat] returns the template; then every
    value is missing as well. *)
Lemma msgFormat_value_no_args p1 :
  Js.is_nullish (Logger.msgFormat_value [] p1) = true.
Proof.
  unfold Logger.msgFormat_value, Logger.msgFormat_obj.
  destruct (Js.parseInt p1) as [n|]; [|done].
  change (N.of_nat (length (@nil value))) with 0%N.
  destruct (n <=? 0)%N eqn:Hn; [|done].
  apply N.leb_le in Hn. by replace n with 0%N by lia.
Qed.

Lemma msgFormat_hole args pre name post :
  Str.all Str.is_word name = true → name ≠ "" →
  Logger.msgFormat (pre +:+ "{" +:+ name +:+ "}" +:+ post) args =
  Logger.msgFormat pre args
  +:+ (if Js.is_nullish (Logger.msgFormat_value args name)
       then "{" +:+ name +:+ "}"
       else helpers.asString (Logger.msgFormat_value args name))
  +:+ Logger.msgFormat post args.
Proof.
  intros Hw Hne. destruct args as [|a args].
  - rewrite msgFormat_value_no_args. unfold Logger.msgFormat.
    by rewrite !app_assoc.
  - unfold Logger.msgFormat. by rewrite replace_hole.
Qed.

Lemma formatCustom_hole h r pre name post :
  Str.all Str.is_word name = true → name ≠ "" →
  BaseHandler.formatCustom h (pre +:+ "{" +:+ name +:+ "}" +:+ post) r =
  BaseHandler.formatCustom h pre r
  +:+ (if Js.is_nullish (BaseHandler.formatCustom_value h r name)
       then "{" +:+ name +:+ "}"
       else BaseHandler.String_ (BaseHandler.formatCustom_value h r name))
  +:+ BaseHandler.formatCustom h post r.
Proof.
  intros Hw Hne. unfold BaseHandler.formatCustom. by rewrite replace_hole.
Qed.

(** C8.  A placeholder [{name}] ([name] a non-empty run of word
    characters) whose value is [null] or [undefined] stays in the output
    as the text [{name}], between the formatted text before it and the
    formatted text after it: in [msgFormat] of the logger, where the
    value comes from the arguments, and in [formatCustom] of a handler,
    where it comes from the record. *)
Theorem unresolved_placeholder_kept
    (h : BaseHandler.t) (r : LogRecord.t) (args : list value)
    (pre name post : string) :
  Str.all Str.is_word name = true → name ≠ "" →
  (Js.is_nullish (Logger.msgFormat_value args name) = true →
   Logger.msgFormat (pre +:+ "{" +:+ name +:+ "}" +:+ post) args =
   Logger.msgFormat pre args +:+ "{" +:+ name +:+ "}"
   +:+ Logger.msgFormat post args) ∧
  (Js.is_nullish (BaseHandler.formatCustom_value h r name) = true →
   BaseHandler.formatCustom h (pre +:+ "{" +:+ name +:+ "}" +:+ post) r =
   BaseHandler.formatCustom h pre r +:+ "{" +:+ name +:+ "}"
   +:+ BaseHandler.formatCustom h post r).
Proof.
  intros Hw Hne. split; intros Hnull.
  - rewrite msgFormat_hole by done. rewrite Hnull. by rewrite !app_assoc.
  - rewrite formatCustom_hole by done. rewrite Hnull. by rewrite !app_assoc.
Qed.

(** When no value is found at all, the template comes out unchanged. *)
Lemma msgFormat_all_unresolved format args :
  (∀ p1, Js.is_nullish (Logger.msgFormat_value args p1) = true) →
  Logger.msgFormat format args = format.
Proof.
  intros Hall. destruct args as [|a args]; [done|].
  unfold Logger.msgFormat. apply replace_id. intros p1. by rewrite Hall.
Qed.

End Formatting.

(** The record and the handler used in the examples. *)
Definition sample_record : LogRecord.t :=
  LogRecord.new 1604300000000
    {| LogRecord.o_msg := "hello";
       LogRecord.o_args := [VString "hello"];
       LogRecord.o_level := INFO;
       LogRecord.o_loggerName := "default";
       LogRecord.o_category := None |}.

Lemma unresolved_placeholder_kept_witness :
  @Logger.msgFormat Sample.env "{0} and {user}!" [VString "a"]
    = "a and {user}!" ∧
  @BaseHandler.formatCustom Sample.env (@BaseHandler.new Sample.env INFO no_options)
    "{levelName} {category} {msg}" sample_record
    = "INFO {category} hello".
Proof.
  assert (Hu : "user" ≠ "") by discriminate.
  assert (Hc : "category" ≠ "") by discriminate.
  destruct (@unresolved_placeholder_kept Sample.env
              (@BaseHandler.new Sample.env INFO no_options) sample_record
              [VString "a"] "{0} and " "user" "!" eq_refl Hu)
    as [Hm _].
  destruct (@unresolved_placeholder_kept Sample.env
              (@BaseHandler.new Sample.env INFO no_options) sample_record
              [] "{levelName} " "category" " {msg}" eq_refl Hc)
    as [_ Hf].
  split.
  - etrans; [apply Hm; reflexivity|]. vm_compute. reflexivity.
  - etrans; [apply Hf; reflexivity|]. vm_compute. reflexivity.
Defined.

(** ** The split of a template (handlers.ts [splitFormatter]) *)

Module SplitFacts.
Import StrFacts.

Definition MSG : string := "{msg}".

Lemma split_line_None l :
  Regex.split_line l = None ↔ Str.occurs_in MSG l = false.
Proof.
  induction l as [|c l IH]; [done|].
  cbn [Regex.split_line Str.occurs_in].
  destruct (Regex.split_line l) as [[g1 g2]|].
  - split; [done|]. intros [_ Hl]%orb_false_elim.
    by apply IH in Hl.
  - fold MSG. destruct (String.prefix MSG (String c l)); [done|].
    simpl. split; [|done]. intros _. by apply IH.
Qed.

(** The split of a line is at its last [{msg}]. *)
Lemma split_line_Some l g1 g2 :
  Regex.split_line l = Some (g1, g2) →
  l = g1 +:+ g2 ∧ String.prefix MSG g2 = true ∧
  Str.occurs_in MSG (Str.tail g2) = false.
Proof.
  revert g1. induction l as [|c l IH]; intros g1 Hs; [done|].
  cbn [Regex.split_line] in Hs.
  destruct (Regex.split_line l) as [[a b]|] eqn:Hl.
  - inversion Hs; subst. destruct (IH a eq_refl) as (-> & Hp & Ho).
    by rewrite app_cons.
  - fold MSG in Hs. destruct (String.prefix MSG (String c l)) eqn:Hp; [|done].
    inversion Hs; subst. split; [done|]. split; [done|].
    simpl. by apply split_line_None.
Qed.

Lemma dot_star_spec s :
  ∃ rest, s = Regex.dot_star s +:+ rest ∧
    Str.single_line (Regex.dot_star s) = true ∧
    match rest with
    | EmptyString => True
    | String c _ => Str.is_line_terminator c = true
    end.
Proof.
  unfold Regex.dot_star.
  destruct (Str.span _ s) as [a b] eqn:Hs.
  apply span_spec in Hs as (-> & Ha & Hb).
  exists b. split; [done|]. split; [done|].
  destruct b as [|c b]; [done|]. by apply negb_false_iff in Hb.
Qed.

Lemma dot_star_cons c s :
  Str.is_line_terminator c = false →
  Regex.dot_star (String c s) = String c (Regex.dot_star s).
Proof.
  intros Hc. unfold Regex.dot_star. simpl. rewrite Hc. simpl.
  by destruct (Str.span _ s).
Qed.

(** A [{msg}] at the start of the text lies in its first line. *)
Lemma prefix_dot_star s :
  String.prefix MSG s = true → String.prefix MSG (Regex.dot_star s) = true.
Proof.
  intros [t ->]%prefix_inv. unfold MSG.
  rewrite !app_cons, app_nil_l.
  rewrite !dot_star_cons by done. apply (prefix_app MSG).
Qed.

Lemma occurs_in_prefix pat s :
  String.prefix pat s = true → Str.occurs_in pat s = true.
Proof. intros Hp. destruct s; cbn [Str.occurs_in]; by rewrite Hp. Qed.

Lemma prefix_app_l pat s t :
  String.prefix pat s = true → String.prefix pat (s +:+ t) = true.
Proof.
  intros [u ->]%prefix_inv. rewrite app_assoc. apply prefix_app.
Qed.

(** Where a text starts a line: at the start, or after a line
    terminator. *)
Definition ends_with_terminator (before : string) : Prop :=
  before = "" ∨
  ∃ b c, before = b +:+ String c "" ∧ Str.is_line_terminator c = true.

Definition starts_with_terminator (after : string) : Prop :=
  match after with
  | EmptyString => True
  | String c _ => Str.is_line_terminator c = true
  end.

Lemma exec_split_inv s g1 g2 :
  Regex.exec_split s = Some (g1, g2) →
  ∃ before after,
    s = before +:+ g1 +:+ g2 +:+ after ∧
    Str.single_line (g1 +:+ g2) = true ∧
    ends_with_terminator before ∧ starts_with_terminator after ∧
    Str.occurs_in MSG before = false ∧
    Regex.split_line (Regex.dot_star (g1 +:+ g2 +:+ after)) = Some (g1, g2).
Proof.
  induction s as [|c s IH]; intros He; [done|].
  cbn [Regex.exec_split] in He.
  destruct (Regex.split_line (Regex.dot_star (String c s)))
    as [[a b]|] eqn:Hl.
  - inversion He; subst.
    destruct (dot_star_spec (String c s)) as (rest & Hs & Hline & Hrest).
    pose proof (split_line_Some _ _ _ Hl) as (Hab & _ & _).
    exists "", rest. rewrite app_nil_l.
    assert (String c s = g1 +:+ g2 +:+ rest) as Heq.
    { rewrite <- app_assoc, <- Hab. done. }
    split; [done|]. split; [by rewrite <- Hab|].
    split; [by left|]. split; [done|]. split; [done|].
    by rewrite <- Heq.
  - destruct (IH He) as (before & after & Hs & Hline & Hb & Ha & Ho & Hsl).
    exists (String c before), after.
    split; [by rewrite app_cons, <- Hs|]. split; [done|].
    split; [|split; [done|split; [|done]]].
    + destruct Hb as [->|(b0 & t & -> & Ht)].
      * right. exists "", c. split; [done|].
        destruct (Str.is_line_terminator c) eqn:Hc; [done|].
        rewrite app_nil_l in Hs. subst s.
        rewrite dot_star_cons in Hl by done.
        cbn [Regex.split_line] in Hl. by rewrite Hsl in Hl.
      * right. exists (String c b0), t. by rewrite app_cons.
    + cbn [Str.occurs_in]. rewrite Ho, orb_false_r.
      destruct (String.prefix MSG (String c before)) eqn:Hp; [|done].
      apply split_line_None in Hl.
      assert (String.prefix MSG (String c s) = true) as Hp'.
      { rewrite Hs, <- app_cons. by apply prefix_app_l. }
      apply prefix_dot_star, occurs_in_prefix in Hp'. congruence.
Qed.

Lemma exec_split_complete s :
  Str.occurs_in MSG s = true → is_Some (Regex.exec_split s).
Proof.
  induction s as [|c s IH]; intros Ho; [done|].
  cbn [Regex.exec_split].
  destruct (Regex.split_line (Regex.dot_star (String c s)))
    as [[a b]|] eqn:Hl; [done|].
  apply split_line_None in Hl.
  cbn [Str.occurs_in] in Ho. apply orb_prop in Ho as [Hp|Ho]; [|by apply IH].
  apply prefix_dot_star, occurs_in_prefix in Hp. congruence.
Qed.

End SplitFacts.

Section SplitFormatter.
Import StrFacts SplitFacts.

(** C6, as the code has it.  For a template that contains [{msg}],
    [splitFormatter] works on the first line of the template that
    contains [{msg}] (a line ends at a line terminator, which the dot of
    the pattern does not match) and splits that line at its last
    [{msg}]: the prefix is the part of the line before that last
    [{msg}], the remainder starts at that last [{msg}] and ends with
    the line. *)
Theorem splitFormatter_first_line_last_msg (formatter : string) :
  Str.occurs_in "{msg}" formatter = true →
  ∃ before prefix msg after,
    formatter = before +:+ prefix +:+ msg +:+ after ∧
    BaseHandler.splitFormatter formatter
      = {| sf_prefix := Some prefix; sf_msg := Some msg |} ∧
    (* [prefix +:+ msg] is a line of the template *)
    Str.single_line (prefix +:+ msg) = true ∧
    ends_with_terminator before ∧ starts_with_terminator after ∧
    (* the first line that contains [{msg}] *)
    Str.occurs_in "{msg}" before = false ∧
    (* split at the last [{msg}] of the line *)
    String.prefix "{msg}" msg = true ∧
    Str.occurs_in "{msg}" (Str.tail msg) = false.
Proof.
  intros Ho. destruct (exec_split_complete _ Ho) as [[g1 g2] He].
  destruct (exec_split_inv _ _ _ He)
    as (before & after & Hs & Hline & Hb & Ha & Hob & Hsl).
  apply split_line_Some in Hsl as (_ & Hp & Hlast).
  exists before, g1, g2, after.
  unfold BaseHandler.splitFormatter. rewrite He. done.
Qed.

(** On a template of one line the prefix and the remainder make up the
    template. *)
Lemma splitFormatter_single_line (formatter : string) :
  Str.single_line formatter = true →
  Str.occurs_in "{msg}" formatter = true →
  ∃ prefix msg,
    formatter = prefix +:+ msg ∧
    BaseHandler.splitFormatter formatter
      = {| sf_prefix := Some prefix; sf_msg := Some msg |} ∧
    String.prefix "{msg}" msg = true ∧
    Str.occurs_in "{msg}" (Str.tail msg) = false.
Proof.
  intros Hline Ho.
  unfold BaseHandler.splitFormatter.
  assert (Regex.dot_star formatter = formatter) as Hd.
  { unfold Regex.dot_star. by rewrite (span_all _ _ Hline). }
  destruct formatter as [|c s]; [done|].
  cbn [Regex.exec_split]. rewrite Hd.
  destruct (Regex.split_line (String c s)) as [[g1 g2]|] eqn:Hl.
  - apply split_line_Some in Hl as (Hs & Hp & Hlast). by exists g1, g2.
  - apply split_line_None in Hl. unfold MSG in Hl. congruence.
Qed.

Lemma count_occ_0 pat s :
  Str.count_occ pat s = 0 → Str.occurs_in pat s = false.
Proof.
  induction s as [|c s IH]; cbn [Str.count_occ Str.occurs_in]; intros Hc.
  - destruct (String.prefix pat ""); [simpl in Hc; lia|done].
  - destruct (String.prefix pat (String c s)); [simpl in Hc; lia|].
    simpl in Hc. by rewrite IH.
Qed.

Lemma occurs_in_false_count pat s :
  Str.occurs_in pat s = false → Str.count_occ pat s = 0.
Proof.
  induction s as [|c s IH]; cbn [Str.count_occ Str.occurs_in];
    intros [-> Ho]%orb_false_elim; [done|].
  by rewrite IH.
Qed.

Lemma split_line_single_occurrence l :
  Str.count_occ MSG l = 1 →
  Regex.split_line l = Str.cut_at_first MSG l.
Proof.
  induction l as [|c l IH]; [done|].
  cbn [Str.count_occ Regex.split_line Str.cut_at_first]. fold MSG.
  destruct (String.prefix MSG (String c l)) eqn:Hp; intros Hc.
  - assert (Str.count_occ MSG l = 0) as H0 by (simpl in Hc; lia).
    apply count_occ_0, split_line_None in H0. by rewrite H0.
  - simpl in Hc. by rewrite (IH Hc).
Qed.

(** With a single [{msg}] on a single line, the code and the wording of
    the specification agree: the split is at the first [{msg}]. *)
Lemma splitFormatter_single_occurrence (formatter : string) :
  Str.single_line formatter = true →
  Str.count_occ "{msg}" formatter = 1 →
  BaseHandler.splitFormatter formatter = spec_splitFormatter formatter.
Proof.
  intros Hline Hc.
  unfold BaseHandler.splitFormatter, spec_splitFormatter.
  assert (Regex.dot_star formatter = formatter) as Hd.
  { unfold Regex.dot_star. by rewrite (span_all _ _ Hline). }
  pose proof (split_line_single_occurrence _ Hc) as Heq. fold MSG.
  destruct formatter as [|c s]; [done|].
  cbn [Regex.exec_split]. rewrite Hd, <- Heq.
  destruct (Regex.split_line (String c s)) as [[a b]|] eqn:Hl; [done|].
  apply split_line_None, occurs_in_false_count in Hl.
  fold MSG in Hc. lia.
Qed.

End SplitFormatter.

Lemma splitFormatter_first_line_last_msg_witness :
  ∃ before prefix msg after,
    DEFAULT_FORMATTER = before +:+ prefix +:+ msg +:+ after ∧
    BaseHandler.splitFormatter DEFAULT_FORMATTER
      = {| sf_prefix := Some prefix; sf_msg := Some msg |} ∧
    Str.single_line (prefix +:+ msg) = true ∧
    SplitFacts.ends_with_terminator before ∧
    SplitFacts.starts_with_terminator after ∧
    Str.occurs_in "{msg}" before = false ∧
    String.prefix "{msg}" msg = true ∧
    Str.occurs_in "{msg}" (Str.tail msg) = false.
Proof.
  apply (splitFormatter_first_line_last_msg DEFAULT_FORMATTER).
  reflexivity.
Defined.

(** C6, as the claim words it, fails on a template with two [{msg}]: the
    prefix is not what precedes the first [{msg}] (nothing), it is what
    precedes the last one. *)
Lemma splitFormatter_not_at_first_msg :
  BaseHandler.splitFormatter "{msg} again {msg}!"
    = {| sf_prefix := Some "{msg} again "; sf_msg := Some "{msg}!" |} ∧
  spec_splitFormatter "{msg} again {msg}!"
    = {| sf_prefix := Some ""; sf_msg := Some "{msg} again {msg}!" |} ∧
  BaseHandler.splitFormatter "{msg} again {msg}!"
    ≠ spec_splitFormatter "{msg} again {msg}!".
Proof. split; [reflexivity|]. split; [reflexivity|]. discriminate. Qed.

(** ** The level gate (logger.ts [_log], handlers.ts [handle]) *)

Section Gate.
Context `{Env}.

(** With the levels in the order of the specification, the test
    [threshold > level] of the code fails exactly when the level of the
    record is at least the threshold. *)
Lemma gate_passes (T R : LogLevels) :
  levels_ordered →
  (levelNum T >? levelNum R)%Z = false ↔ level_rank T ≤ level_rank R.
Proof.
  unfold levels_ordered. intros (H1 & H2 & H3 & H4 & H5).
  rewrite Z.gtb_ltb, Z.ltb_ge.
  destruct T, R; simpl; split; intros; lia.
Qed.


(** The record that a log call of a logger builds. *)
Definition record_of {T : Type} (lg : Logger.t T) (now : Z)
    (level : LogLevels) (args : list value) : LogRecord.t :=
  LogRecord.new now
    {| LogRecord.o_msg := helpers.argsToString args;
       LogRecord.o_args := args;
       LogRecord.o_level := level;
       LogRecord.o_loggerName := Logger.loggerName lg;
       LogRecord.o_category := None |}.

(** What [_log] does once the gate is passed. *)
Lemma _log_dispatch {T : Type} `{Handler T} (lg : Logger.t T) now R args :
  (levelNum (Logger.level lg) >? levelNum R)%Z = false →
  Logger._log lg now R args =
  match forEach (λ handler, handle handler (record_of lg now R args))
          (Logger.handlers lg) with
  | (hs, Throw e) => (Logger.set_handlers lg hs, Throw e)
  | (hs, Normal _) =>
      (Logger.set_handlers lg hs,
       Normal (if Logger.returnResult lg
               then Some (LogRecord.clearMsg (record_of lg now R args))
               else None))
  end.
Proof. intros Hg. unfold Logger._log. by rewrite Hg. Qed.

Lemma _log_rejected {T : Type} `{Handler T} (lg : Logger.t T) now R args :
  (levelNum (Logger.level lg) >? levelNum R)%Z = true →
  Logger._log lg now R args =
  (lg, Normal (if Logger.returnResult lg
               then Some (stripColor (helpers.argsToString args))
               else None)).
Proof. intros Hg. unfold Logger._log. by rewrite Hg. Qed.


End Gate.

Section GateSamples.
Existing Instance Sample.env.

Definition sample_logger (level : LogLevels) : Logger.t TestHandler.t :=
  Logger.new "default" level
    {| Logger.o_handlers := Some [TestHandler.new level no_options];
       Logger.o_returnResult := None |}.

Lemma sample_levels_ordered : levels_ordered.
Proof. repeat split. Qed.


(** The end-to-end property of the specification: a logger at WARNING,
a call at INFO then a call at ERROR; the handler is handed one record,
that of the call at ERROR. *)
Example warning_logger_end_to_end :
  let lg1 := fst (Logger.info (sample_logger WARNING) 0 [VString "bar"]) in
  let lg2 := fst (Logger.error lg1 1 [VString "boo"]) in
  map TestHandler.messages (Logger.handlers lg2) = [["ERROR boo"]] ∧
  map (λ h, map LogRecord.levelName (TestHandler.records h))
    (Logger.handlers lg2) = [["ERROR"]].
Proof. vm_compute. done. Qed.

(** The test "logFunctions" of logger_test.ts, at level INFO. *)
Example logFunctions_INFO :
  let lg := Logger.set_handlers
              (Logger.mk INFO [] true "default")
              [TestHandler.new INFO no_options] in
  let '(lg, debugData) := Logger.debug lg 0 [VString "foo"] in
  let '(lg, infoData) := Logger.info lg 1 [VString "bar"] in
  let '(lg, warningData) := Logger.warning lg 2 [VString "baz"] in
  let '(lg, errorData) := Logger.error lg 3 [VString "boo"] in
  let '(lg, criticalData) := Logger.critical lg 4 [VString "doo"] in
  [debugData; infoData; warningData; errorData; criticalData]
    = map (λ m, Normal (Some m)) ["foo"; "bar"; "baz"; "boo"; "doo"] ∧
  map TestHandler.messages (Logger.handlers lg)
    = [["INFO bar"; "WARNING baz"; "ERROR boo"; "CRITICAL doo"]].
Proof. vm_compute. done. Qed.

End GateSamples.

(** ** Dispatch to the handlers (logger.ts [_log]) *)

Definition is_normal {A : Type} (c : Completion A) : Prop :=
  match c with
  | Normal _ => True
  | Throw _ => False
  end.

Section ForEach.
Context {T : Type} (f : T → T * Completion unit).

Lemma forEach_all_normal (l : list T) :
  (∀ x, x ∈ l → is_normal (snd (f x))) →
  forEach f l = (map (λ x, fst (f x)) l, Normal tt).
Proof.
  induction l as [|h l IH]; intros Hall; [done|].
  cbn [forEach map].
  pose proof (Hall h ltac:(left)) as Hh.
  destruct (f h) as [h' [[]|e]]; [|done].
  rewrite IH; [done|]. intros x Hx. apply Hall. by right.
Qed.

Lemma forEach_first_throw (before : list T) (h : T) (after : list T) h' e :
  (∀ x, x ∈ before → is_normal (snd (f x))) →
  f h = (h', Throw e) →
  forEach f (before ++ h :: after) =
  (map (λ x, fst (f x)) before ++ h' :: after, Throw e).
Proof.
  intros Hall Hh. induction before as [|b before IH].
  - simpl. by rewrite Hh.
  - cbn [forEach map app].
    pose proof (Hall b ltac:(left)) as Hb.
    destruct (f b) as [b' [[]|eb]]; [|done].
    rewrite IH; [done|]. intros x Hx. apply Hall. by right.
Qed.

End ForEach.

Section Dispatch.
Context `{Env} {T : Type} `{Handler T}.

(** The record that a log call of a category logger builds. *)
Definition category_record_of (this : LoggerCategory.t T) (now : Z)
    (level : LogLevels) (args : list value) : LogRecord.t :=
  LogRecord.new now
    {| LogRecord.o_msg := helpers.argsToString args;
       LogRecord.o_args := args;
       LogRecord.o_level := level;
       LogRecord.o_loggerName := Logger.loggerName (LoggerCategory.logger this);
       LogRecord.o_category := Some (LoggerCategory.category this) |}.

Lemma category_log_dispatch (this : LoggerCategory.t T) now R args :
  (levelNum (Logger.level (LoggerCategory.logger this)) >? levelNum R)%Z
    = false →
  LoggerCategory._log this now R args =
  let lg := LoggerCategory.logger this in
  match forEach (λ handler, handle handler (category_record_of this now R args))
          (Logger.handlers lg) with
  | (hs, Throw e) => (Logger.set_handlers lg hs, Throw e)
  | (hs, Normal _) =>
      (Logger.set_handlers lg hs,
       Normal (if Logger.returnResult lg
               then Some (LogRecord.clearMsg
                            (category_record_of this now R args))
               else None))
  end.
Proof. intros Hg. unfold LoggerCategory._log. by rewrite Hg. Qed.

(** C5, as the code has it.  Once the gate is passed, the handlers are
    handed the record one after the other, in the order of their
    registration.  When the [handle] of one of them throws, the handlers
    before it have been handed the record, the handlers after it are
    left as they were, and the exception is thrown by the log call; this
    holds for [Logger._log] and for [LoggerCategory._log]. *)
Theorem dispatch_stops_at_first_error
    (lg : Logger.t T) (category : string) (now : Z) (R : LogLevels)
    (args : list value) (before : list T) (h : T) (after : list T)
    (e : string) :
  let cat := LoggerCategory.mk category lg in
  let built :=
    [record_of lg now R args; category_record_of cat now R args] in
  (levelNum (Logger.level lg) >? levelNum R)%Z = false →
  Logger.handlers lg = before ++ h :: after →
  (∀ x record, x ∈ before → record ∈ built →
     is_normal (snd (handle x record))) →
  (∀ record, record ∈ built → snd (handle h record) = Throw e) →
  Logger._log lg now R args =
    (Logger.set_handlers lg
       (map (λ x, fst (handle x (record_of lg now R args))) before
        ++ fst (handle h (record_of lg now R args)) :: after),
     Throw e) ∧
  LoggerCategory._log cat now R args =
    (Logger.set_handlers lg
       (map (λ x, fst (handle x (category_record_of cat now R args))) before
        ++ fst (handle h (category_record_of cat now R args)) :: after),
     Throw e).
Proof.
  intros cat built Hg Hhs Hbefore Hh. split.
  - rewrite (_log_dispatch _ _ _ _ Hg), Hhs.
    rewrite (forEach_first_throw _ before h after
               (fst (handle h (record_of lg now R args))) e); [done| |].
    + intros x Hx. apply Hbefore; [done|by left].
    + specialize (Hh (record_of lg now R args) ltac:(left)).
      destruct (handle h _) as [h' c]. simpl in *. by subst.
  - rewrite (category_log_dispatch cat _ _ _ Hg). cbn zeta.
    cbn [LoggerCategory.logger cat]. rewrite Hhs.
    rewrite (forEach_first_throw _ before h after
               (fst (handle h (category_record_of cat now R args))) e);
      [done| |].
    + intros x Hx. apply Hbefore; [done|right; left].
    + specialize (Hh (category_record_of cat now R args)
                    ltac:(right; left)).
      destruct (handle h _) as [h' c]. simpl in *. by subst.
Qed.

(** When no handler throws, every handler is handed the record. *)
Lemma dispatch_all (lg : Logger.t T) (now : Z) (R : LogLevels)
    (args : list value) :
  (levelNum (Logger.level lg) >? levelNum R)%Z = false →
  (∀ x record, x ∈ Logger.handlers lg → is_normal (snd (handle x record))) →
  Logger._log lg now R args =
    (Logger.set_handlers lg
       (map (λ x, fst (handle x (record_of lg now R args)))
          (Logger.handlers lg)),
     Normal (if Logger.returnResult lg
             then Some (LogRecord.clearMsg (record_of lg now R args))
             else None)).
Proof.
  intros Hg Hall. rewrite (_log_dispatch _ _ _ _ Hg).
  rewrite forEach_all_normal; [done|]. intros x Hx. by apply Hall.
Qed.

End Dispatch.

Section DispatchSamples.
Existing Instance Sample.env.

(** A handler whose formatter throws, and a logger with that handler
    registered before a second one. *)
Definition failing_handler : TestHandler.t :=
  TestHandler.new DEBUG
    {| o_formatter := Some (Callback (λ _, Throw "formatter failed"));
       o_datetimeFormat := None;
       o_noColor := None |}.

Definition second_handler : TestHandler.t :=
  TestHandler.new DEBUG no_options.

Definition logger_with_failing_handler : Logger.t TestHandler.t :=
  Logger.new "default" DEBUG
    {| Logger.o_handlers := Some [failing_handler; second_handler];
       Logger.o_returnResult := None |}.

(** C5, as the claim words it, fails: the handler registered after the
    one that throws is never handed the record ([records] stays empty),
    and the log call throws. *)
Lemma sibling_not_dispatched_after_error :
  let '(lg', c) :=
    Logger._log logger_with_failing_handler 0 ERROR [VString "boo"] in
  c = Throw "formatter failed" ∧
  map (λ h, length (TestHandler.records h)) (Logger.handlers lg') = [1; 0] ∧
  map TestHandler.messages (Logger.handlers lg') = [[]; []].
Proof. vm_compute. done. Qed.

Lemma dispatch_stops_at_first_error_witness :
  let record :=
    record_of logger_with_failing_handler 0 ERROR [VString "boo"] in
  Logger._log logger_with_failing_handler 0 ERROR [VString "boo"] =
  (Logger.set_handlers logger_with_failing_handler
     (map (λ x, fst (handle x record)) []
      ++ fst (handle failing_handler record) :: [second_handler]),
   Throw "formatter failed").
Proof.
  refine (proj1 (dispatch_stops_at_first_error
            logger_with_failing_handler "net" 0%Z ERROR [VString "boo"]
            [] failing_handler [second_handler] "formatter failed"
            eq_refl eq_refl _ _)).
  - intros x record Hx. by apply elem_of_nil in Hx.
  - intros record [->|[->|[]%elem_of_nil]%elem_of_cons]%elem_of_cons;
      reflexivity.
Defined.

End DispatchSamples.

(** ** Function values among the arguments (helpers.ts, logger.ts) *)

Section FunctionArguments.
Context `{Env} {T : Type} `{Handler T}.

(** [argsToString] sees its arguments through [asString] only. *)
Lemma argsToString_asString (args args' : list value) :
  map helpers.asString args = map helpers.asString args' →
  helpers.argsToString args = helpers.argsToString args'.
Proof.
  intros Hmap. unfold helpers.argsToString. f_equal.
  assert (∀ (l l' : list value) acc,
            map helpers.asString l = map helpers.asString l' →
            foldl (λ result ars, result +:+ helpers.asString ars +:+ " ")
              acc l =
            foldl (λ result ars, result +:+ helpers.asString ars +:+ " ")
              acc l') as Hfold.
  { induction l as [|a l IH]; intros [|a' l'] acc Hl; try done.
    simpl in Hl. inversion Hl as [[Ha Hl']].
    cbn [foldl]. rewrite Ha. by apply IH. }
  destruct args as [|a [|b args]], args' as [|a' [|b' args']]; try done.
  - by inversion Hmap.
  - by apply Hfold.
Qed.

(** C10.  In a log call of [Logger] or [LoggerCategory] an argument that
    is a function is data: it is rendered by [asString], that is by
    [Deno.inspect] of the function value, and its body is not run.  When
    the gate rejects the call, the handlers are untouched and the result
    is built from [argsToString(args)]; when the gate accepts it, the
    message of the record handed to the handlers is
    [argsToString(args)], and so is the result, with the colours
    removed.  [argsToString] depends on each argument through [asString]
    only. *)
Theorem function_argument_not_invoked
    (lg : Logger.t T) (category : string) (now : Z) (R : LogLevels)
    (args : list value) :
  let cat := LoggerCategory.mk category lg in
  let rendered := helpers.argsToString args in
  let result :=
    if Logger.returnResult lg then Some (stripColor rendered) else None in
  (* a function is rendered by inspection of the value *)
  (∀ name body,
     helpers.asString (VFunction name body) = inspect (VFunction name body)) ∧
  (∀ name body,
     helpers.argsToString [VFunction name body]
     = Str.trim (inspect (VFunction name body))) ∧
  (∀ args', map helpers.asString args = map helpers.asString args' →
            helpers.argsToString args' = rendered) ∧
  (* rejected by the gate *)
  ((levelNum (Logger.level lg) >? levelNum R)%Z = true →
   Logger._log lg now R args = (lg, Normal result) ∧
   LoggerCategory._log cat now R args = (lg, Normal result)) ∧
  (* accepted by the gate *)
  ((levelNum (Logger.level lg) >? levelNum R)%Z = false →
   ∃ record crecord,
     LogRecord.msg record = rendered ∧ LogRecord.args record = args ∧
     LogRecord.msg crecord = rendered ∧ LogRecord.args crecord = args ∧
     Logger._log lg now R args =
       match forEach (λ handler, handle handler record)
               (Logger.handlers lg) with
       | (hs, Throw e) => (Logger.set_handlers lg hs, Throw e)
       | (hs, Normal _) => (Logger.set_handlers lg hs, Normal result)
       end ∧
     LoggerCategory._log cat now R args =
       match forEach (λ handler, handle handler crecord)
               (Logger.handlers lg) with
       | (hs, Throw e) => (Logger.set_handlers lg hs, Throw e)
       | (hs, Normal _) => (Logger.set_handlers lg hs, Normal result)
       end).
Proof.
  intros cat rendered result.
  split; [done|]. split; [done|].
  split; [intros args' Hmap; symmetry; by apply argsToString_asString|].
  split; intros Hg.
  - split; [by apply _log_rejected|].
    unfold LoggerCategory._log. cbn [LoggerCategory.logger cat].
    by rewrite Hg.
  - exists (record_of lg now R args), (category_record_of cat now R args).
    split; [done|]. split; [done|]. split; [done|]. split; [done|].
    split; [by apply _log_dispatch|].
    by rewrite (category_log_dispatch cat _ _ _ Hg).
Qed.

End FunctionArguments.

Section FunctionSamples.
Existing Instance Sample.env.

(** The function of the test "String resolver fn will not execute if
    msg will not be logged". *)
Definition expensiveFunction : value :=
  VFunction "expensiveFunction" (λ _, VString "expensive function result").

(** The test: a logger at ERROR, a call at DEBUG; nothing is returned
    and the handler has seen nothing. *)
Example resolver_not_executed_when_rejected :
  Logger.debug (sample_logger ERROR) 0
    [expensiveFunction; VNumber 1; VNumber 2]
  = (sample_logger ERROR, Normal None).
Proof. reflexivity. Qed.

(** The same call on a logger at DEBUG: the handler is handed the
    rendering of the function value, not what the function returns. *)
Example resolver_not_executed_when_accepted :
  map TestHandler.messages
    (Logger.handlers
       (fst (Logger.debug (sample_logger DEBUG) 0
               [expensiveFunction; VNumber 1; VNumber 2])))
  = [["DEBUG [Function: expensiveFunction] 1 2"]].
Proof. vm_compute. reflexivity. Qed.

End FunctionSamples.

(** ** The delivery queue (handlers/telegram.handler.ts) *)

Module TelegramFacts.
Import TelegramHandler.

(** The requests in flight are counted by the flag. *)
Definition one_in_flight (s : Sys) : Prop :=
  length (inflight (loop s)) = if isRunQueue (handler s) then 1 else 0.

(** The requests made, followed by the messages still queued, are the
    messages logged (an empty message is taken from the queue without a
    request). *)
Definition fifo (history : list string) (s : Sys) : Prop :=
  sent (loop s) ++ List.filter nonempty (queue (handler s))
  = List.filter nonempty history.

Lemma tapQueue_cases (s : Sys) :
  tapQueue s = s ∨
  (∃ m rest,
     isRunQueue (handler s) = false ∧ hasConnectToTg (handler s) = true ∧
     queue (handler s) = m :: rest ∧
     ((m = "" ∧
       tapQueue s = mkSys (set_queue rest (handler s)) (setTimeout (loop s)))
      ∨
      (nonempty m = true ∧
       tapQueue s =
         mkSys (set_isRunQueue true (set_queue rest (handler s)))
               (fetch_sendMessage m (loop s))))).
Proof.
  destruct s as [h l]. unfold tapQueue. cbn [handler loop].
  destruct (isRunQueue h) eqn:Hr; [by left|].
  destruct (queue h) as [|m rest] eqn:Hq; [by left|].
  destruct (hasConnectToTg h) eqn:Hc; [|by left].
  right. exists m, rest. cbn [orb negb bool_decide].
  rewrite bool_decide_eq_false_2 by done. cbn [orb].
  split; [done|]. split; [done|]. split; [done|].
  unfold nonempty. destruct (String.eqb_spec m ""); [left|right]; done.
Qed.

Lemma tapQueue_one_in_flight s : one_in_flight s → one_in_flight (tapQueue s).
Proof.
  intros Hinv.
  destruct (tapQueue_cases s)
    as [->|(m & rest & Hr & Hc & Hq & [[-> ->]|[Hm ->]])]; [done| |].
  - unfold one_in_flight in *. cbn. by rewrite Hr in Hinv |- *.
  - unfold one_in_flight in *. rewrite Hr in Hinv.
    cbn. rewrite length_app, Hinv. done.
Qed.

Lemma tapQueue_fifo history s : fifo history s → fifo history (tapQueue s).
Proof.
  intros Hf.
  destruct (tapQueue_cases s)
    as [->|(m & rest & Hr & Hc & Hq & [[-> ->]|[Hm ->]])]; [done| |].
  - unfold fifo in *. rewrite Hq in Hf. by cbn in *.
  - unfold fifo in *. rewrite Hq in Hf. cbn in *. rewrite Hm in Hf.
    by rewrite <- app_assoc.
Qed.

Lemma step_one_in_flight s e s' :
  one_in_flight s → step s e = Some s' → one_in_flight s'.
Proof.
  intros Hinv Hstep. destruct e as [|msg| | |err|k err]; simpl in Hstep.
  - inversion Hstep; subst. unfold setup.
    destruct (botToken _); [done|]. by destruct (chatID _).
  - inversion Hstep; subst. unfold log, one_in_flight in *. cbn.
    by destruct (hasConnectToTg _).
  - inversion Hstep; subst. by apply tapQueue_one_in_flight.
  - destruct (timers (loop s)); [done|]. inversion Hstep; subst.
    by apply tapQueue_one_in_flight.
  - destruct (probing (loop s)); [|done]. inversion Hstep; subst.
    unfold probe_settled. by destruct err.
  - destruct (inflight (loop s) !! k) as [m|] eqn:Hk; [|done].
    inversion Hstep; subst. unfold one_in_flight in *. cbn.
    assert (length (delete k (inflight (loop s))) = 0) as Hlen.
    { rewrite length_delete by eauto.
      apply lookup_lt_Some in Hk.
      destruct (isRunQueue (handler s)); lia. }
    by destruct err.
Qed.

Lemma step_fifo history s e s' :
  fifo history s → step s e = Some s' → fifo (history ++ logged [e]) s'.
Proof.
  intros Hf Hstep. destruct e as [|msg| | |err|k err]; simpl in Hstep;
    cbn [logged omap]; rewrite ?app_nil_r.
  - inversion Hstep; subst. unfold setup.
    destruct (botToken _); [done|]. by destruct (chatID _).
  - inversion Hstep; subst. unfold log, fifo in *.
    change (mbind _ _) with (@nil string).
    assert (sent (loop s)
              ++ List.filter nonempty (queue (handler s) ++ [msg])
            = List.filter nonempty (history ++ [msg])) as Heq.
    { rewrite !List.filter_app, <- Hf. by rewrite <- app_assoc. }
    cbn. by destruct (hasConnectToTg _).
  - inversion Hstep; subst. by apply tapQueue_fifo.
  - destruct (timers (loop s)); [done|]. inversion Hstep; subst.
    by apply tapQueue_fifo.
  - destruct (probing (loop s)); [|done]. inversion Hstep; subst.
    unfold probe_settled. by destruct err.
  - destruct (inflight (loop s) !! k) as [m|] eqn:Hk; [|done].
    inversion Hstep; subst. unfold fifo in *. cbn. by destruct err.
Qed.

Lemma logged_app es es' : logged (es ++ es') = logged es ++ logged es'.
Proof. unfold logged. apply omap_app. Qed.

Lemma run_invariants history s es s' :
  one_in_flight s → fifo history s → run s es = Some s' →
  one_in_flight s' ∧ fifo (history ++ logged es) s'.
Proof.
  revert history s. induction es as [|e es IH]; intros history s Hinv Hf Hrun.
  - inversion Hrun; subst. by rewrite app_nil_r.
  - simpl in Hrun. destruct (step s e) as [s1|] eqn:Hstep; [|done].
    destruct (IH (history ++ logged [e]) s1) as [Hinv' Hf'];
      [by eapply step_one_in_flight|by eapply step_fifo|done|].
    split; [done|].
    change (e :: es) with ([e] ++ es). by rewrite logged_app, app_assoc.
Qed.

(** What a call of [tapQueue] changes: nothing, or it takes the head
    of the queue and, unless that message is empty, starts a request
    for it with the flag set. *)
Definition drained (s s' : Sys) : Prop :=
  (queue (handler s') = queue (handler s) ∧
   sent (loop s') = sent (loop s) ∧
   isRunQueue (handler s') = isRunQueue (handler s)) ∨
  (∃ m, queue (handler s) = m :: queue (handler s') ∧
        isRunQueue (handler s) = false ∧
        ((m = "" ∧ sent (loop s') = sent (loop s) ∧
          isRunQueue (handler s') = false) ∨
         (sent (loop s') = sent (loop s) ++ [m] ∧
          inflight (loop s') = inflight (loop s) ++ [m] ∧
          isRunQueue (handler s') = true))).

Lemma tapQueue_drained s : drained s (tapQueue s).
Proof.
  destruct (tapQueue_cases s)
    as [->|(m & rest & Hr & Hc & Hq & [[-> ->]|[Hm ->]])].
  - by left.
  - right. exists "". cbn. split; [done|]. split; [done|]. by left.
  - right. exists m. cbn. split; [done|]. split; [done|]. by right.
Qed.

(** What each step changes of the queue, the requests and the flag. *)
Lemma step_effect s e s' :
  step s e = Some s' →
  match e with
  | CallsTapQueue | TimerFires => drained s s'
  | CallsLog msg =>
      queue (handler s') = queue (handler s) ++ [msg] ∧
      sent (loop s') = sent (loop s) ∧
      isRunQueue (handler s') = isRunQueue (handler s)
  | SendSettles _ _ =>
      queue (handler s') = queue (handler s) ∧
      sent (loop s') = sent (loop s) ∧ isRunQueue (handler s') = false
  | _ =>
      queue (handler s') = queue (handler s) ∧
      sent (loop s') = sent (loop s) ∧
      isRunQueue (handler s') = isRunQueue (handler s)
  end.
Proof.
  intros Hstep. destruct e as [|msg| | |err|k err]; simpl in Hstep.
  - inversion Hstep; subst. unfold setup.
    destruct (botToken _); [done|]. by destruct (chatID _).
  - inversion Hstep; subst. unfold log. cbn.
    by destruct (hasConnectToTg _).
  - inversion Hstep; subst. apply tapQueue_drained.
  - destruct (timers (loop s)); [done|]. inversion Hstep; subst.
    apply (tapQueue_drained (mkSys (handler s) (take_timer (loop s)))).
  - destruct (probing (loop s)); [|done]. inversion Hstep; subst.
    unfold probe_settled. by destruct err.
  - destruct (inflight (loop s) !! k) as [m|] eqn:Hk; [|done].
    inversion Hstep; subst. by destruct err.
Qed.

(** [log] puts its message at the tail and starts no request. *)
Lemma step_log s msg s' :
  step s (CallsLog msg) = Some s' →
  queue (handler s') = queue (handler s) ++ [msg] ∧
  sent (loop s') = sent (loop s).
Proof. intros Hstep%step_effect. naive_solver. Qed.

(** A tick takes at most one message, from the head. *)
Lemma step_tick s e s' :
  e = TimerFires ∨ e = CallsTapQueue → step s e = Some s' →
  (queue (handler s') = queue (handler s) ∧
   sent (loop s') = sent (loop s)) ∨
  (∃ m, queue (handler s) = m :: queue (handler s') ∧
        (sent (loop s') = sent (loop s) ++ [m] ∨
         m = "" ∧ sent (loop s') = sent (loop s))).
Proof.
  intros He Hstep%step_effect.
  assert (drained s s') as [Hsame|(m & Hm & _ & Hcase)]
    by (by destruct He as [-> | ->]).
  - left. naive_solver.
  - right. exists m. naive_solver.
Qed.

(** A request is started with the flag clear, and leaves it set. *)
Lemma step_starts_request s e s' :
  one_in_flight s → step s e = Some s' →
  sent (loop s') ≠ sent (loop s) →
  isRunQueue (handler s) = false ∧ isRunQueue (handler s') = true ∧
  ∃ m, inflight (loop s') = [m] ∧ sent (loop s') = sent (loop s) ++ [m].
Proof.
  intros Hinv Hstep%step_effect Hne.
  assert (drained s s') as [Hsame|(m & Hm & Hr & Hcase)].
  { destruct e; try done; naive_solver. }
  - naive_solver.
  - destruct Hcase as [(_ & ? & _)|(Hs & Hin & Hr')]; [done|].
    split; [done|]. split; [done|]. exists m. split; [|done].
    unfold one_in_flight in Hinv. rewrite Hr in Hinv.
    rewrite Hin. by destruct (inflight (loop s)).
Qed.

(** Only the settling of a request clears the flag. *)
Lemma step_clears_flag s e s' :
  step s e = Some s' →
  isRunQueue (handler s) = true → isRunQueue (handler s') = false →
  ∃ k err, e = SendSettles k err.
Proof.
  intros Hstep%step_effect Hr Hr'.
  destruct e as [|msg| | |err|k err]; [| | | | |by exists k, err];
    exfalso.
  - naive_solver congruence.
  - naive_solver congruence.
  - destruct Hstep as [?|(m & _ & ? & _)]; naive_solver congruence.
  - destruct Hstep as [?|(m & _ & ? & _)]; naive_solver congruence.
  - naive_solver congruence.
Qed.

End TelegramFacts.

Section Telegram.
Import TelegramHandler TelegramFacts.

(** C4.  From a new handler, after any sequence of calls of [setup],
    [log] and [tapQueue] and of callbacks of the loop (timers, the
    probe and the requests settling, in any order): at most one request
    is in flight, and there is one exactly when the flag is set; the
    requests made so far followed by the messages still queued are the
    messages logged, in the order of the calls of [log].  In every
    further step: [log] adds its message at the tail of the queue and
    starts no request; a tick takes at most one message, from the head
    of the queue, and the request it starts is for that message; a
    request is started only with the flag clear and leaves it set; the
    flag is cleared only by the settling of a request. *)
Theorem one_in_flight_and_fifo (h : TelegramHandler.t) (es : list event)
    (s : Sys) :
  queue h = [] → isRunQueue h = false →
  run (mkSys h idle) es = Some s →
  length (inflight (loop s)) ≤ 1 ∧
  (isRunQueue (handler s) = true ↔ inflight (loop s) ≠ []) ∧
  sent (loop s) ++ List.filter nonempty (queue (handler s))
    = List.filter nonempty (logged es) ∧
  (∀ e s', step s e = Some s' →
     (∀ msg, e = CallsLog msg →
        queue (handler s') = queue (handler s) ++ [msg] ∧
        sent (loop s') = sent (loop s)) ∧
     (e = TimerFires ∨ e = CallsTapQueue →
        (queue (handler s') = queue (handler s) ∧
         sent (loop s') = sent (loop s)) ∨
        (∃ m, queue (handler s) = m :: queue (handler s') ∧
              (sent (loop s') = sent (loop s) ++ [m] ∨
               m = "" ∧ sent (loop s') = sent (loop s)))) ∧
     (sent (loop s') ≠ sent (loop s) →
        isRunQueue (handler s) = false ∧ isRunQueue (handler s') = true ∧
        ∃ m, inflight (loop s') = [m] ∧
             sent (loop s') = sent (loop s) ++ [m]) ∧
     (isRunQueue (handler s) = true → isRunQueue (handler s') = false →
        ∃ k err, e = SendSettles k err)).
Proof.
  intros Hq Hr Hrun.
  destruct (run_invariants [] (mkSys h idle) es s) as [Hinv Hf]; [| |done|].
  { unfold one_in_flight. cbn. by rewrite Hr. }
  { unfold fifo. cbn. by rewrite Hq. }
  rewrite app_nil_l in Hf.
  split; [unfold one_in_flight in Hinv;
          destruct (isRunQueue (handler s)); lia|].
  split.
  { unfold one_in_flight in Hinv.
    destruct (isRunQueue (handler s)), (inflight (loop s)); done. }
  split; [done|].
  intros e s' Hstep. split; [|split; [|split]].
  - intros msg ->. by apply step_log.
  - intros He. by apply (step_tick s e).
  - by apply (step_starts_request s e).
  - by apply (step_clears_flag s e).
Qed.

End Telegram.

Section DrainLoop.
Import TelegramHandler TelegramFacts.

(** C7.  With the connection up, nothing in flight and the messages
    [m1], [m2] at the head of the queue: a tick takes [m1] and starts
    its request; when that request fails, the error is logged, [m1] is
    not put back, the flag is cleared and a new tick is scheduled, the
    same as when the request succeeds (then nothing is logged); the next
    tick takes [m2] and starts its request. *)
Theorem delivery_error_does_not_block
    (s : Sys) (m1 m2 : string) (q : list string) (err : string) :
  hasConnectToTg (handler s) = true →
  isRunQueue (handler s) = false →
  inflight (loop s) = [] →
  queue (handler s) = m1 :: m2 :: q →
  nonempty m1 = true → nonempty m2 = true →
  ∃ s1 s2 s2' s3,
    (* the tick for [m1] *)
    tapQueue s = s1 ∧
    sent (loop s1) = sent (loop s) ++ [m1] ∧
    inflight (loop s1) = [m1] ∧ isRunQueue (handler s1) = true ∧
    (* its request fails *)
    step s1 (SendSettles 0 (Some err)) = Some s2 ∧
    queue (handler s2) = m2 :: q ∧
    isRunQueue (handler s2) = false ∧ inflight (loop s2) = [] ∧
    timers (loop s2) = S (timers (loop s)) ∧
    errors (loop s2) = errors (loop s) ++ [err] ∧
    (* or succeeds *)
    step s1 (SendSettles 0 None) = Some s2' ∧
    handler s2' = handler s2 ∧ timers (loop s2') = timers (loop s2) ∧
    inflight (loop s2') = [] ∧ sent (loop s2') = sent (loop s2) ∧
    errors (loop s2') = errors (loop s) ∧
    (* the next tick is for [m2] *)
    step s2 TimerFires = Some s3 ∧
    sent (loop s3) = sent (loop s) ++ [m1; m2] ∧
    inflight (loop s3) = [m2] ∧ queue (handler s3) = q ∧
    isRunQueue (handler s3) = true.
Proof.
  intros Hc Hr Hin Hq Hm1 Hm2.
  destruct s as [h l].
  destruct h as [b tok chat proj conn qu run0].
  destruct l as [ti pr infl se er].
  cbn in Hc, Hr, Hin, Hq. subst.
  unfold nonempty in Hm1, Hm2.
  apply negb_true_iff in Hm1, Hm2.
  eexists _, _, _, _.
  split; [unfold tapQueue; cbn; rewrite Hm1; reflexivity|].
  do 3 (split; [reflexivity|]).
  split; [reflexivity|]. do 5 (split; [reflexivity|]).
  split; [reflexivity|]. do 5 (split; [reflexivity|]).
  split; [unfold step, tapQueue; cbn; rewrite Hm2; reflexivity|].
  cbn. rewrite <- !app_assoc. done.
Qed.

End DrainLoop.

Section TelegramSamples.
Import TelegramHandler.
Existing Instance Sample.env.

Definition sample_telegram : TelegramHandler.t :=
  TelegramHandler.new ERROR no_options "token" "chat" (Some "uzulog").

(** Two messages logged before the probe answers, one after; the first
    request fails. *)
Definition sample_events : list event :=
  [ CallsSetup; CallsLog "one"; CallsLog "two"; ProbeSettles None;
    TimerFires; CallsLog "three"; TimerFires;
    SendSettles 0 (Some "network error"); TimerFires ].

Lemma one_in_flight_and_fifo_witness :
  ∃ s,
    run (mkSys sample_telegram idle) sample_events = Some s ∧
    sent (loop s) = ["one"; "two"] ∧ queue (handler s) = ["three"] ∧
    length (inflight (loop s)) ≤ 1 ∧
    sent (loop s) ++ List.filter nonempty (queue (handler s))
      = List.filter nonempty (logged sample_events).
Proof.
  eexists. split; [vm_compute; reflexivity|].
  split; [reflexivity|]. split; [reflexivity|].
  match goal with
  | |- length (inflight (loop ?s)) ≤ 1 ∧ _ =>
      destruct (one_in_flight_and_fifo sample_telegram sample_events s
                  eq_refl eq_refl eq_refl) as (H1 & _ & H3 & _)
  end.
  split; [exact H1|exact H3].
Defined.

Lemma delivery_error_does_not_block_witness :
  ∃ s1 s2 s3,
    let s := mkSys (set_hasConnectToTg true
                      (set_queue ["one"; "two"] sample_telegram)) idle in
    tapQueue s = s1 ∧
    step s1 (SendSettles 0 (Some "network error")) = Some s2 ∧
    step s2 TimerFires = Some s3 ∧
    sent (loop s3) = ["one"; "two"] ∧
    errors (loop s3) = ["network error"].
Proof.
  destruct (delivery_error_does_not_block
              (mkSys (set_hasConnectToTg true
                        (set_queue ["one"; "two"] sample_telegram)) idle)
              "one" "two" [] "network error"
              eq_refl eq_refl eq_refl eq_refl eq_refl eq_refl)
    as (s1 & s2 & s2' & s3 & H1 & _ & _ & _ & H2 & _ & _ & _ & _ & _
        & _ & _ & _ & _ & _ & _ & H3 & H4 & _).
  exists s1, s2, s3. cbn zeta.
  split; [exact H1|]. split; [exact H2|]. split; [exact H3|].
  split; [exact H4|].
  subst s1. vm_compute in H2. injection H2 as <-.
  vm_compute in H3. injection H3 as <-. reflexivity.
Defined.

End TelegramSamples.

(** ** The rotating file handler (handlers.ts) *)

Module FileFacts.
Import StrFacts.

(** The runtime refuses nothing: its calls fail for the presence or the
    absence of a file only. *)
Definition quiet (s : St) : Prop := ∀ c, refused s c = None.

Ltac run_m :=
  cbv [bind ret throw gets modify field update emit when set_fs try_catch
       Deno.attempt Deno.has_file Deno.exists_ Deno.open Deno.close
       Deno.remove Deno.renameSync Deno.stat_size Deno.write
       BufWriterSync.put BufWriterSync.new FileHandler.setup
       FileObj.set_file FileObj.set_buf
       FileObj.set_unloadListener FileObj.set_currentFileSize];
  cbn [fs trace this refused FileObj._file FileObj._buf FileObj._filename
       FileObj._mode FileObj._openOptions FileObj.unloadListener
       FileObj.maxBytes FileObj.maxBackupCount FileObj.currentFileSize
       BufObj.buf BufObj.err
       createNew create append truncate write fst snd orb andb].

Lemma bind_field {A B : Type} (f : FileObj.t → A) (k : A → M St B) s :
  bind (field f) k s = k (f (this s)) s.
Proof. reflexivity. Qed.

Lemma bind_Normal {A B : Type} (m : M St A) (k : A → M St B) s a s' :
  m s = (Normal a, s') → bind m k s = k a s'.
Proof. intros Hm. unfold bind. by rewrite Hm. Qed.

Lemma bind_Throw {A B : Type} (m : M St A) (k : A → M St B) s e s' :
  m s = (Throw e, s') → bind m k s = (Throw e, s').
Proof. intros Hm. unfold bind. by rewrite Hm. Qed.

Lemma for_each_step {A : Type} (x : A) (l : list A) (body : A → M St unit)
    (s : St) :
  for_each (x :: l) body s =
  match body x s with
  | (Normal _, s') => for_each l body s'
  | (Throw e, s') => (Throw e, s')
  end.
Proof. reflexivity. Qed.

Lemma then_throw (m : M St unit) (e : string) (s : St) :
  ∃ e' s', (m ;; @throw St unit e) s = (Throw e', s').
Proof. unfold bind, throw. destruct (m s) as [[[]|e'] s']; by eexists _, _. Qed.

Lemma attempt_eq c s :
  Deno.attempt c s =
  match refused s c with
  | Some e => (Throw e, s)
  | None => (Normal tt, s)
  end.
Proof. unfold Deno.attempt, bind, gets. by destruct (refused s c). Qed.

Lemma exists_eq path s :
  Deno.exists_ path s =
  match refused s (CallLstat path) with
  | Some e => (Throw e, s)
  | None =>
      (Normal (match fs s !! path with Some _ => true | None => false end),
       s)
  end.
Proof.
  unfold Deno.exists_. unfold bind at 1. rewrite attempt_eq.
  by destruct (refused s (CallLstat path)).
Qed.

Lemma backup_ne_filename filename i :
  RotatingFileHandler.backup filename i ≠ filename.
Proof.
  unfold RotatingFileHandler.backup. intros Heq.
  apply (f_equal String.length) in Heq.
  rewrite !length_app in Heq. simpl in Heq. lia.
Qed.

Lemma backup_inj filename i j :
  RotatingFileHandler.backup filename i
  = RotatingFileHandler.backup filename j → i = j.
Proof.
  unfold RotatingFileHandler.backup. intros Heq.
  apply String.app_inj in Heq. apply String.app_inj in Heq.
  by apply (inj pretty) in Heq.
Qed.

(** ** The loop of mode [x] *)

Lemma refuse_backup_eq filename i s :
  RotatingFileHandler.refuse_backup filename i s =
  match refused s (CallLstat (RotatingFileHandler.backup filename i)) with
  | Some e => (Throw e, s)
  | None =>
      match fs s !! RotatingFileHandler.backup filename i with
      | Some _ =>
          (FileHandler.destroy ;;
           throw ("Backup log file "
                  +:+ RotatingFileHandler.backup filename i
                  +:+ " already exists")) s
      | None => (Normal tt, s)
      end
  end.
Proof.
  unfold RotatingFileHandler.refuse_backup. unfold bind at 1.
  rewrite exists_eq.
  destruct (refused s _); [done|]. by destruct (fs s !! _).
Qed.

(** The loop of mode [x] passes when no backup exists and no test is
    refused. *)
Lemma refuse_loop_clear filename (l : list Z) (s : St) :
  (∀ i, i ∈ l →
     refused s (CallLstat (RotatingFileHandler.backup filename i)) = None ∧
     fs s !! RotatingFileHandler.backup filename i = None) →
  for_each l (RotatingFileHandler.refuse_backup filename) s = (Normal tt, s).
Proof.
  induction l as [|i l IH]; intros Hnone; [done|].
  rewrite for_each_step, refuse_backup_eq.
  destruct (Hnone i) as [-> ->]; [by left|].
  apply IH. intros j Hj. apply Hnone. by right.
Qed.

(** Otherwise it ends at the first backup whose test is refused, with the
    error of the test, or that exists, after [destroy]. *)
Lemma refuse_loop_cases filename (l : list Z) (s : St) :
  for_each l (RotatingFileHandler.refuse_backup filename) s = (Normal tt, s)
  ∨ (∃ i e, i ∈ l ∧
       refused s (CallLstat (RotatingFileHandler.backup filename i))
         = Some e ∧
       for_each l (RotatingFileHandler.refuse_backup filename) s
         = (Throw e, s))
  ∨ (∃ i, i ∈ l ∧
       is_Some (fs s !! RotatingFileHandler.backup filename i) ∧
       for_each l (RotatingFileHandler.refuse_backup filename) s
         = (FileHandler.destroy ;;
            throw ("Backup log file "
                   +:+ RotatingFileHandler.backup filename i
                   +:+ " already exists")) s).
Proof.
  induction l as [|i l IH]; [by left|].
  rewrite for_each_step, refuse_backup_eq.
  destruct (refused s (CallLstat (RotatingFileHandler.backup filename i)))
    as [e|] eqn:Hr.
  { right. left. exists i, e. split; [by left|]. by split. }
  destruct (fs s !! RotatingFileHandler.backup filename i) as [c|] eqn:Hf.
  { right. right. exists i. split; [by left|]. split; [by eexists|].
    by destruct (then_throw FileHandler.destroy
                   ("Backup log file "
                    +:+ RotatingFileHandler.backup filename i
                    +:+ " already exists") s) as (e & s' & ->). }
  destruct IH as [IH|[(j & e & Hj & Hrj & IH)|(j & Hj & Hsome & IH)]].
  - by left.
  - right. left. exists j, e. split; [by right|]. by split.
  - right. right. exists j. split; [by right|]. by split.
Qed.

(** What [destroy] leaves of a handler whose writer holds nothing. *)
Definition destroyed (s : St) : St :=
  {| fs := fs s;
     trace := trace s ++ [CallDestroy]
              ++ match FileObj._file (this s) with
                 | Some path => [SysClose path]
                 | None => []
                 end;
     this := FileObj.set_unloadListener false
               (FileObj.set_file None (this s));
     refused := refused s |}.

Lemma writer_eq s w :
  FileObj._buf (this s) = Some w → BufWriterSync.writer s = (Normal w, s).
Proof.
  intros Hw. unfold BufWriterSync.writer. rewrite bind_field. by rewrite Hw.
Qed.

Lemma buffered_nil w :
  BufObj.buf w = [] → (BufWriterSync.buffered w >? 0)%Z = false.
Proof. unfold BufWriterSync.buffered. by intros ->. Qed.

Lemma buffered_cons w :
  BufObj.buf w ≠ [] →
  (BufWriterSync.buffered w >? 0)%Z = true ∧
  (BufWriterSync.buffered w =? 0)%Z = false.
Proof.
  unfold BufWriterSync.buffered. destruct (BufObj.buf w); [done|].
  intros _. cbn [length]. split; [apply Z.gtb_lt|apply Z.eqb_neq]; lia.
Qed.

(** [flush] of the handler does nothing when the writer holds nothing or
    there is no writer. *)
Lemma FileHandler_flush_nothing (s : St) :
  FileObj._buf (this s) = None ∨
  (∃ w, FileObj._buf (this s) = Some w ∧ BufObj.buf w = []) →
  FileHandler.flush s = (Normal tt, s).
Proof.
  intros Hbuf. unfold FileHandler.flush. rewrite bind_field.
  destruct Hbuf as [->|(w & -> & Hw)]; [done|].
  by rewrite (buffered_nil w Hw).
Qed.

Lemma destroy_empty_buffer (s : St) :
  FileObj._buf (this s) = None ∨
  (∃ w, FileObj._buf (this s) = Some w ∧ BufObj.buf w = []) →
  FileHandler.destroy s = (Normal tt, destroyed s).
Proof.
  intros Hbuf. unfold FileHandler.destroy. unfold bind at 1.
  unfold emit at 1, modify. unfold bind at 1.
  rewrite FileHandler_flush_nothing by done.
  unfold destroyed. destruct s as [f t o r].
  destruct o as [file buf fname mode opts ul mb mbc cur].
  destruct file; run_m; by rewrite <- ?List.app_assoc.
Qed.

(** ** The loop of mode [w] *)

(** The files without the backups [l]. *)
Definition without_backups (filename : string) (l : list Z)
    (files : gmap string (list Byte.byte)) : gmap string (list Byte.byte) :=
  foldl (λ f i, delete (RotatingFileHandler.backup filename i) f) files l.

Lemma without_backups_lookup filename (l : list Z) files p :
  without_backups filename l files !! p =
  if decide (Exists (λ i, p = RotatingFileHandler.backup filename i) l)
  then None else files !! p.
Proof.
  unfold without_backups. revert files.
  induction l as [|i l IH]; intros files.
  - cbn. rewrite decide_False; [done|]. by intros ?%Exists_nil.
  - cbn [foldl]. rewrite IH.
    destruct (decide (Exists
        (λ j, p = RotatingFileHandler.backup filename j) l)) as [Hex|Hno].
    + rewrite decide_True; [done|]. by apply Exists_cons_tl.
    + destruct (decide (p = RotatingFileHandler.backup filename i))
        as [->|Hp].
      * rewrite lookup_delete_eq. rewrite decide_True; [done|].
        by apply Exists_cons_hd.
      * rewrite lookup_delete_ne by done.
        rewrite decide_False; [done|]. by intros [?|?]%Exists_cons.
Qed.

Lemma without_backups_removed filename (l : list Z) files i :
  i ∈ l →
  without_backups filename l files !! RotatingFileHandler.backup filename i
  = None.
Proof.
  intros Hi. rewrite without_backups_lookup. rewrite decide_True; [done|].
  apply Exists_exists. by exists i.
Qed.

Lemma without_backups_kept filename (l : list Z) files p :
  (∀ i, i ∈ l → p ≠ RotatingFileHandler.backup filename i) →
  without_backups filename l files !! p = files !! p.
Proof.
  intros Hp. rewrite without_backups_lookup. rewrite decide_False; [done|].
  intros (i & Hi & ->)%Exists_exists. by apply (Hp i).
Qed.

Lemma remove_backup_eq filename i s :
  RotatingFileHandler.remove_backup filename i s =
  let b := RotatingFileHandler.backup filename i in
  match refused s (CallLstat b) with
  | Some e => (Throw e, s)
  | None =>
      match fs s !! b with
      | Some _ =>
          match refused s (CallRemove b) with
          | Some e => (Throw e, s)
          | None =>
              (Normal tt,
               mkSt (delete b (fs s)) (trace s ++ [SysRemove b]) (this s)
                 (refused s))
          end
      | None => (Normal tt, s)
      end
  end.
Proof.
  cbn zeta. unfold RotatingFileHandler.remove_backup. unfold bind at 1.
  rewrite exists_eq.
  destruct (refused s (CallLstat _)); [done|].
  destruct (fs s !! RotatingFileHandler.backup filename i) eqn:Hf;
    [|done].
  unfold when, Deno.remove. unfold bind at 1. rewrite attempt_eq.
  destruct (refused s (CallRemove _)); [done|].
  run_m. by rewrite Hf.
Qed.

(** The removals of the loop change nothing but the files. *)
Definition only_removals (s s' : St) : Prop :=
  this s' = this s ∧ refused s' = refused s ∧
  ∃ events, trace s' = trace s ++ events ∧
            Forall (λ ev, ∃ p, ev = SysRemove p) events.

Lemma only_removals_refl s : only_removals s s.
Proof.
  split; [done|]. split; [done|]. exists []. by rewrite List.app_nil_r.
Qed.

(** What stops the loop of mode [w] at backup [i]: its test is refused,
    or it exists and its removal is refused. *)
Definition removal_error (s : St) (filename : string) (i : Z)
    : option string :=
  let b := RotatingFileHandler.backup filename i in
  match refused s (CallLstat b) with
  | Some e => Some e
  | None =>
      match fs s !! b with
      | Some _ => refused s (CallRemove b)
      | None => None
      end
  end.

(** The loop of mode [w] removes the backups and nothing else, or ends
    at the first backup whose test or removal is refused. *)
Lemma remove_loop_cases filename (l : list Z) (s : St) :
  NoDup l →
  (∃ s', for_each l (RotatingFileHandler.remove_backup filename) s
         = (Normal tt, s') ∧
         only_removals s s' ∧
         fs s' = without_backups filename l (fs s) ∧
         ∀ i, i ∈ l → removal_error s filename i = None)
  ∨ (∃ i e s', for_each l (RotatingFileHandler.remove_backup filename) s
               = (Throw e, s') ∧
               i ∈ l ∧ removal_error s filename i = Some e ∧
               only_removals s s').
Proof.
  revert s. induction l as [|i l IH]; intros s Hnd.
  { left. exists s. split; [done|]. split; [apply only_removals_refl|].
    split; [done|]. by intros i ?%elem_of_nil. }
  apply NoDup_cons in Hnd as [Hi Hnd].
  rewrite for_each_step, remove_backup_eq. cbn zeta.
  assert (∀ s1, this s1 = this s → refused s1 = refused s →
            (∀ j, j ∈ l →
               fs s1 !! RotatingFileHandler.backup filename j
               = fs s !! RotatingFileHandler.backup filename j) →
            ∀ j, j ∈ l →
              removal_error s1 filename j = removal_error s filename j)
    as Hsame.
  { intros s1 _ Hr Hfs j Hj. unfold removal_error. cbn zeta.
    by rewrite Hr, (Hfs j Hj). }
  destruct (refused s (CallLstat (RotatingFileHandler.backup filename i)))
    as [e|] eqn:Hl.
  { right. exists i, e, s. split; [done|]. split; [by left|].
    split; [|apply only_removals_refl].
    unfold removal_error. cbn zeta. by rewrite Hl. }
  destruct (fs s !! RotatingFileHandler.backup filename i) as [c|] eqn:Hf.
  - destruct (refused s (CallRemove (RotatingFileHandler.backup filename i)))
      as [e|] eqn:Hrm.
    { right. exists i, e, s. split; [done|]. split; [by left|].
      split; [|apply only_removals_refl].
      unfold removal_error. cbn zeta. by rewrite Hl, Hf. }
    set (s1 := mkSt _ _ _ _).
    assert (∀ j, j ∈ l → removal_error s1 filename j
                         = removal_error s filename j) as Hs1.
    { apply Hsame; [done|done|]. intros j Hj. cbn.
      apply lookup_delete_ne. intros Heq%backup_inj. by subst. }
    destruct (IH s1 Hnd)
      as [(s' & -> & (Ht & Hr & evs & Htr & Hevs) & Hfs & Hok)
         |(j & e & s' & -> & Hj & Herr & (Ht & Hr & evs & Htr & Hevs))].
    + left. exists s'. split; [done|]. split.
      { split; [done|]. split; [done|].
        exists (SysRemove (RotatingFileHandler.backup filename i) :: evs).
        split; [by rewrite Htr; cbn; rewrite <- List.app_assoc|].
        constructor; [by eexists|done]. }
      split; [done|]. intros j [->|Hj]%elem_of_cons.
      * unfold removal_error. cbn zeta. by rewrite Hl, Hf.
      * rewrite <- Hs1 by done. by apply Hok.
    + right. exists j, e, s'. split; [done|]. split; [by right|].
      split; [by rewrite <- Hs1|].
      split; [done|]. split; [done|].
      exists (SysRemove (RotatingFileHandler.backup filename i) :: evs).
      split; [by rewrite Htr; cbn; rewrite <- List.app_assoc|].
      constructor; [by eexists|done].
  - destruct (IH s Hnd)
      as [(s' & -> & Hon & Hfs & Hok)|(j & e & s' & -> & Hj & Herr & Hon)].
    + left. exists s'. split; [done|]. split; [done|]. split.
      { rewrite Hfs. unfold without_backups. cbn [foldl].
        by rewrite delete_id. }
      intros j [->|Hj]%elem_of_cons; [|by apply Hok].
      unfold removal_error. cbn zeta. by rewrite Hl, Hf.
    + right. exists j, e, s'. split; [done|]. split; [by right|]. done.
Qed.

(** ** [FileHandler.setup] *)

(** The handler and the files once [FileHandler.setup] has opened the
    active file. *)
Definition opened (s : St) : St :=
  let filename := FileObj._filename (this s) in
  {| fs := match fs s !! filename with
           | Some c =>
               if truncate (FileObj._openOptions (this s))
               then <[filename := []]> (fs s) else fs s
           | None => <[filename := []]> (fs s)
           end;
     trace := trace s ++ [SysOpen filename];
     this := FileObj.set_unloadListener true
               (FileObj.set_buf (Some BufWriterSync.new)
                  (FileObj.set_file (Some filename) (this s)));
     refused := refused s |}.

Lemma FileHandler_setup_eq (s : St) :
  FileObj._openOptions (this s)
    = FileHandler.openOptions_of (FileObj._mode (this s)) →
  FileHandler.setup s =
  match refused s (CallOpen (FileObj._filename (this s))) with
  | Some e => (Throw e, s)
  | None =>
      match fs s !! FileObj._filename (this s), FileObj._mode (this s) with
      | Some _, mode_x => (Throw "AlreadyExists", s)
      | _, _ => (Normal tt, opened s)
      end
  end.
Proof.
  intros Hopts. unfold opened. destruct s as [f t o r].
  destruct o as [file buf fname mode opts ul mb mbc cur].
  cbn in Hopts. subst opts. run_m.
  destruct (r (CallOpen fname)); [done|].
  destruct (f !! fname) eqn:Hf, mode; run_m; try rewrite Hf; done.
Qed.

Lemma FileHandler_setup_result (s : St) :
  quiet s →
  FileObj._openOptions (this s)
    = FileHandler.openOptions_of (FileObj._mode (this s)) →
  FileHandler.setup s =
  match fs s !! FileObj._filename (this s), FileObj._mode (this s) with
  | Some _, mode_x => (Throw "AlreadyExists", s)
  | _, _ => (Normal tt, opened s)
  end.
Proof.
  intros Hq Hopts. rewrite (FileHandler_setup_eq s Hopts). by rewrite Hq.
Qed.

Lemma opened_active s :
  fs (opened s) !! FileObj._filename (this s)
  = Some (match fs s !! FileObj._filename (this s) with
          | Some c =>
              if truncate (FileObj._openOptions (this s)) then [] else c
          | None => []
          end).
Proof.
  unfold opened. cbn [fs].
  destruct (fs s !! FileObj._filename (this s)) eqn:Hf;
    [destruct (truncate _)|]; by rewrite ?lookup_insert_eq.
Qed.

Lemma opened_other s p :
  p ≠ FileObj._filename (this s) → fs (opened s) !! p = fs s !! p.
Proof.
  intros Hp. unfold opened. cbn [fs].
  destruct (fs s !! FileObj._filename (this s));
    [destruct (truncate _)|]; by rewrite ?lookup_insert_ne.
Qed.

End FileFacts.

Section Setup.
Import FileFacts.
Local Open Scope Z_scope.

Definition exclusive_clash (files : gmap string (list Byte.byte))
    (filename : string) (mode : LogMode) (n : Z) : Prop :=
  mode = mode_x ∧
  (is_Some (files !! filename) ∨
   ∃ i, 1 ≤ i ≤ n ∧
        is_Some (files !! RotatingFileHandler.backup filename i)).

(** The open call of [setup] fails: the runtime refuses it, or the mode
    is [x] and the active file exists. *)
Definition open_fails (refused : Call → option string)
    (files : gmap string (list Byte.byte)) (filename : string)
    (mode : LogMode) : Prop :=
  is_Some (refused (CallOpen filename)) ∨
  (mode = mode_x ∧ is_Some (files !! filename)).

(** What makes [setup] fail after the open: in append mode [Deno.stat]
    is refused; in mode [w] the test of a backup is refused, or the
    removal of one that exists; in mode [x] the test of a backup is
    refused or a backup exists. *)
Definition check_fails (refused : Call → option string)
    (files : gmap string (list Byte.byte)) (filename : string)
    (mode : LogMode) (n : Z) : Prop :=
  match mode with
  | mode_a => is_Some (refused (CallStat filename))
  | mode_w =>
      ∃ i, 1 ≤ i ≤ n ∧
        (is_Some (refused (CallLstat (RotatingFileHandler.backup filename i)))
         ∨ (is_Some (files !! RotatingFileHandler.backup filename i) ∧
            is_Some
              (refused (CallRemove (RotatingFileHandler.backup filename i)))))
  | mode_x =>
      ∃ i, 1 ≤ i ≤ n ∧
        (is_Some (refused (CallLstat (RotatingFileHandler.backup filename i)))
         ∨ is_Some (files !! RotatingFileHandler.backup filename i))
  end.

(** The counter once [setup] has read the size of the active file. *)
Definition sized (s : St) : St :=
  mkSt (fs s) (trace s)
    (FileObj.set_currentFileSize
       (Z.of_nat (length (default [] (fs s !! FileObj._filename (this s)))))
       (this s))
    (refused s).

(** [setup], step by step, on any handler. *)
Lemma setup_run (s0 : St) :
  FileObj._openOptions (this s0)
    = FileHandler.openOptions_of (FileObj._mode (this s0)) →
  let filename := FileObj._filename (this s0) in
  let n := FileObj.maxBackupCount (this s0) in
  RotatingFileHandler.setup s0 =
  if FileObj.maxBytes (this s0) <? 1 then
    (FileHandler.destroy ;;
     @throw St unit "maxBytes cannot be less than 1") s0
  else if n <? 1 then
    (FileHandler.destroy ;;
     @throw St unit "maxBackupCount cannot be less than 1") s0
  else
    match refused s0 (CallOpen filename) with
    | Some e => (Throw e, s0)
    | None =>
        match FileObj._mode (this s0), fs s0 !! filename with
        | mode_x, Some _ => (Throw "AlreadyExists", s0)
        | mode_x, None =>
            for_each (seqZ 1 n) (RotatingFileHandler.refuse_backup filename)
              (opened s0)
        | mode_w, _ =>
            for_each (seqZ 1 n) (RotatingFileHandler.remove_backup filename)
              (opened s0)
        | mode_a, _ =>
            match refused s0 (CallStat filename) with
            | Some e => (Throw e, opened s0)
            | None => (Normal tt, sized (opened s0))
            end
        end
    end.
Proof.
  intros Hopts filename n. unfold RotatingFileHandler.setup.
  rewrite !bind_field. fold filename n.
  destruct (FileObj.maxBytes (this s0) <? 1); [done|].
  destruct (n <? 1); [done|].
  unfold bind at 1. rewrite (FileHandler_setup_eq s0 Hopts). fold filename.
  destruct (refused s0 (CallOpen filename)) as [e|]; [done|].
  pose proof (opened_active s0) as Hact. fold filename in Hact.
  destruct (FileObj._mode (this s0)) eqn:Hm,
    (fs s0 !! filename) as [c0|] eqn:Hf; try done.
  - unfold bind at 1. unfold Deno.stat_size. unfold bind at 1.
    rewrite attempt_eq. change (refused (opened s0)) with (refused s0).
    destruct (refused s0 (CallStat filename)); [done|].
    unfold sized. change (FileObj._filename (this (opened s0))) with filename.
    run_m. fold filename. rewrite Hact. by run_m.
  - unfold bind at 1. unfold Deno.stat_size. unfold bind at 1.
    rewrite attempt_eq. change (refused (opened s0)) with (refused s0).
    destruct (refused s0 (CallStat filename)); [done|].
    unfold sized. change (FileObj._filename (this (opened s0))) with filename.
    run_m. fold filename. rewrite Hact. by run_m.
Qed.

(** [setup] on a handler just built, in a runtime that refuses
    nothing. *)
Lemma setup_eq files filename (mode : option LogMode) maxBytes n :
  let m := default mode_a mode in
  let s0 :=
    initial files (RotatingFileHandler.new filename mode maxBytes n) in
  RotatingFileHandler.setup s0 =
  if maxBytes <? 1 then
    (Throw "maxBytes cannot be less than 1", destroyed s0)
  else if n <? 1 then
    (Throw "maxBackupCount cannot be less than 1", destroyed s0)
  else
    match m, files !! filename with
    | mode_x, Some _ => (Throw "AlreadyExists", s0)
    | mode_x, None =>
        for_each (seqZ 1 n) (RotatingFileHandler.refuse_backup filename)
          (opened s0)
    | mode_w, _ =>
        for_each (seqZ 1 n) (RotatingFileHandler.remove_backup filename)
          (opened s0)
    | mode_a, c =>
        (Normal tt,
         mkSt (fs (opened s0)) (trace (opened s0))
           (FileObj.set_currentFileSize
              (Z.of_nat (length (default [] c))) (this (opened s0)))
           (refused s0))
    end.
Proof.
  intros m s0. rewrite (setup_run s0 eq_refl). cbn zeta.
  change (FileObj.maxBytes (this s0)) with maxBytes.
  change (FileObj.maxBackupCount (this s0)) with n.
  change (FileObj._filename (this s0)) with filename.
  change (FileObj._mode (this s0)) with m.
  change (fs s0) with files.
  change (refused s0) with (λ _ : Call, @None string). cbv beta.
  destruct (maxBytes <? 1).
  { unfold bind. by rewrite (destroy_empty_buffer s0 (or_introl eq_refl)). }
  destruct (n <? 1).
  { unfold bind. by rewrite (destroy_empty_buffer s0 (or_introl eq_refl)). }
  destruct m eqn:Hm; [|done|done].
  unfold sized. change (FileObj._filename (this (opened s0))) with filename.
  pose proof (opened_active s0) as Hact.
  change (FileObj._filename (this s0)) with filename in Hact.
  change (fs s0) with files in Hact.
  change (FileObj._openOptions (this s0))
    with (FileHandler.openOptions_of m) in Hact.
  rewrite Hact, Hm. by destruct (files !! filename).
Qed.

Lemma opened_backup files filename mode maxBytes n i :
  let s0 :=
    initial files (RotatingFileHandler.new filename mode maxBytes n) in
  fs (opened s0) !! RotatingFileHandler.backup filename i
  = files !! RotatingFileHandler.backup filename i.
Proof.
  intros s0. apply (opened_other s0). apply backup_ne_filename.
Qed.

End Setup.

Section SetupFailures.
Import FileFacts.
Local Open Scope Z_scope.

(** The ways in which [setup] of a handler just built ends. *)
Lemma setup_cases (rf : Call → option string)
    (files : gmap string (list Byte.byte)) (filename : string)
    (mode : option LogMode) (maxBytes n : Z) :
  let m := default mode_a mode in
  let s0 :=
    initial_with rf files
      (RotatingFileHandler.new filename mode maxBytes n) in
  ((maxBytes < 1 ∨ n < 1) ∧
   ∃ e, RotatingFileHandler.setup s0 = (Throw e, destroyed s0))
  ∨ (1 ≤ maxBytes ∧ 1 ≤ n ∧ open_fails rf files filename m ∧
     ∃ e, RotatingFileHandler.setup s0 = (Throw e, s0))
  ∨ (1 ≤ maxBytes ∧ 1 ≤ n ∧ ¬ open_fails rf files filename m ∧
     ((¬ check_fails rf files filename m n ∧
       ∃ s, RotatingFileHandler.setup s0 = (Normal tt, s))
      ∨ (check_fails rf files filename m n ∧ m = mode_x ∧
         (∃ i, 1 ≤ i ≤ n ∧
               is_Some (files !! RotatingFileHandler.backup filename i)) ∧
         ∃ e, RotatingFileHandler.setup s0
              = (Throw e, destroyed (opened s0)))
      ∨ (check_fails rf files filename m n ∧
         ∃ call e s, rf call = Some e ∧
                     RotatingFileHandler.setup s0 = (Throw e, s) ∧
                     only_removals (opened s0) s))).
Proof.
  intros m s0. rewrite (setup_run s0 eq_refl). cbn zeta.
  change (FileObj.maxBytes (this s0)) with maxBytes.
  change (FileObj.maxBackupCount (this s0)) with n.
  change (FileObj._filename (this s0)) with filename.
  change (FileObj._mode (this s0)) with m.
  change (fs s0) with files.
  change (refused s0) with rf.
  destruct (Z.ltb_spec maxBytes 1) as [Hmb|Hmb].
  { left. split; [by left|]. unfold bind.
    rewrite (destroy_empty_buffer s0 (or_introl eq_refl)). by eexists. }
  destruct (Z.ltb_spec n 1) as [Hn|Hn].
  { left. split; [by right|]. unfold bind.
    rewrite (destroy_empty_buffer s0 (or_introl eq_refl)). by eexists. }
  right.
  destruct (rf (CallOpen filename)) as [e|] eqn:Hopen.
  { left. split; [done|]. split; [done|]. split; [|by eexists].
    left. by rewrite Hopen. }
  assert (∀ i, fs (opened s0) !! RotatingFileHandler.backup filename i
               = files !! RotatingFileHandler.backup filename i) as Hbk.
  { intros i. apply (opened_other s0), backup_ne_filename. }
  destruct m eqn:Hm.
  - (* append *)
    right. split; [done|]. split; [done|]. split.
    { intros [[? Hs]|[? _]]; [by rewrite Hopen in Hs|done]. }
    destruct (rf (CallStat filename)) as [e|] eqn:Hstat.
    + right. right. split; [by cbn; rewrite Hstat|].
      exists (CallStat filename), e, (opened s0).
      split; [done|]. split; [by destruct (files !! filename)|].
      apply only_removals_refl.
    + left. split; [cbn; rewrite Hstat; by intros [? ?]|].
      destruct (files !! filename); by eexists.
  - (* truncate *)
    right. split; [done|]. split; [done|]. split.
    { intros [[? Hs]|[? _]]; [by rewrite Hopen in Hs|done]. }
    assert (∀ i, removal_error (opened s0) filename i =
                 match rf (CallLstat
                                  (RotatingFileHandler.backup filename i)) with
                 | Some e => Some e
                 | None =>
                     match files !! RotatingFileHandler.backup filename i with
                     | Some _ =>
                         rf (CallRemove
                                    (RotatingFileHandler.backup filename i))
                     | None => None
                     end
                 end) as Herr.
    { intros i. unfold removal_error. cbn zeta. by rewrite Hbk. }
    destruct (remove_loop_cases filename (seqZ 1 n) (opened s0)
                (NoDup_seqZ 1 n))
      as [(s & Hs & _ & _ & Hok)|(i & e & s & Hs & Hi & He & Hon)].
    + left. split.
      { intros (i & Hi & Hbad).
        specialize (Hok i). rewrite Herr in Hok.
        assert (i ∈ seqZ 1 n) as Hin by (apply elem_of_seqZ; lia).
        specialize (Hok Hin).
        destruct Hbad as [[e He]|[[c Hc] [e He]]].
        - by rewrite He in Hok.
        - rewrite Hc, He in Hok. by destruct (rf (CallLstat _)). }
      exists s. by destruct (files !! filename).
    + right. right. rewrite Herr in He. apply elem_of_seqZ in Hi.
      split.
      { exists i. split; [lia|].
        destruct (rf (CallLstat (RotatingFileHandler.backup filename i)))
          as [e'|]; [left; by eexists|].
        destruct (files !! RotatingFileHandler.backup filename i) as [c|];
          [|done].
        right. split; by eexists. }
      destruct (rf (CallLstat (RotatingFileHandler.backup filename i)))
        as [e'|] eqn:Hl.
      * exists (CallLstat (RotatingFileHandler.backup filename i)), e, s.
        split; [congruence|]. split; [by destruct (files !! filename)|done].
      * destruct (files !! RotatingFileHandler.backup filename i) as [c|];
          [|done].
        exists (CallRemove (RotatingFileHandler.backup filename i)), e, s.
        split; [done|]. split; [by destruct (files !! filename)|done].
  - (* exclusive *)
    destruct (files !! filename) as [c0|] eqn:Hf.
    { left. split; [done|]. split; [done|]. split; [|by eexists].
      right. split; [done|]. by eexists. }
    right. split; [done|]. split; [done|]. split.
    { intros [[? Hs]|[_ [? ?]]]; [by rewrite Hopen in Hs|congruence]. }
    destruct (refuse_loop_cases filename (seqZ 1 n) (opened s0))
      as [Hs|[(i & e & Hi & He & Hs)|(i & Hi & Hsome & Hs)]].
    + assert (¬ check_fails rf files filename mode_x n
              ∨ check_fails rf files filename mode_x n) as [Hno|Hyes].
      { destruct (decide (Exists
          (λ i, is_Some (rf (CallLstat
                           (RotatingFileHandler.backup filename i)))
                ∨ is_Some (files !! RotatingFileHandler.backup filename i))
          (seqZ 1 n))) as [Hex|Hex].
        - right. apply Exists_exists in Hex as (i & Hi%elem_of_seqZ & Hb).
          exists i. split; [lia|done].
        - left. intros (i & Hi & Hb). apply Hex, Exists_exists.
          exists i. split; [apply elem_of_seqZ; lia|done]. }
      * left. split; [done|]. by eexists.
      * (* the loop cannot pass when a check fails *)
        exfalso. destruct Hyes as (i & Hi & Hbad).
        assert (i ∈ seqZ 1 n) as Hin by (apply elem_of_seqZ; lia).
        assert (∀ l, i ∈ l →
                  for_each l (RotatingFileHandler.refuse_backup filename)
                    (opened s0) ≠ (Normal tt, opened s0)) as Hloop.
        { induction l as [|j l IH]; [by intros ?%elem_of_nil|].
          intros Hj. rewrite for_each_step, refuse_backup_eq.
          change (refused (opened s0)) with rf.
          rewrite Hbk.
          destruct (rf (CallLstat
                               (RotatingFileHandler.backup filename j)))
            as [e|] eqn:Hl; [done|].
          destruct (files !! RotatingFileHandler.backup filename j)
            as [c|] eqn:Hfj.
          { destruct (then_throw FileHandler.destroy
                        ("Backup log file "
                         +:+ RotatingFileHandler.backup filename j
                         +:+ " already exists") (opened s0))
              as (e & s' & ->). done. }
          apply elem_of_cons in Hj as [->|Hj]; [|by apply IH].
          destruct Hbad as [[e He]|[c Hc]]; congruence. }
        by apply (Hloop _ Hin).
    + right. right. apply elem_of_seqZ in Hi. split.
      { exists i. split; [lia|]. left.
        change (refused (opened s0)) with rf in He.
        by rewrite He. }
      exists (CallLstat (RotatingFileHandler.backup filename i)), e,
        (opened s0).
      split; [done|]. split; [done|]. apply only_removals_refl.
    + right. left. apply elem_of_seqZ in Hi. rewrite Hbk in Hsome. split.
      { exists i. split; [lia|]. by right. }
      split; [done|]. split; [exists i; split; [lia|done]|].
      rewrite Hs. unfold bind.
      rewrite (destroy_empty_buffer (opened s0)); [by eexists|].
      right. by eexists.
Qed.

(** C9, as the code has it.  [setup] of a handler just built throws when
    [maxBytes < 1], when [maxBackupCount < 1], when the open call fails
    (the runtime refuses it, or the mode is [x] and the active file
    exists) and when a step after the open fails (a call that the runtime
    refuses, or, in mode [x], a backup that exists), and in no other
    case; so with a runtime that refuses nothing, exactly in the cases
    of the claim.  [destroy] is called before the error for the limits
    and for a backup that exists in mode [x]: the file just opened is
    then closed and the listener removed.  When the open call fails,
    nothing has been acquired or changed and [destroy] is not called.
    When a call after the open is refused, its error is thrown and
    [destroy] is not called: the file stays open and the listener
    registered. *)
Theorem setup_failures (rf : Call → option string)
    (files : gmap string (list Byte.byte)) (filename : string)
    (mode : option LogMode) (maxBytes n : Z) :
  let m := default mode_a mode in
  let s0 :=
    initial_with rf files
      (RotatingFileHandler.new filename mode maxBytes n) in
  let c := fst (RotatingFileHandler.setup s0) in
  let s := snd (RotatingFileHandler.setup s0) in
  (¬ is_normal c ↔
     maxBytes < 1 ∨ n < 1 ∨ open_fails rf files filename m
     ∨ check_fails rf files filename m n) ∧
  ((∀ call, rf call = None) →
   (¬ is_normal c ↔
      maxBytes < 1 ∨ n < 1 ∨ exclusive_clash files filename m n)) ∧
  (maxBytes < 1 ∨ n < 1 →
     trace s = [CallDestroy] ∧ fs s = files ∧
     FileObj._file (this s) = None ∧
     FileObj.unloadListener (this s) = false) ∧
  (1 ≤ maxBytes → 1 ≤ n → open_fails rf files filename m →
     (CallDestroy ∉ trace s) ∧ s = s0) ∧
  (1 ≤ maxBytes → 1 ≤ n → ¬ open_fails rf files filename m →
   ¬ is_normal c →
     (CallDestroy ∈ trace s ∧ m = mode_x ∧
      (∃ i, 1 ≤ i ≤ n ∧
            is_Some (files !! RotatingFileHandler.backup filename i)) ∧
      SysClose filename ∈ trace s ∧
      FileObj._file (this s) = None ∧
      FileObj.unloadListener (this s) = false)
     ∨ ((CallDestroy ∉ trace s) ∧
        (∃ call e, rf call = Some e ∧ c = Throw e) ∧
        (SysClose filename ∉ trace s) ∧
        FileObj._file (this s) = Some filename ∧
        FileObj.unloadListener (this s) = true)).
Proof.
  intros m s0 c s. subst c s.
  destruct (setup_cases rf files filename mode maxBytes n)
    as [[Hlim [e Hs]]
       |[(Hmb & Hn & Hopen & e & Hs)
        |(Hmb & Hn & Hopen &
          [[Hcheck [s Hs]]
          |[(Hcheck & Hm & Hbk & e & Hs)
           |(Hcheck & call & e & s & Hcall & Hs & Hon)]])]];
    cbn zeta in *; fold m s0 in Hs |- *; rewrite Hs; cbn [fst snd is_normal].
  - (* the limits *)
    split; [split; [intros _; destruct Hlim; tauto|tauto]|].
    split; [intros _; split; [intros _; destruct Hlim; tauto|tauto]|].
    split; [done|]. split; [lia|lia].
  - (* the open call *)
    split; [split; [tauto|tauto]|].
    split.
    { intros Hq. split; [|tauto]. intros _. right. right.
      destruct Hopen as [[? Hr]|[Hx Hf]]; [by rewrite Hq in Hr|].
      split; [done|]. by left. }
    split; [lia|]. split; [|tauto].
    intros _ _ _. split; [apply not_elem_of_nil|done].
  - (* it returns *)
    split; [split; [tauto|]|].
    { intros [?|[?|[?|?]]]; [lia|lia|done|done]. }
    split.
    { intros Hq. split; [tauto|].
      intros [?|[?|[Hx [Hf|(i & Hi & Hb)]]]] _; [lia|lia| |].
      - apply Hopen. right. by split.
      - apply Hcheck. fold m. rewrite Hx. exists i. split; [done|]. by right. }
    split; [lia|]. split; [tauto|tauto].
  - (* mode x, a backup exists *)
    split; [split; [tauto|tauto]|].
    split.
    { intros Hq. split; [|tauto]. intros _. right. right.
      split; [done|]. by right. }
    split; [lia|]. split; [tauto|].
    intros _ _ _ _. left.
    split; [cbn; set_solver|]. split; [done|]. split; [done|].
    split; [cbn; set_solver|]. done.
  - (* a call after the open is refused *)
    split; [split; [tauto|tauto]|].
    split.
    { intros Hq. rewrite Hq in Hcall. done. }
    split; [lia|]. split; [tauto|].
    intros _ _ _ _. right.
    destruct Hon as (Hthis & _ & events & Htr & Hevs).
    assert (∀ ev, ev ∈ trace s → ev = SysOpen filename ∨ ∃ p, ev = SysRemove p)
      as Honly.
    { intros ev. rewrite Htr. cbn.
      intros [->|Hin]%elem_of_cons; [by left|].
      right. rewrite Forall_forall in Hevs. by apply Hevs. }
    split.
    { intros [?|[p ?]]%Honly; done. }
    split; [by exists call, e|].
    split.
    { intros [?|[p ?]]%Honly; done. }
    by rewrite Hthis.
Qed.

End SetupFailures.

(** C9, as the claim words it, fails: in mode [x] with the active file
    present, [setup] throws the error of the open call; [destroy] has not
    been called, and nothing has changed. *)
Lemma setup_error_without_destroy :
  let s0 :=
    initial {[ "app.log" := [] ]}
      (RotatingFileHandler.new "app.log" (Some mode_x) 100 2) in
  RotatingFileHandler.setup s0 = (Throw "AlreadyExists", s0) ∧
  (CallDestroy ∉ trace (snd (RotatingFileHandler.setup s0))).
Proof.
  cbn zeta.
  assert (RotatingFileHandler.setup
            (initial {[ "app.log" := [] ]}
               (RotatingFileHandler.new "app.log" (Some mode_x) 100 2))
          = (Throw "AlreadyExists",
             initial {[ "app.log" := [] ]}
               (RotatingFileHandler.new "app.log" (Some mode_x) 100 2)))
    as -> by (vm_compute; reflexivity).
  split; [done|]. cbn. apply not_elem_of_nil.
Qed.

Section SetupSamples.
Import FileFacts.
Local Open Scope Z_scope.

(** A runtime that lets [Deno.stat] fail. *)
Definition no_stat (c : Call) : option string :=
  match c with
  | CallStat _ => Some "PermissionDenied"
  | _ => None
  end.

(** In append mode, when [Deno.stat] fails after the file was opened,
    the error surfaces with the file open and the listener registered;
    [destroy] is not called. *)
Example setup_leaves_file_open :
  let s0 :=
    initial_with no_stat ∅ (RotatingFileHandler.new "app.log" None 100 2) in
  let '(c, s) := RotatingFileHandler.setup s0 in
  c = Throw "PermissionDenied" ∧
  trace s = [SysOpen "app.log"] ∧
  FileObj._file (this s) = Some "app.log" ∧
  FileObj.unloadListener (this s) = true.
Proof. vm_compute. done. Qed.

End SetupSamples.

Module RotateFacts.
Import FileFacts.
Local Open Scope Z_scope.

(** The file at position [i]: the active file for 0, backup [i] else. *)
Definition position (filename : string) (i : Z) : string :=
  if i =? 0 then filename else RotatingFileHandler.backup filename i.

Lemma position_inj filename i j :
  position filename i = position filename j → i = j.
Proof.
  unfold position. destruct (Z.eqb_spec i 0), (Z.eqb_spec j 0); intros Heq.
  - lia.
  - symmetry in Heq. by apply backup_ne_filename in Heq.
  - by apply backup_ne_filename in Heq.
  - by apply backup_inj in Heq.
Qed.

Lemma position_succ filename i :
  0 ≤ i → RotatingFileHandler.backup filename (i + 1)
          = position filename (i + 1).
Proof. intros Hi. unfold position. destruct (Z.eqb_spec (i + 1) 0); [lia|done]. Qed.

(** One round of the loop of [rotateLogFiles], on the files. *)
Definition shift1 (filename : string) (i : Z)
    (files : gmap string (list Byte.byte)) : gmap string (list Byte.byte) :=
  match files !! position filename i with
  | Some c =>
      <[RotatingFileHandler.backup filename (i + 1) := c]>
        (delete (position filename i) files)
  | None => files
  end.

Definition rename_event (filename : string) (i : Z)
    (files : gmap string (list Byte.byte)) : list Event :=
  match files !! position filename i with
  | Some _ =>
      [SysRename (position filename i)
         (RotatingFileHandler.backup filename (i + 1))]
  | None => []
  end.

Fixpoint shift_all (filename : string) (l : list Z)
    (files : gmap string (list Byte.byte)) : gmap string (list Byte.byte) :=
  match l with
  | [] => files
  | i :: l' => shift_all filename l' (shift1 filename i files)
  end.

Fixpoint rename_events (filename : string) (l : list Z)
    (files : gmap string (list Byte.byte)) : list Event :=
  match l with
  | [] => []
  | i :: l' =>
      rename_event filename i files
      ++ rename_events filename l' (shift1 filename i files)
  end.

Lemma shift_backup_eq filename i s :
  quiet s →
  RotatingFileHandler.shift_backup filename i s =
  (Normal tt,
   mkSt (shift1 filename i (fs s))
        (trace s ++ rename_event filename i (fs s)) (this s) (refused s)).
Proof.
  intros Hq.
  unfold RotatingFileHandler.shift_backup, shift1, rename_event.
  fold (position filename i). unfold bind at 1. rewrite exists_eq, Hq.
  destruct s as [f t o r]. cbn [fs trace this refused] in *.
  destruct (f !! position filename i) eqn:Hf; run_m.
  - rewrite Hq. run_m. rewrite Hf. by run_m.
  - by rewrite List.app_nil_r.
Qed.

Lemma shift_loop_eq filename l s :
  quiet s →
  for_each l (RotatingFileHandler.shift_backup filename) s =
  (Normal tt,
   mkSt (shift_all filename l (fs s))
        (trace s ++ rename_events filename l (fs s)) (this s) (refused s)).
Proof.
  revert s. induction l as [|i l IH]; intros s Hq.
  - destruct s. cbn. by rewrite app_nil_r.
  - rewrite for_each_step, shift_backup_eq by done. rewrite IH by done.
    cbn. by rewrite <- List.app_assoc.
Qed.

(** The indices of the loop: [k - 1] down to [0]. *)
Lemma down_S (k : nat) :
  reverse (seqZ 0 (Z.of_nat (S k)))
  = Z.of_nat k :: reverse (seqZ 0 (Z.of_nat k)).
Proof. by rewrite seqZ_S, reverse_snoc. Qed.

Lemma shift1_lookup filename i files p :
  0 ≤ i →
  shift1 filename i files !! p =
  if decide (p = position filename i) then None
  else if decide (p = position filename (i + 1)) then
    match files !! position filename i with
    | Some c => Some c
    | None => files !! p
    end
  else files !! p.
Proof.
  intros Hi. unfold shift1. rewrite (position_succ _ _ Hi).
  assert (position filename i ≠ position filename (i + 1)) as Hne.
  { intros Heq%position_inj. lia. }
  destruct (files !! position filename i) as [c|] eqn:Hs.
  - destruct (decide (p = position filename i)) as [->|Hp].
    + rewrite lookup_insert_ne by done. apply lookup_delete_eq.
    + destruct (decide (p = position filename (i + 1))) as [->|Hp'].
      * apply lookup_insert_eq.
      * rewrite lookup_insert_ne by done. by apply lookup_delete_ne.
  - destruct (decide (p = position filename i)) as [->|Hp]; [done|].
    by destruct (decide (p = position filename (i + 1))).
Qed.

(** After the loop for [k] backups: position 0 is free, the positions
    1..k-1 hold what was one position below, position [k] holds what was
    at [k - 1], or keeps its file when there was none; nothing else
    changes. *)
Lemma shift_all_lookup filename (k : nat) files :
  let files' := shift_all filename (reverse (seqZ 0 (Z.of_nat k))) files in
  (∀ p, (∀ j, 0 ≤ j ≤ Z.of_nat k → p ≠ position filename j) →
        files' !! p = files !! p) ∧
  ((1 ≤ k)%nat → files' !! position filename 0 = None) ∧
  (∀ j, 1 ≤ j < Z.of_nat k →
        files' !! position filename j = files !! position filename (j - 1)) ∧
  ((1 ≤ k)%nat →
   files' !! position filename (Z.of_nat k) =
   match files !! position filename (Z.of_nat k - 1) with
   | Some c => Some c
   | None => files !! position filename (Z.of_nat k)
   end).
Proof.
  revert files. induction k as [|k IH]; intros files files'.
  { subst files'. cbn. split; [done|]. split; [lia|]. split; [lia|lia]. }
  subst files'. rewrite down_S. cbn [shift_all].
  set (g := shift1 filename (Z.of_nat k) files).
  destruct (IH g) as (Ha & Hb & Hc & Hd).
  assert (∀ j, 0 ≤ j → j ≠ Z.of_nat k → j ≠ Z.of_nat k + 1 →
               g !! position filename j = files !! position filename j)
    as Hg.
  { intros j Hj H1 H2. unfold g. rewrite shift1_lookup by lia.
    rewrite decide_False by (intros Heq%position_inj; lia).
    by rewrite decide_False by (intros Heq%position_inj; lia). }
  assert (g !! position filename (Z.of_nat k) = None) as Hgk.
  { unfold g. rewrite shift1_lookup by lia. by rewrite decide_True. }
  assert (g !! position filename (Z.of_nat k + 1) =
          match files !! position filename (Z.of_nat k) with
          | Some c => Some c
          | None => files !! position filename (Z.of_nat k + 1)
          end) as Hgk1.
  { unfold g. rewrite shift1_lookup by lia.
    rewrite decide_False by (intros Heq%position_inj; lia).
    by rewrite decide_True. }
  split; [|split; [|split]].
  - intros p Hp. rewrite Ha by (intros j Hj; apply Hp; lia).
    unfold g. rewrite shift1_lookup by lia.
    rewrite decide_False by (apply Hp; lia).
    rewrite decide_False; [done|].
    replace (Z.of_nat k + 1) with (Z.of_nat (S k)) by lia. apply Hp. lia.
  - intros _. destruct k as [|k].
    + cbn. apply Hgk.
    + apply Hb. lia.
  - intros j Hj. destruct (decide (j = Z.of_nat k)) as [->|Hjk].
    + rewrite Hd by lia. rewrite Hgk.
      rewrite Hg by lia.
      by destruct (files !! position filename (Z.of_nat k - 1)).
    + rewrite Hc by lia. apply Hg; lia.
  - intros _. replace (Z.of_nat (S k)) with (Z.of_nat k + 1) by lia.
    rewrite Ha; cycle 1.
    { intros j Hj Heq%position_inj. lia. }
    rewrite Hgk1. by replace (Z.of_nat k + 1 - 1) with (Z.of_nat k) by lia.
Qed.


(** ** States in which the handler holds its file open *)

Definition active (s : St) : string := FileObj._filename (this s).

(** What the active file holds, what the writer still holds, and the
    active segment: the former followed by the latter. *)
Definition disk (s : St) : list Byte.byte := default [] (fs s !! active s).
Definition pending (s : St) : list Byte.byte :=
  match FileObj._buf (this s) with
  | Some w => BufObj.buf w
  | None => []
  end.
Definition segment (s : St) : list Byte.byte := disk s ++ pending s.

(** The handler holds its file open: what [FileHandler.setup]
    establishes and [log] and [flush] keep, in a runtime that refuses
    nothing.  The writer has met no error. *)
Record writable (s : St) : Prop := mkWritable {
  writable_file : FileObj._file (this s) = Some (active s);
  writable_buf :
    FileObj._buf (this s)
    = Some {| BufObj.buf := pending s; BufObj.err := None |};
  writable_disk : is_Some (fs s !! active s);
  writable_quiet : quiet s
}.

(** The state of a rotating handler just built after a successful
    [setup], and after each call of [log] that follows, in a runtime
    that refuses nothing. *)
Record ready (s : St) : Prop := mkReady {
  ready_file : FileObj._file (this s) = Some (active s);
  ready_buf :
    FileObj._buf (this s)
    = Some {| BufObj.buf := pending s; BufObj.err := None |};
  ready_disk : is_Some (fs s !! active s);
  ready_quiet : quiet s;
  ready_count : 1 ≤ FileObj.maxBackupCount (this s);
  ready_options :
    FileObj._openOptions (this s)
    = FileHandler.openOptions_of (FileObj._mode (this s));
  ready_size :
    FileObj.currentFileSize (this s) = Z.of_nat (length (segment s))
}.

Lemma ready_writable s : ready s → writable s.
Proof. intros [Hfile Hbuf Hdisk Hq _ _ _]. by split. Qed.

(** ** The writer *)

(** The writer holds [p]. *)
Definition holding (p : list Byte.byte) (s : St) : St :=
  mkSt (fs s) (trace s)
    (FileObj.set_buf (Some {| BufObj.buf := p; BufObj.err := None |})
       (this s))
    (refused s).

(** The file has taken [data] in one write. *)
Definition wrote (data : list Byte.byte) (s : St) : St :=
  mkSt (<[active s := disk s ++ data]> (fs s))
    (trace s ++ [SysWrite (active s) data]) (this s) (refused s).

Lemma writable_holding p s :
  writable s →
  writable (holding p s) ∧ active (holding p s) = active s ∧
  pending (holding p s) = p ∧ disk (holding p s) = disk s.
Proof. intros [Hfile Hbuf Hdisk Hq]. by repeat split. Qed.

Lemma writable_wrote data s :
  writable s →
  writable (wrote data s) ∧ active (wrote data s) = active s ∧
  pending (wrote data s) = pending s ∧
  disk (wrote data s) = disk s ++ data.
Proof.
  intros [Hfile Hbuf Hdisk Hq].
  assert (disk (wrote data s) = disk s ++ data) as Hd.
  { unfold disk at 1, wrote, active. cbn. fold (active s).
    by rewrite lookup_insert_eq. }
  split; [|done]. split; try done.
  unfold wrote, active. cbn. fold (active s).
  rewrite lookup_insert_eq. by eexists.
Qed.

Lemma holding_same s : writable s → holding (pending s) s = s.
Proof.
  intros [_ Hbuf _ _]. unfold holding. destruct s as [f t o r].
  destruct o as [file buf fname mode opts ul mb mbc cur].
  cbn in *. by rewrite Hbuf.
Qed.

Lemma put_eq w s :
  BufWriterSync.put w s =
  (Normal tt,
   mkSt (fs s) (trace s) (FileObj.set_buf (Some w) (this s)) (refused s)).
Proof. reflexivity. Qed.

Lemma write_through_eq data s :
  writable s →
  BufWriterSync.write_through data s = (Normal tt, wrote data s).
Proof.
  intros [Hfile Hbuf [c Hdisk] Hq].
  unfold BufWriterSync.write_through, try_catch.
  rewrite bind_field, Hfile. unfold Deno.write. unfold bind at 1.
  rewrite attempt_eq, Hq. unfold wrote, disk. rewrite Hdisk.
  run_m. rewrite Hdisk. by run_m.
Qed.

(** The files once the writer is flushed, and the write it takes. *)
Definition flushed (s : St) : gmap string (list Byte.byte) :=
  <[active s := segment s]> (fs s).

Definition flush_events (s : St) : list Event :=
  match pending s with
  | [] => []
  | data => [SysWrite (active s) data]
  end.

Lemma flush_writable s :
  writable s →
  BufWriterSync.flush s =
  (Normal tt,
   mkSt (flushed s) (trace s ++ flush_events s)
        (FileObj.set_buf (Some BufWriterSync.new) (this s)) (refused s)).
Proof.
  intros Hw. pose proof Hw as [Hfile Hbuf [c Hdisk] Hq].
  unfold BufWriterSync.flush. unfold bind at 1.
  rewrite (writer_eq s _ Hbuf). cbn [BufObj.err BufObj.buf].
  unfold flushed, flush_events, segment, disk. rewrite Hdisk. cbn.
  destruct (pending s) as [|b p] eqn:Hp.
  - change (BufWriterSync.buffered
              {| BufObj.buf := []; BufObj.err := None |} =? 0) with true.
    cbv iota. rewrite !List.app_nil_r, insert_id by done.
    unfold ret. f_equal. destruct s as [f t o r].
    destruct o as [file buf fname mode opts ul mb mbc cur].
    cbn in *. by rewrite Hbuf.
  - destruct (buffered_cons {| BufObj.buf := b :: p; BufObj.err := None |})
      as [_ ->]; [done|].
    unfold bind at 1. rewrite (write_through_eq _ s Hw).
    unfold wrote, disk. by rewrite Hdisk.
Qed.

Lemma flush_eq s :
  ready s →
  BufWriterSync.flush s =
  (Normal tt,
   mkSt (flushed s) (trace s ++ flush_events s)
        (FileObj.set_buf (Some BufWriterSync.new) (this s)) (refused s)).
Proof. intros Hr. by apply flush_writable, ready_writable. Qed.

(** What [writeSync] does with [data] when the writer holds [p]: the
    writes to the file, in order, and what the writer holds then.  Data
    that fits in the room left stays in the writer.  Otherwise, on an
    empty writer the data goes to the file in one write; on a writer
    that holds bytes, these and the data that fills the buffer go to the
    file, and the rest stays in the writer, or goes to the file as well
    when it is larger than the buffer. *)
Definition write_plan (p data : list Byte.byte)
    : list (list Byte.byte) * list Byte.byte :=
  if Z.of_nat (length data) =? 0 then ([], p)
  else if Z.of_nat (length data)
          >? BufWriterSync.DEFAULT_BUF_SIZE - Z.of_nat (length p) then
    if Z.of_nat (length p) =? 0 then ([data], [])
    else
      let copied :=
        take (Z.to_nat (BufWriterSync.DEFAULT_BUF_SIZE - Z.of_nat (length p)))
          data in
      let rest := drop (length copied) data in
      if Z.of_nat (length rest) >? BufWriterSync.DEFAULT_BUF_SIZE
      then ([p ++ copied; rest], [])
      else ([p ++ copied], rest)
  else ([], p ++ data).

Lemma take_drop_length {A : Type} (k : nat) (l : list A) :
  take k l ++ drop (length (take k l)) l = l.
Proof.
  rewrite length_take.
  destruct (Nat.min_spec k (length l)) as [[_ ->]|[Hle ->]].
  - apply take_drop.
  - rewrite take_ge, drop_ge by lia. apply List.app_nil_r.
Qed.

Lemma write_plan_all p data :
  concat (fst (write_plan p data)) ++ snd (write_plan p data) = p ++ data.
Proof.
  unfold write_plan.
  destruct (Z.eqb_spec (Z.of_nat (length data)) 0) as [H0|H0].
  { destruct data; [|cbn in H0; lia]. cbn. by rewrite List.app_nil_r. }
  destruct (Z.of_nat (length data)
            >? BufWriterSync.DEFAULT_BUF_SIZE - Z.of_nat (length p)).
  - destruct (Z.eqb_spec (Z.of_nat (length p)) 0) as [Hp|Hp].
    { destruct p; [|cbn in Hp; lia]. cbn. by rewrite !List.app_nil_r. }
    cbn zeta.
    set (k := Z.to_nat _).
    pose proof (take_drop_length k data) as Hall.
    destruct (Z.of_nat (length (drop (length (take k data)) data))
              >? BufWriterSync.DEFAULT_BUF_SIZE); cbn;
      rewrite ?List.app_nil_r, <- List.app_assoc; by rewrite Hall.
  - done.
Qed.

(** The state that [writeSync] leaves. *)
Definition written (data : list Byte.byte) (s : St) : St :=
  let '(writes, p) := write_plan (pending s) data in
  holding p (foldl (λ s1 w, wrote w s1) s writes).

Lemma write_rounds_fits fuel data s :
  writable s →
  (Z.of_nat (length data)
   >? BufWriterSync.DEFAULT_BUF_SIZE - Z.of_nat (length (pending s))) = false →
  BufWriterSync.write_rounds fuel data s = (Normal data, s).
Proof.
  intros [_ Hbuf _ _] Hfits.
  destruct fuel; cbn [BufWriterSync.write_rounds]; unfold bind at 1;
    rewrite (writer_eq s _ Hbuf);
    unfold BufWriterSync.available, BufWriterSync.buffered;
    cbn [BufObj.buf]; by rewrite Hfits.
Qed.

Lemma write_rounds_direct fuel data s :
  writable s → pending s = [] →
  (Z.of_nat (length data) >? BufWriterSync.DEFAULT_BUF_SIZE) = true →
  BufWriterSync.write_rounds (S fuel) data s = (Normal [], wrote data s).
Proof.
  intros Hw Hp Hbig. pose proof Hw as [_ Hbuf _ _].
  cbn [BufWriterSync.write_rounds]. unfold bind at 1.
  rewrite (writer_eq s _ Hbuf).
  unfold BufWriterSync.available, BufWriterSync.buffered.
  cbn [BufObj.buf]. rewrite Hp. cbn [length].
  change (Z.of_nat 0) with 0. rewrite Z.sub_0_r, Hbig.
  change (0 =? 0) with true. cbv iota.
  unfold bind at 1. rewrite (write_through_eq data s Hw).
  destruct (writable_wrote data s Hw) as (Hw' & _ & Hp' & _).
  apply write_rounds_fits; [done|]. by rewrite Hp', Hp.
Qed.

Lemma write_rounds_fill fuel data s :
  writable s → pending s ≠ [] →
  (Z.of_nat (length data)
   >? BufWriterSync.DEFAULT_BUF_SIZE - Z.of_nat (length (pending s))) = true →
  let copied :=
    take (Z.to_nat (BufWriterSync.DEFAULT_BUF_SIZE
                    - Z.of_nat (length (pending s)))) data in
  BufWriterSync.write_rounds (S fuel) data s =
  BufWriterSync.write_rounds fuel (drop (length copied) data)
    (holding [] (wrote (pending s ++ copied) s)).
Proof.
  intros Hw Hp Hbig copied. pose proof Hw as [Hfile Hbuf [c Hdisk] Hq].
  cbn [BufWriterSync.write_rounds]. unfold bind at 1.
  rewrite (writer_eq s _ Hbuf).
  unfold BufWriterSync.copyBytes, BufWriterSync.available,
    BufWriterSync.buffered.
  cbn [BufObj.buf BufObj.err]. rewrite Hbig.
  destruct (Z.eqb_spec (Z.of_nat (length (pending s))) 0) as [H0|_].
  { destruct (pending s); [done|cbn in H0; lia]. }
  fold copied. unfold bind at 1. rewrite put_eq.
  fold (holding (pending s ++ copied) s).
  destruct (writable_holding (pending s ++ copied) s Hw)
    as (Hw1 & Hact1 & Hp1 & Hd1).
  unfold bind at 1. rewrite (flush_writable _ Hw1).
  f_equal. unfold flushed, flush_events, segment.
  rewrite Hp1, Hd1, Hact1.
  destruct (pending s ++ copied) as [|b l] eqn:Hl.
  { by destruct (pending s). }
  reflexivity.
Qed.

Lemma writeSync_eq data s :
  writable s →
  BufWriterSync.writeSync data s = (Normal tt, written data s).
Proof.
  intros Hw. pose proof Hw as [Hfile Hbuf [c Hdisk] Hq].
  assert (∀ s1 rest,
            writable s1 →
            (Z.of_nat (length rest)
             >? BufWriterSync.DEFAULT_BUF_SIZE
                - Z.of_nat (length (pending s1))) = false →
            (let! w := BufWriterSync.writer in
             BufWriterSync.put
               {| BufObj.buf := BufObj.buf w ++ BufWriterSync.copyBytes rest w;
                  BufObj.err := BufObj.err w |}) s1
            = (Normal tt, holding (pending s1 ++ rest) s1)) as Hcopy.
  { intros s1 rest [_ Hbuf1 _ _] Hfits. unfold bind at 1.
    rewrite (writer_eq s1 _ Hbuf1). rewrite put_eq.
    unfold BufWriterSync.copyBytes, BufWriterSync.available,
      BufWriterSync.buffered. cbn [BufObj.buf BufObj.err].
    rewrite take_ge; [done|].
    rewrite Z.gtb_ltb in Hfits. apply Z.ltb_ge in Hfits. lia. }
  unfold BufWriterSync.writeSync. unfold bind at 1.
  rewrite (writer_eq s _ Hbuf). cbn [BufObj.err].
  unfold written, write_plan.
  destruct (Z.of_nat (length data) =? 0) eqn:H0.
  { cbn [foldl]. by rewrite holding_same. }
  destruct (Z.of_nat (length data)
            >? BufWriterSync.DEFAULT_BUF_SIZE - Z.of_nat (length (pending s)))
    eqn:Hbig.
  - destruct (Z.eqb_spec (Z.of_nat (length (pending s))) 0) as [Hp0|Hp0].
    + (* a large write on an empty writer *)
      assert (pending s = []) as Hp
        by (destruct (pending s); [done|cbn in Hp0; lia]).
      rewrite Hp in Hbig. cbn [length] in Hbig.
      change (Z.of_nat 0) with 0 in Hbig. rewrite Z.sub_0_r in Hbig.
      unfold bind at 1. rewrite (write_rounds_direct 1 data s Hw Hp Hbig).
      destruct (writable_wrote data s Hw) as (Hw' & _ & Hp' & _).
      rewrite Hcopy by (by rewrite ?Hp', ?Hp).
      cbn [foldl]. by rewrite Hp', Hp.
    + (* the buffer is filled and flushed *)
      assert (pending s ≠ []) as Hp by (by intros Heq; rewrite Heq in Hp0).
      unfold bind at 1. rewrite (write_rounds_fill 1 data s Hw Hp Hbig).
      cbn zeta.
      set (copied := take _ data).
      set (rest := drop (length copied) data).
      set (s1 := holding [] (wrote (pending s ++ copied) s)).
      assert (writable s1 ∧ pending s1 = []) as [Hw1 Hp1].
      { destruct (writable_wrote (pending s ++ copied) s Hw) as (Hw' & _).
        destruct (writable_holding [] _ Hw') as (Hw1 & _ & Hp1 & _).
        by split. }
      destruct (Z.of_nat (length rest) >? BufWriterSync.DEFAULT_BUF_SIZE)
        eqn:Hrest.
      * rewrite (write_rounds_direct 0 rest s1 Hw1 Hp1 Hrest).
        destruct (writable_wrote rest s1 Hw1) as (Hw2 & _ & Hp2 & _).
        rewrite Hcopy by (by rewrite ?Hp2, ?Hp1).
        cbn [foldl]. by rewrite Hp2, Hp1.
      * rewrite write_rounds_fits by (by rewrite ?Hp1; cbn; rewrite ?Z.sub_0_r).
        rewrite Hcopy by (by rewrite ?Hp1; cbn; rewrite ?Z.sub_0_r).
        cbn [foldl]. by rewrite Hp1.
  - unfold bind at 1. rewrite (write_rounds_fits 2 data s Hw Hbig).
    by rewrite Hcopy.
Qed.

(** Two rounds are enough: more fuel changes nothing. *)
Lemma write_rounds_fuel (k : nat) data s :
  writable s →
  BufWriterSync.write_rounds (2 + k) data s
  = BufWriterSync.write_rounds 2 data s.
Proof.
  intros Hw.
  destruct (Z.of_nat (length data)
            >? BufWriterSync.DEFAULT_BUF_SIZE - Z.of_nat (length (pending s)))
    eqn:Hbig; [|rewrite !write_rounds_fits by done; done].
  destruct (decide (pending s = [])) as [Hp|Hp].
  - rewrite Hp in Hbig. cbn [length] in Hbig.
    change (Z.of_nat 0) with 0 in Hbig. rewrite Z.sub_0_r in Hbig.
    change (2 + k)%nat with (S (1 + k)).
    rewrite !write_rounds_direct by done. done.
  - change (2 + k)%nat with (S (1 + k)).
    rewrite (write_rounds_fill (1 + k) data s Hw Hp Hbig).
    rewrite (write_rounds_fill 1 data s Hw Hp Hbig). cbn zeta.
    set (rest := drop _ data).
    set (s1 := holding [] _).
    assert (writable s1 ∧ pending s1 = []) as [Hw1 Hp1].
    { destruct (writable_wrote
                  (pending s
                   ++ take (Z.to_nat (BufWriterSync.DEFAULT_BUF_SIZE
                                      - Z.of_nat (length (pending s)))) data)
                  s Hw) as (Hw' & _).
      destruct (writable_holding [] _ Hw') as (Hw1 & _ & Hp1 & _).
      by split. }
    destruct (Z.of_nat (length rest) >? BufWriterSync.DEFAULT_BUF_SIZE)
      eqn:Hrest.
    + change (1 + k)%nat with (S k).
      rewrite (write_rounds_direct k rest s1 Hw1 Hp1 Hrest).
      by rewrite (write_rounds_direct 0 rest s1 Hw1 Hp1 Hrest).
    + assert ((Z.of_nat (length rest)
               >? BufWriterSync.DEFAULT_BUF_SIZE
                  - Z.of_nat (length (pending s1))) = false) as Hfits
        by (by rewrite Hp1; cbn; rewrite Z.sub_0_r).
      by rewrite !write_rounds_fits.
Qed.

Lemma written_facts data s :
  writable s →
  writable (written data s) ∧ active (written data s) = active s ∧
  segment (written data s) = segment s ++ data ∧
  pending (written data s) = snd (write_plan (pending s) data) ∧
  disk (written data s) = disk s ++ concat (fst (write_plan (pending s) data)) ∧
  trace (written data s)
    = trace s ++ map (SysWrite (active s)) (fst (write_plan (pending s) data)) ∧
  fs (written data s) = <[active s := disk (written data s)]> (fs s).
Proof.
  intros Hw.
  assert (∀ writes s1,
            writable s1 →
            let s2 := foldl (λ s1 w, wrote w s1) s1 writes in
            writable s2 ∧ active s2 = active s1 ∧ pending s2 = pending s1 ∧
            disk s2 = disk s1 ++ concat writes ∧
            trace s2 = trace s1 ++ map (SysWrite (active s1)) writes ∧
            fs s2 = <[active s1 := disk s2]> (fs s1)) as Hfold.
  { induction writes as [|w writes IH]; intros s1 Hw1; cbn zeta.
    - cbn. rewrite !List.app_nil_r. do 5 (split; [done|]).
      destruct Hw1 as [_ _ [c Hc] _]. unfold disk. rewrite Hc. cbn.
      by rewrite insert_id.
    - cbn [foldl].
      destruct (writable_wrote w s1 Hw1) as (Hw2 & Hact2 & Hp2 & Hd2).
      destruct (IH _ Hw2) as (Hw3 & Hact3 & Hp3 & Hd3 & Htr3 & Hfs3).
      cbn zeta in *.
      split; [done|]. split; [congruence|]. split; [congruence|].
      split; [by rewrite Hd3, Hd2; cbn; rewrite <- List.app_assoc|].
      split.
      { rewrite Htr3, Hact2. cbn. by rewrite <- List.app_assoc. }
      rewrite Hfs3, Hact2.
      change (fs (wrote w s1)) with (<[active s1 := disk s1 ++ w]> (fs s1)).
      by rewrite insert_insert_eq. }
  unfold written.
  pose proof (write_plan_all (pending s) data) as Hall.
  destruct (write_plan (pending s) data) as [writes p]. cbn [fst snd] in *.
  destruct (Hfold writes s Hw) as (Hw2 & Hact2 & Hp2 & Hd2 & Htr2 & Hfs2).
  cbn zeta in *.
  destruct (writable_holding p _ Hw2) as (Hw3 & Hact3 & Hp3 & Hd3).
  split; [done|]. split; [congruence|].
  split.
  { unfold segment. rewrite Hp3, Hd3, Hd2, <- List.app_assoc.
    by rewrite Hall, List.app_assoc. }
  split; [done|]. split; [congruence|]. split; [done|].
  rewrite Hd3. exact Hfs2.
Qed.

(** Data that fits in the room left stays in the writer: no write to
    the file. *)
Lemma written_fits data s :
  writable s →
  Z.of_nat (length data)
    ≤ BufWriterSync.DEFAULT_BUF_SIZE - Z.of_nat (length (pending s)) →
  written data s = holding (pending s ++ data) s.
Proof.
  intros Hw Hfits. unfold written, write_plan.
  destruct (Z.eqb_spec (Z.of_nat (length data)) 0) as [H0|H0].
  { destruct data; [|cbn in H0; lia]. cbn [foldl].
    by rewrite List.app_nil_r. }
  destruct (Z.gtb_spec (Z.of_nat (length data))
              (BufWriterSync.DEFAULT_BUF_SIZE
               - Z.of_nat (length (pending s)))); [lia|done].
Qed.

(** ** [rotateLogFiles] *)

(** The state that [rotateLogFiles] leaves. *)
Definition rotation_indices (s : St) : list Z :=
  reverse (seqZ 0 (FileObj.maxBackupCount (this s))).

Definition rotated (s : St) : St :=
  {| fs := <[active s := []]>
             (shift_all (active s) (rotation_indices s) (flushed s));
     trace := trace s ++ flush_events s ++ [SysClose (active s)]
              ++ rename_events (active s) (rotation_indices s) (flushed s)
              ++ [SysOpen (active s)];
     this := FileObj.set_buf (Some BufWriterSync.new)
               (FileObj.set_file (Some (active s)) (this s));
     refused := refused s |}.

Lemma shift_all_frees_active s :
  ready s →
  shift_all (active s) (rotation_indices s) (flushed s) !! active s = None.
Proof.
  intros Hr. unfold rotation_indices.
  pose proof (ready_count _ Hr) as Hn.
  replace (FileObj.maxBackupCount (this s))
    with (Z.of_nat (Z.to_nat (FileObj.maxBackupCount (this s)))) by lia.
  destruct (shift_all_lookup (active s)
              (Z.to_nat (FileObj.maxBackupCount (this s))) (flushed s))
    as (_ & Hb & _).
  apply Hb. lia.
Qed.

(** Opening a file that does not exist creates it, in every mode. *)
Lemma open_missing (s : St) (mode : LogMode) (path : string) :
  quiet s → fs s !! path = None →
  Deno.open path (FileHandler.openOptions_of mode) s =
  (Normal path,
   mkSt (<[path := []]> (fs s)) (trace s ++ [SysOpen path]) (this s)
     (refused s)).
Proof.
  intros Hq Hf. unfold Deno.open. unfold bind at 1.
  rewrite attempt_eq, Hq. run_m. rewrite Hf.
  by destruct mode.
Qed.

Lemma rotateLogFiles_eq s :
  ready s → RotatingFileHandler.rotateLogFiles s = (Normal tt, rotated s).
Proof.
  intros Hr. pose proof (shift_all_frees_active s Hr) as Hfree.
  pose proof (ready_quiet _ Hr) as Hq.
  unfold RotatingFileHandler.rotateLogFiles.
  rewrite !bind_field.
  rewrite (bind_Normal _ _ _ _ _ (flush_eq s Hr)).
  rewrite bind_field. cbn [this FileObj._file FileObj.set_buf].
  rewrite (ready_file _ Hr).
  unfold bind at 1. unfold Deno.close, emit, modify. cbn [fs trace this].
  unfold bind at 1. rewrite shift_loop_eq by done. cbn [fs trace this refused].
  fold (active s). fold (rotation_indices s).
  rewrite (ready_options _ Hr).
  unfold bind at 1. rewrite open_missing by done.
  unfold rotated. cbn [fs trace this refused].
  unfold bind, update, modify. cbn [fs trace this refused].
  by rewrite <- !List.app_assoc.
Qed.


(** ** [log] *)

Lemma encode_newline msg :
  TextEncoder.encode (msg +:+ newline) = TextEncoder.encode msg ++ [Byte.x0a].
Proof.
  induction msg as [|c msg IH]; [done|].
  rewrite StrFacts.app_cons. cbn [TextEncoder.encode].
  by rewrite IH, List.app_assoc.
Qed.

(** [byteLength(msg) + 1] *)
Definition size_of (msg : string) : Z := TextEncoder.byteLength msg + 1.

Lemma size_of_length msg :
  size_of msg = Z.of_nat (length (TextEncoder.encode (msg +:+ newline))).
Proof.
  unfold size_of, TextEncoder.byteLength.
  rewrite encode_newline, length_app. simpl. lia.
Qed.

(** The test that starts a rotation. *)
Definition exceeds (s : St) (msg : string) : bool :=
  FileObj.currentFileSize (this s) + size_of msg >? FileObj.maxBytes (this s).

Definition reset (s : St) : St :=
  mkSt (fs s) (trace s) (FileObj.set_currentFileSize 0 (this s)) (refused s).

(** [msg] and its terminator handed to the writer, and counted. *)
Definition appended (msg : string) (s : St) : St :=
  let s1 := written (TextEncoder.encode (msg +:+ newline)) s in
  mkSt (fs s1) (trace s1)
    (FileObj.set_currentFileSize
       (FileObj.currentFileSize (this s1) + size_of msg) (this s1))
    (refused s1).

Lemma append_eq s msg :
  writable s →
  (BufWriterSync.writeSync (TextEncoder.encode (msg +:+ newline)) ;;
   let! currentFileSize := field FileObj.currentFileSize in
   update (FileObj.set_currentFileSize
             (currentFileSize + (TextEncoder.byteLength msg + 1)))) s
  = (Normal tt, appended msg s).
Proof.
  intros Hw. by rewrite (bind_Normal _ _ _ _ _ (writeSync_eq _ s Hw)).
Qed.

Lemma log_eq s msg :
  ready s →
  RotatingFileHandler.log msg s =
  (Normal tt,
   appended msg (if exceeds s msg then reset (rotated s) else s)).
Proof.
  intros Hr. unfold RotatingFileHandler.log.
  rewrite !bind_field. fold (size_of msg). fold (exceeds s msg).
  destruct (exceeds s msg).
  - unfold when. unfold bind at 1. unfold bind at 1.
    rewrite (rotateLogFiles_eq s Hr).
    unfold update, modify. fold (reset (rotated s)).
    apply append_eq. destruct Hr as [Hfile Hbuf Hdisk Hq Hcount Hopts Hsize].
    split; try done.
    unfold active. cbn. fold (active s). rewrite lookup_insert_eq.
    by eexists.
  - unfold when. unfold bind at 1. unfold ret.
    apply append_eq. by apply ready_writable.
Qed.

Lemma ready_rotated s :
  ready s →
  ready (reset (rotated s)) ∧ segment (reset (rotated s)) = [] ∧
  active (reset (rotated s)) = active s ∧
  FileObj.maxBytes (this (reset (rotated s))) = FileObj.maxBytes (this s) ∧
  FileObj.maxBackupCount (this (reset (rotated s)))
    = FileObj.maxBackupCount (this s).
Proof.
  intros [Hfile Hbuf Hdisk Hq Hcount Hopts Hsize].
  assert (segment (reset (rotated s)) = []) as Hseg.
  { unfold segment, disk, pending, active. cbn.
    fold (active s). by rewrite lookup_insert_eq. }
  split; [|done].
  split; try done.
  - unfold active. cbn. fold (active s). by rewrite lookup_insert_eq.
  - by rewrite Hseg.
Qed.

(** [writeSync] changes nothing of the handler but what its writer
    holds. *)
Lemma written_this data s :
  this (written data s)
  = FileObj.set_buf
      (Some {| BufObj.buf := snd (write_plan (pending s) data);
               BufObj.err := None |})
      (this s) ∧
  refused (written data s) = refused s.
Proof.
  unfold written.
  assert (∀ writes s1,
            this (foldl (λ s1 w, wrote w s1) s1 writes) = this s1 ∧
            refused (foldl (λ s1 w, wrote w s1) s1 writes) = refused s1)
    as Hfold.
  { induction writes as [|w writes IH]; intros s1; [done|].
    cbn [foldl]. by destruct (IH (wrote w s1)) as [-> ->]. }
  destruct (write_plan (pending s) data) as [writes p]. cbn [snd].
  destruct (Hfold writes s) as [Ht Hr]. unfold holding. cbn. by rewrite Ht.
Qed.

Lemma ready_appended s msg :
  ready s →
  ready (appended msg s) ∧
  segment (appended msg s)
    = segment s ++ TextEncoder.encode (msg +:+ newline) ∧
  active (appended msg s) = active s ∧
  FileObj.maxBytes (this (appended msg s)) = FileObj.maxBytes (this s) ∧
  FileObj.maxBackupCount (this (appended msg s))
    = FileObj.maxBackupCount (this s).
Proof.
  intros Hr. pose proof Hr as [Hfile Hbuf Hdisk Hq Hcount Hopts Hsize].
  set (line := TextEncoder.encode (msg +:+ newline)).
  destruct (written_facts line s (ready_writable s Hr))
    as ([Hf1 Hb1 Hd1 Hq1] & Hact1 & Hseg1 & _).
  destruct (written_this line s) as [Hthis1 _].
  assert (segment (appended msg s) = segment (written line s)) as Hs
    by reflexivity.
  assert (active (appended msg s) = active (written line s)) as Ha
    by reflexivity.
  assert (this (appended msg s)
          = FileObj.set_currentFileSize
              (FileObj.currentFileSize (this s) + size_of msg)
              (this (written line s))) as Ht.
  { unfold appended. fold line. cbn [this]. by rewrite Hthis1. }
  split; [|split; [by rewrite Hs|split; [by rewrite Ha|]]].
  - split.
    + by rewrite Ht, Ha.
    + rewrite Ht. exact Hb1.
    + rewrite Ha. exact Hd1.
    + exact Hq1.
    + by rewrite Ht, Hthis1.
    + by rewrite Ht, Hthis1.
    + rewrite Hs, Hseg1, length_app, Nat2Z.inj_add. unfold line.
      rewrite <- size_of_length, Ht. cbn. by rewrite Hsize.
  - by rewrite Ht, Hthis1.
Qed.


(** ** [setup] establishes [ready] *)

Lemma initial_active files filename mode maxBytes n :
  let m := default mode_a mode in
  let s0 :=
    initial files (RotatingFileHandler.new filename mode maxBytes n) in
  fs (opened s0) !! filename
  = Some (match m with
          | mode_a => default [] (files !! filename)
          | _ => []
          end).
Proof.
  intros m s0. unfold opened. cbn [fs].
  change (FileObj._filename (this s0)) with filename.
  change (fs s0) with files.
  change (FileObj._openOptions (this s0))
    with (FileHandler.openOptions_of m).
  destruct (files !! filename) eqn:Hf, m; cbn;
    by rewrite ?lookup_insert_eq.
Qed.

(** In a runtime that refuses nothing the loop of mode [x] passes, or
    throws after [destroy]. *)
Lemma refuse_loop_quiet filename (l : list Z) (s : St) :
  quiet s →
  FileObj._buf (this s) = Some BufWriterSync.new →
  (for_each l (RotatingFileHandler.refuse_backup filename) s = (Normal tt, s)
   ∧ ∀ i, i ∈ l → fs s !! RotatingFileHandler.backup filename i = None)
  ∨ ((∃ i, i ∈ l ∧
        is_Some (fs s !! RotatingFileHandler.backup filename i)) ∧
     ∃ e, for_each l (RotatingFileHandler.refuse_backup filename) s
          = (Throw e, destroyed s)).
Proof.
  intros Hq Hbuf.
  destruct (decide (Exists
      (λ i, is_Some (fs s !! RotatingFileHandler.backup filename i)) l))
    as [Hex|Hex].
  - right. apply Exists_exists in Hex as (i & Hi & Hs).
    split; [by exists i|].
    destruct (refuse_loop_cases filename l s)
      as [Hl|[(j & e & Hj & He & Hl)|(j & Hj & Hsome & Hl)]].
    + exfalso. clear Hbuf. induction l as [|j l IH]; [by apply elem_of_nil in Hi|].
      rewrite for_each_step, refuse_backup_eq, Hq in Hl.
      destruct (fs s !! RotatingFileHandler.backup filename j) eqn:Hfj.
      * destruct (then_throw FileHandler.destroy
                    ("Backup log file "
                     +:+ RotatingFileHandler.backup filename j
                     +:+ " already exists") s) as (e & s' & Heq).
        by rewrite Heq in Hl.
      * apply elem_of_cons in Hi as [->|Hi]; [|by apply IH].
        rewrite Hfj in Hs. by destruct Hs.
    + by rewrite Hq in He.
    + rewrite Hl. unfold bind.
      rewrite destroy_empty_buffer by (right; by eexists). by eexists.
  - left. assert (∀ i, i ∈ l →
                    fs s !! RotatingFileHandler.backup filename i = None)
      as Hnone.
    { intros i Hi.
      destruct (fs s !! RotatingFileHandler.backup filename i) eqn:Hfi;
        [|done].
      exfalso. apply Hex, Exists_exists. exists i. by rewrite Hfi. }
    split; [|done]. apply refuse_loop_clear. intros i Hi.
    split; [apply Hq|by apply Hnone].
Qed.

(** In a runtime that refuses nothing the loop of mode [w] removes the
    backups and nothing else. *)
Lemma remove_loop_eq filename (l : list Z) (s : St) :
  quiet s → NoDup l →
  ∃ s', for_each l (RotatingFileHandler.remove_backup filename) s
        = (Normal tt, s') ∧
        this s' = this s ∧ refused s' = refused s ∧
        fs s' = without_backups filename l (fs s).
Proof.
  intros Hq Hnd.
  destruct (remove_loop_cases filename l s Hnd)
    as [(s' & Hs & (Ht & Hr & _) & Hfs & _)
       |(i & e & s' & _ & _ & He & _)].
  - by exists s'.
  - exfalso. unfold removal_error in He. cbn zeta in He.
    rewrite !Hq in He. by destruct (fs s !! _).
Qed.

Lemma ready_intro s filename m ul mb n c :
  this s = FileObj.mk (Some filename) (Some BufWriterSync.new) filename m
             (FileHandler.openOptions_of m) ul mb n (Z.of_nat (length c)) →
  fs s !! filename = Some c → 1 ≤ n → quiet s →
  ready s ∧ active s = filename ∧
  FileObj.maxBytes (this s) = mb ∧
  FileObj.maxBackupCount (this s) = n ∧
  FileObj._mode (this s) = m.
Proof.
  intros Hthis Hfs Hn Hq.
  assert (active s = filename) as Hact by (unfold active; by rewrite Hthis).
  assert (pending s = []) as Hp by (unfold pending; by rewrite Hthis).
  split; [|by rewrite Hthis].
  split; try (by rewrite ?Hact, ?Hp, Hthis).
  - by rewrite Hact, Hfs.
  - done.
  - unfold segment, disk. rewrite Hp, Hact, Hfs, Hthis. cbn.
    by rewrite List.app_nil_r.
Qed.

Lemma setup_ready files filename (mode : option LogMode) maxBytes n s :
  RotatingFileHandler.setup
    (initial files (RotatingFileHandler.new filename mode maxBytes n))
  = (Normal tt, s) →
  ready s ∧ active s = filename ∧
  FileObj.maxBytes (this s) = maxBytes ∧
  FileObj.maxBackupCount (this s) = n ∧
  FileObj._mode (this s) = default mode_a mode.
Proof.
  intros Hsetup.
  pose proof (setup_eq files filename mode maxBytes n) as Heq.
  pose proof (initial_active files filename mode maxBytes n) as Hact.
  cbn zeta in Heq, Hact. rewrite Hsetup in Heq.
  set (s0 := initial files
               (RotatingFileHandler.new filename mode maxBytes n)) in *.
  destruct (maxBytes <? 1) eqn:Hmb; [done|].
  destruct (n <? 1) eqn:Hn; [done|]. apply Z.ltb_ge in Hn.
  assert (quiet (opened s0)) as Hq0 by (by intros c).
  assert (this (opened s0)
          = FileObj.mk (Some filename) (Some BufWriterSync.new) filename
              (default mode_a mode)
              (FileHandler.openOptions_of (default mode_a mode))
              true maxBytes n 0) as Hop by reflexivity.
  destruct (default mode_a mode) eqn:Hm.
  - (* append *)
    inversion Heq; subst s.
    apply (ready_intro _ filename mode_a true maxBytes n
             (default [] (files !! filename)));
      [|by rewrite <- Hact|done|by intros c].
    cbn [this]. unfold RotatingFileHandler.new, FileHandler.new. cbn.
    by rewrite Hm.
  - (* truncate *)
    destruct (remove_loop_eq filename (seqZ 1 n) (opened s0) Hq0
                (NoDup_seqZ 1 n))
      as (s' & Hs & Hthis & Hrf & Hfs).
    assert (s' = s) as ->.
    { destruct (files !! filename); rewrite Hs in Heq; by inversion Heq. }
    apply (ready_intro _ filename mode_w true maxBytes n []);
      [by rewrite Hthis, Hop| |done|by intros c; rewrite Hrf].
    rewrite Hfs, without_backups_kept; [by rewrite Hact|].
    intros i _ Heq'. symmetry in Heq'. by apply backup_ne_filename in Heq'.
  - (* exclusive *)
    destruct (files !! filename) eqn:Hf; [done|].
    destruct (refuse_loop_quiet filename (seqZ 1 n) (opened s0) Hq0 eq_refl)
      as [[Hl _]|[_ [e Hl]]]; rewrite Hl in Heq; [|done].
    inversion Heq; subst s.
    by apply (ready_intro _ filename mode_x true maxBytes n []).
Qed.




(** The files after a rotation. *)
Lemma rotated_files s :
  ready s →
  let f := active s in
  let n := FileObj.maxBackupCount (this s) in
  fs (rotated s) !! f = Some [] ∧
  fs (rotated s) !! RotatingFileHandler.backup f 1 = Some (segment s) ∧
  (∀ j, 2 ≤ j ≤ n →
     fs (rotated s) !! RotatingFileHandler.backup f j =
     match fs s !! RotatingFileHandler.backup f (j - 1) with
     | Some c => Some c
     | None => if j =? n then fs s !! RotatingFileHandler.backup f n
               else None
     end) ∧
  (∀ p, p ≠ f → (∀ j, 1 ≤ j ≤ n → p ≠ RotatingFileHandler.backup f j) →
     fs (rotated s) !! p = fs s !! p).
Proof.
  intros Hr f n. pose proof (ready_count _ Hr) as Hn. fold n in Hn.
  unfold rotated, rotation_indices. cbn [fs]. fold f n.
  destruct (shift_all_lookup f (Z.to_nat n) (flushed s))
    as (Ha & Hb & Hc & Hd).
  rewrite Z2Nat.id in Ha, Hc, Hd by lia.
  replace (seqZ 0 (Z.of_nat (Z.to_nat n))) with (seqZ 0 n) in *
    by (by rewrite Z2Nat.id by lia).
  set (files' := shift_all f (reverse (seqZ 0 n)) (flushed s)) in *.
  assert (∀ j, 1 ≤ j → RotatingFileHandler.backup f j = position f j)
    as Hpos.
  { intros j Hj. unfold position. by destruct (Z.eqb_spec j 0); [lia|]. }
  assert (∀ j, 1 ≤ j → flushed s !! RotatingFileHandler.backup f j
                       = fs s !! RotatingFileHandler.backup f j) as Hfl.
  { intros j Hj. unfold flushed. fold f.
    apply lookup_insert_ne. intros Heq. symmetry in Heq.
    by apply backup_ne_filename in Heq. }
  assert (flushed s !! position f 0 = Some (segment s)) as Hfl0.
  { unfold flushed, position. fold f. cbn. apply lookup_insert_eq. }
  split; [apply lookup_insert_eq|]. split; [|split].
  - rewrite lookup_insert_ne
      by (intros Heq; symmetry in Heq; by apply backup_ne_filename in Heq).
    rewrite (Hpos 1) by lia.
    destruct (decide (n = 1)) as [Hn1|Hn1].
    + rewrite <- Hn1 at 1. rewrite Hd by lia.
      replace (n - 1) with 0 by lia. by rewrite Hfl0.
    + rewrite Hc by lia. apply Hfl0.
  - intros j Hj.
    rewrite lookup_insert_ne
      by (intros Heq; symmetry in Heq; by apply backup_ne_filename in Heq).
    rewrite (Hpos j) by lia.
    destruct (Z.eqb_spec j n) as [->|Hjn].
    + rewrite Hd by lia. rewrite <- !Hpos by lia. by rewrite !Hfl by lia.
    + rewrite Hc by lia. rewrite <- Hpos by lia. rewrite Hfl by lia.
      by destruct (fs s !! _).
  - intros p Hpf Hp. rewrite lookup_insert_ne by done.
    rewrite Ha.
    + unfold flushed. fold f. by rewrite lookup_insert_ne.
    + intros j Hj. destruct (decide (j = 0)) as [->|Hj0]; [done|].
      rewrite <- Hpos by lia. apply Hp. lia.
Qed.



(** [log] keeps a ready handler ready, with the same configuration. *)
Definition same_config (s s' : St) : Prop :=
  active s' = active s ∧
  FileObj.maxBytes (this s') = FileObj.maxBytes (this s) ∧
  FileObj.maxBackupCount (this s') = FileObj.maxBackupCount (this s) ∧
  FileObj._mode (this s') = FileObj._mode (this s) ∧
  FileObj._openOptions (this s') = FileObj._openOptions (this s).

Lemma appended_config s msg : same_config s (appended msg s).
Proof.
  destruct (written_this (TextEncoder.encode (msg +:+ newline)) s)
    as [Hthis _].
  unfold same_config, active, appended. cbn [this]. by rewrite Hthis.
Qed.

Lemma same_config_trans s1 s2 s3 :
  same_config s1 s2 → same_config s2 s3 → same_config s1 s3.
Proof. unfold same_config. naive_solver congruence. Qed.

Lemma log_ready s msg :
  ready s →
  ∃ s', RotatingFileHandler.log msg s = (Normal tt, s') ∧
        ready s' ∧ same_config s s' ∧
        segment s' =
          (if exceeds s msg then [] else segment s)
          ++ TextEncoder.encode msg ++ [Byte.x0a].
Proof.
  intros Hr. eexists. split; [by apply log_eq|].
  destruct (exceeds s msg); cbv iota.
  - destruct (ready_rotated s Hr) as (Hr' & Hseg & Hact & Hmb & Hn).
    destruct (ready_appended _ msg Hr') as (Hr'' & Hseg' & Hact' & Hmb' & Hn').
    split; [exact Hr''|].
    split; [|by rewrite Hseg', Hseg, encode_newline].
    apply (same_config_trans _ (reset (rotated s))); [done|].
    apply appended_config.
  - destruct (ready_appended _ msg Hr) as (Hr'' & Hseg' & Hact' & Hmb' & Hn').
    split; [exact Hr''|]. split; [apply appended_config|].
    by rewrite Hseg', encode_newline.
Qed.


End RotateFacts.

Section Rotation.
Import FileFacts RotateFacts.
Local Open Scope Z_scope.



End Rotation.


Section RotationSamples.
Import FileFacts RotateFacts.
Local Open Scope Z_scope.

(** An active file of 15 bytes and two backups; 20 bytes per segment. *)
Definition sample_files : gmap string (list Byte.byte) :=
  {[ "app.log" := TextEncoder.encode "fifteen bytes.." ;
     "app.log.1" := TextEncoder.encode "one" ;
     "app.log.2" := TextEncoder.encode "two" ]}.

Definition sample_start : St :=
  initial sample_files
    (RotatingFileHandler.new "app.log" (Some mode_a) 20 2).

Lemma sample_setup :
  RotatingFileHandler.setup sample_start
  = (Normal tt, snd (RotatingFileHandler.setup sample_start)).
Proof. vm_compute. reflexivity. Qed.



(** The example of the specification: [maxBytes = 20], two backups;
    after two rotations the backups are 1 (the newer) and 2, and the
    segment that was active first has moved from 1 to 2. *)
Example two_rotations :
  let '(c, s) :=
    (RotatingFileHandler.setup ;;
     RotatingFileHandler.logs ["first segment"; "second segment"; "third"])
      (initial ∅ (RotatingFileHandler.new "app.log" (Some mode_w) 20 2)) in
  c = Normal tt ∧
  fs s !! "app.log" = Some [] ∧
  pending s = TextEncoder.encode ("third" +:+ newline) ∧
  fs s !! "app.log.1"
    = Some (TextEncoder.encode ("second segment" +:+ newline)) ∧
  fs s !! "app.log.2"
    = Some (TextEncoder.encode ("first segment" +:+ newline)) ∧
  fs s !! "app.log.3" = None.
Proof. vm_compute. done. Qed.

(** In append mode the active file may be larger than a segment when
    [setup] returns; the first call of [log] rotates it away. *)
Example oversized_start_is_rotated :
  let s0 :=
    initial {[ "app.log" := TextEncoder.encode "a file of more than twenty bytes" ]}
      (RotatingFileHandler.new "app.log" None 20 1) in
  let s := snd (RotatingFileHandler.setup s0) in
  let s' := snd (RotatingFileHandler.log "x" s) in
  FileObj.currentFileSize (this s) = 32 ∧
  FileObj.currentFileSize (this s') = 2 ∧
  fs s' !! "app.log.1"
    = Some (TextEncoder.encode "a file of more than twenty bytes") ∧
  segment s' = TextEncoder.encode ("x" +:+ newline).
Proof. vm_compute. done. Qed.

(** A message of 4100 bytes. *)
Definition long_message : string :=
  string_of_list_ascii (repeat "a"%char 4100).

(** A line that is larger than the buffer of the writer goes to the
    file at once; a short line after it stays in the writer. *)
Example long_line_is_written_through :
  let s0 :=
    initial ∅ (RotatingFileHandler.new "app.log" (Some mode_w) 10000 1) in
  let s := snd (RotatingFileHandler.setup s0) in
  let s1 := snd (RotatingFileHandler.log long_message s) in
  let s2 := snd (RotatingFileHandler.log "short" s1) in
  length <$> fs s1 !! "app.log" = Some 4101%nat ∧
  pending s1 = [] ∧
  length <$> fs s2 !! "app.log" = Some 4101%nat ∧
  pending s2 = TextEncoder.encode ("short" +:+ newline).
Proof. vm_compute. done. Qed.

End RotationSamples.

(** ** More on formatting (logger.ts [msgFormat], handlers.ts
    [formatCustom], util/helpers.ts [argsToString]) *)

Module FormatFacts.
Import StrFacts RegexFacts.

(** A text without an opening brace has no placeholder. *)
Lemma replace_no_brace cb s :
  Str.occurs_in "{" s = false → Regex.replace_placeholders cb s = s.
Proof.
  induction s as [|c s IH]; intros Ho; [done|].
  cbn [Str.occurs_in] in Ho. apply orb_false_elim in Ho as [Hp Ho].
  rewrite replace_unfold.
  assert (Regex.match_placeholder (String c s) = None) as ->.
  { unfold Regex.match_placeholder.
    destruct (ascii_dec c "{") as [->|Hc].
    - simpl in Hp. by destruct s.
    - destruct c as [[] [] [] [] [] [] [] []]; try done. }
  by rewrite IH.
Qed.

(** The decimal digits that [pretty] prints. *)
Lemma pretty_N_char_digit x :
  (x < 10)%N →
  Js.digit_val (pretty_N_char x) = Some x ∧
  Str.is_digit (pretty_N_char x) = true.
Proof.
  intros Hx.
  assert (x = 0 ∨ x = 1 ∨ x = 2 ∨ x = 3 ∨ x = 4 ∨ x = 5 ∨ x = 6 ∨ x = 7
          ∨ x = 8 ∨ x = 9)%N as Hc by lia.
  repeat destruct Hc as [->|Hc]; try subst x; done.
Qed.

Lemma digits_pretty_go (x : N) :
  (0 < x)%N →
  ∃ k : N, ∀ acc s,
    Js.digits Js.digit_val 10 acc (pretty_N_go x s)
    = Js.digits Js.digit_val 10
        (Some (default 0 acc * 10 ^ k + x)%N) s.
Proof.
  induction (N.lt_wf_0 x) as [x _ IH]. intros Hx.
  destruct (pretty_N_char_digit (x `mod` 10)) as [Hd _];
    [by apply N.mod_lt|].
  destruct (decide (x `div` 10 = 0)%N) as [H0|H0].
  - exists 1%N. intros acc s. rewrite pretty_N_go_step by done.
    rewrite H0, pretty_N_go_0. cbn [Js.digits]. rewrite Hd.
    do 2 f_equal. rewrite N.pow_1_r.
    pose proof (N.div_mod x 10 ltac:(done)) as Hx10. rewrite H0 in Hx10.
    unfold id. revert Hx10.
    generalize (default 0%N acc) (x `mod` 10)%N. clear. intros d r Hx. lia.
  - destruct (IH (x `div` 10)%N) as [k Hk];
      [by apply N.div_lt|by apply N.neq_0_lt_0|].
    exists (k + 1)%N. intros acc s. rewrite pretty_N_go_step by done.
    rewrite Hk. cbn [Js.digits]. rewrite Hd. do 2 f_equal.
    cbn [default]. rewrite N.pow_add_r, N.pow_1_r.
    pose proof (N.div_mod x 10 ltac:(done)) as Hx10.
    unfold id. revert Hx10.
    generalize (default 0%N acc) (10 ^ k)%N (x `div` 10)%N (x `mod` 10)%N.
    clear. intros d p q r Hx. lia.
Qed.

Lemma all_digit_pretty_go (x : N) s :
  Str.all Str.is_digit s = true →
  Str.all Str.is_digit (pretty_N_go x s) = true.
Proof.
  revert s. induction (N.lt_wf_0 x) as [x _ IH]. intros s Hs.
  destruct (decide (x = 0)%N) as [->|Hx]; [done|].
  rewrite pretty_N_go_step by lia.
  apply IH; [apply N.div_lt; lia|].
  cbn [Str.all]. rewrite Hs.
  destruct (pretty_N_char_digit (x `mod` 10)) as [_ ->];
    [by apply N.mod_lt|done].
Qed.

Lemma pretty_go_nonempty (x : N) s :
  (0 < x)%N → pretty_N_go x s ≠ "".
Proof.
  revert s. induction (N.lt_wf_0 x) as [x _ IH]. intros s Hx.
  rewrite pretty_N_go_step by done.
  destruct (decide (x `div` 10 = 0)%N) as [H0|H0].
  - by rewrite H0, pretty_N_go_0.
  - apply IH; [by apply N.div_lt|by apply N.neq_0_lt_0].
Qed.

Lemma all_digit_pretty (i : N) :
  Str.all Str.is_digit (pretty i) = true ∧ pretty i ≠ "".
Proof.
  unfold pretty, pretty_N. destruct (decide (i = 0)%N) as [->|Hi]; [done|].
  split; [by apply all_digit_pretty_go|apply pretty_go_nonempty; lia].
Qed.

Lemma digit_is_word c : Str.is_digit c = true → Str.is_word c = true.
Proof. unfold Str.is_digit, Str.is_word. intros ->. done. Qed.

Lemma all_digit_word s :
  Str.all Str.is_digit s = true → Str.all Str.is_word s = true.
Proof.
  induction s as [|c s IH]; [done|]. cbn [Str.all].
  intros [Hc Hs]%andb_prop. by rewrite (digit_is_word _ Hc), IH.
Qed.

(** On a run of decimal digits [parseInt] reads in radix 10. *)
Lemma parseInt_decimal s :
  Str.all Str.is_digit s = true →
  Js.parseInt s = Js.digits Js.digit_val 10 None s.
Proof.
  intros Hs. destruct s as [|c [|d s]]; [done| |].
  { unfold Js.parseInt. destruct c as [[] [] [] [] [] [] [] []]; done. }
  cbn [Str.all] in Hs. apply andb_prop in Hs as [_ [Hd _]%andb_prop].
  unfold Js.parseInt.
  destruct (ascii_dec d "x") as [->|Hx]; [done|].
  destruct (ascii_dec d "X") as [->|HX]; [done|].
  destruct c as [[] [] [] [] [] [] [] []]; try done;
    destruct d as [[] [] [] [] [] [] [] []]; try done.
Qed.

(** Printing an index and reading it back. *)
Lemma parseInt_pretty (i : N) : Js.parseInt (pretty i) = Some i.
Proof.
  rewrite parseInt_decimal by apply all_digit_pretty.
  unfold pretty, pretty_N. destruct (decide (i = 0)%N) as [->|Hi]; [done|].
  destruct (digits_pretty_go i) as [k Hk]; [lia|].
  rewrite Hk. cbn. done.
Qed.

(** A name that does not start with a digit is no number. *)
Lemma parseInt_name c w :
  Str.is_digit c = false → Js.parseInt (String c w) = None.
Proof.
  intros Hc.
  assert (Js.digits Js.digit_val 10 None (String c w) = None) as Hd.
  { cbn [Js.digits]. unfold Js.digit_val. by rewrite Hc. }
  unfold Js.parseInt.
  destruct (ascii_dec c "0") as [->|H0]; [done|].
  destruct c as [[] [] [] [] [] [] [] []]; try done.
Qed.

(** ** [trim] *)

Definition first_char (s : string) : option ascii :=
  match s with
  | EmptyString => None
  | String c _ => Some c
  end.

Fixpoint last_char (s : string) : option ascii :=
  match s with
  | EmptyString => None
  | String c EmptyString => Some c
  | String _ s' => last_char s'
  end.

(** No white space at either end. *)
Definition is_trimmed (s : string) : bool :=
  match first_char s with Some c => negb (Str.is_space c) | None => true end
  && match last_char s with Some c => negb (Str.is_space c) | None => true end.

Lemma trimEnd_last s :
  match last_char (Str.trimEnd s) with
  | Some c => Str.is_space c = false
  | None => True
  end.
Proof.
  induction s as [|c s IH]; [done|].
  cbn [Str.trimEnd].
  destruct (Str.trimEnd s) as [|d t] eqn:Ht.
  - destruct (Str.is_space c) eqn:Hc; [done|]. cbn. done.
  - cbn [last_char]. done.
Qed.

Lemma trimStart_first s :
  match first_char (Str.trimStart s) with
  | Some c => Str.is_space c = false
  | None => True
  end.
Proof.
  induction s as [|c s IH]; [done|].
  cbn [Str.trimStart]. destruct (Str.is_space c) eqn:Hc; [done|].
  cbn. done.
Qed.

Lemma trimStart_last s :
  Str.trimStart s = "" ∨ last_char (Str.trimStart s) = last_char s.
Proof.
  induction s as [|c s IH]; [by left|].
  cbn [Str.trimStart]. destruct (Str.is_space c) eqn:Hc; [|by right].
  destruct IH as [IH|IH]; [by left|].
  destruct s as [|d s]; [by left|]. right. by rewrite IH.
Qed.

Lemma trim_is_trimmed s : is_trimmed (Str.trim s) = true.
Proof.
  unfold is_trimmed, Str.trim.
  pose proof (trimStart_first (Str.trimEnd s)) as Hf.
  pose proof (trimEnd_last s) as Hl.
  destruct (trimStart_last (Str.trimEnd s)) as [->|Heq]; [done|].
  rewrite Heq.
  destruct (first_char _); [rewrite Hf|]; (destruct (last_char _); [by rewrite Hl|done]).
Qed.

(** White space at the end does not survive [trimEnd]. *)
Lemma trimEnd_app_space s t :
  Str.all Str.is_space t = true → Str.trimEnd (s +:+ t) = Str.trimEnd s.
Proof.
  intros Ht. induction s as [|c s IH].
  - rewrite app_nil_l. induction t as [|d t IHt]; [done|].
    cbn [Str.all] in Ht. apply andb_prop in Ht as [Hd Ht].
    cbn [Str.trimEnd]. rewrite (IHt Ht). cbn. by rewrite Hd.
  - rewrite app_cons. cbn [Str.trimEnd]. by rewrite IH.
Qed.

(** The loop of [argsToString]: every rendering is followed by a
    space. *)
Lemma join_foldl sep (x : string) (rest : list string) (acc : string) :
  foldl (λ a y, a +:+ sep +:+ y) (acc +:+ x) rest
  = acc +:+ foldl (λ a y, a +:+ sep +:+ y) x rest.
Proof.
  revert x. induction rest as [|y rest IH]; intros x; [done|].
  cbn [foldl]. rewrite <- IH. by rewrite !app_assoc.
Qed.

Lemma join_cons sep (x y : string) (rest : list string) :
  Sample.join sep (x :: y :: rest)
  = x +:+ sep +:+ Sample.join sep (y :: rest).
Proof.
  cbn [Sample.join foldl]. by rewrite <- !join_foldl.
Qed.

Lemma loop_is_join (f : value → string) (args : list value) (a : value)
    (acc : string) :
  foldl (λ result ars, result +:+ f ars +:+ " ") acc (a :: args)
  = acc +:+ Sample.join " " (map f (a :: args)) +:+ " ".
Proof.
  revert a acc. induction args as [|b args IH]; intros a acc.
  - done.
  - change (foldl (λ result ars, result +:+ f ars +:+ " ") acc
              (a :: b :: args))
      with (foldl (λ result ars, result +:+ f ars +:+ " ")
              (acc +:+ f a +:+ " ") (b :: args)).
    rewrite IH. cbn [map]. rewrite join_cons. cbn [map].
    by rewrite !app_assoc.
Qed.

End FormatFacts.

Section MoreFormatting.
Context `{Env}.
Import StrFacts RegexFacts FormatFacts.

(** X1.  A positional placeholder [{i}], [i] written in decimal, stands for
    the argument of index [i]: it is replaced by the rendering of that
    argument when there is one and it is neither [null] nor [undefined],
    and it stays as it is otherwise; the text before and the text after
    are formatted on their own, and the inserted text is not scanned for
    placeholders again. *)
Theorem msgFormat_positional (args : list value) (pre post : string)
    (i : N) :
  Logger.msgFormat (pre +:+ "{" +:+ pretty i +:+ "}" +:+ post) args =
  Logger.msgFormat pre args
  +:+ match args !! N.to_nat i with
      | Some v =>
          if Js.is_nullish v then "{" +:+ pretty i +:+ "}"
          else helpers.asString v
      | None => "{" +:+ pretty i +:+ "}"
      end
  +:+ Logger.msgFormat post args.
Proof.
  destruct (all_digit_pretty i) as [Hd Hne].
  rewrite msgFormat_hole by (by auto using all_digit_word).
  do 2 f_equal.
  unfold Logger.msgFormat_value. rewrite parseInt_pretty.
  unfold Js.index.
  destruct (args !! N.to_nat i) as [v|] eqn:Hi.
  - apply lookup_lt_Some in Hi.
    destruct (N.leb_spec i (N.of_nat (length args))) as [_|Hgt]; [|lia].
    cbn [default from_option id]. by destruct (Js.is_nullish v).
  - by destruct (i <=? N.of_nat (length args))%N.
Qed.

(** X2.  A named placeholder is resolved in the first argument when that is
    a plain object (an object literal without a property [constructor]
    of its own): a name that does not start with a digit and names a
    property whose value is neither [null] nor [undefined] is replaced
    by the rendering of that value. *)
Theorem msgFormat_named (props : list (string * value)) (rest : list value)
    (pre post : string) (c : ascii) (w : string) (v : value) :
  let name := String c w in
  let args := VObject props :: rest in
  Str.all Str.is_word name = true → Str.is_digit c = false →
  Js.assoc "constructor" props = None →
  Js.assoc name props = Some v → Js.is_nullish v = false →
  Logger.msgFormat (pre +:+ "{" +:+ name +:+ "}" +:+ post) args =
  Logger.msgFormat pre args +:+ helpers.asString v
  +:+ Logger.msgFormat post args.
Proof.
  intros name args Hw Hc Hctor Hv Hnn.
  rewrite msgFormat_hole by done.
  assert (Logger.msgFormat_value args name = v) as ->.
  { unfold Logger.msgFormat_value. unfold name at 1.
    rewrite (parseInt_name _ _ Hc).
    unfold args, Logger.msgFormat_obj, helpers.isObject, Js.get.
    rewrite Hctor. cbn. unfold Js.get. by rewrite Hv. }
  by rewrite Hnn.
Qed.

(** X3.  A text without an opening brace comes out of [msgFormat] and of
    [formatCustom] as it went in. *)
Theorem text_without_brace_unchanged (h : BaseHandler.t) (r : LogRecord.t)
    (args : list value) (s : string) :
  Str.occurs_in "{" s = false →
  Logger.msgFormat s args = s ∧ BaseHandler.formatCustom h s r = s.
Proof.
  intros Ho. split.
  - unfold Logger.msgFormat. destruct args; [done|].
    by apply replace_no_brace.
  - by apply replace_no_brace.
Qed.

(** X4.  The fields of the record are inserted as they are: the text of the
    message, the names of the level and of the logger, the category when
    there is one, and the date in the format of the handler.  What is
    inserted is not scanned for placeholders again. *)
Theorem formatCustom_record_fields (h : BaseHandler.t) (r : LogRecord.t)
    (pre post : string) :
  let fmt := λ s, BaseHandler.formatCustom h s r in
  fmt (pre +:+ "{msg}" +:+ post)
    = fmt pre +:+ LogRecord.msg r +:+ fmt post ∧
  fmt (pre +:+ "{levelName}" +:+ post)
    = fmt pre +:+ LogRecord.levelName r +:+ fmt post ∧
  fmt (pre +:+ "{loggerName}" +:+ post)
    = fmt pre +:+ LogRecord.loggerName r +:+ fmt post ∧
  fmt (pre +:+ "{category}" +:+ post)
    = fmt pre
      +:+ match LogRecord.category r with
          | Some c => c
          | None => "{category}"
          end
      +:+ fmt post ∧
  fmt (pre +:+ "{datetime}" +:+ post)
    = fmt pre
      +:+ dateAsString (BaseHandler.datetimeFormat h) (LogRecord.datetime r)
      +:+ fmt post.
Proof.
  intros fmt. unfold fmt.
  split; [|split; [|split; [|split]]].
  - by rewrite (formatCustom_hole h r pre "msg" post).
  - by rewrite (formatCustom_hole h r pre "levelName" post).
  - by rewrite (formatCustom_hole h r pre "loggerName" post).
  - rewrite (formatCustom_hole h r pre "category" post) by done.
    unfold BaseHandler.formatCustom_value, LogRecord.get. cbn.
    by destruct (LogRecord.category r).
  - by rewrite (formatCustom_hole h r pre "datetime" post).
Qed.

(** X5.  A handler built without a formatter, or with the empty string as
    formatter, formats a record as the name of its level, a space and
    its message. *)
Theorem default_format (levelName : LogLevels) (options : HandlerOptions)
    (r : LogRecord.t) :
  o_formatter options = None ∨ o_formatter options = Some (Template "") →
  BaseHandler.format (BaseHandler.new levelName options) r
  = Normal (LogRecord.levelName r +:+ " " +:+ LogRecord.msg r).
Proof.
  intros Hf.
  assert (BaseHandler.formatter (BaseHandler.new levelName options)
          = Template DEFAULT_FORMATTER) as Hd.
  { unfold BaseHandler.new. cbn. by destruct Hf as [-> | ->]. }
  unfold BaseHandler.format. rewrite Hd. f_equal.
  unfold DEFAULT_FORMATTER.
  change "{levelName} {msg}"
    with ("" +:+ "{" +:+ "levelName" +:+ "}"
          +:+ (" " +:+ "{" +:+ "msg" +:+ "}" +:+ "")).
  rewrite (formatCustom_hole _ r "" "levelName") by done.
  rewrite (formatCustom_hole _ r " " "msg" "") by done.
  rewrite (replace_no_brace _ " " eq_refl
           : BaseHandler.formatCustom _ " " r = " ").
  cbn. by rewrite app_nil_l, app_nil_r.
Qed.

(** X6.  [argsToString] is the renderings of the arguments joined by single
    spaces, trimmed. *)
Theorem argsToString_join (args : list value) :
  helpers.argsToString args
  = Str.trim (Sample.join " " (map helpers.asString args)).
Proof.
  unfold helpers.argsToString.
  destruct args as [|a [|b args]]; [done|done|].
  rewrite (loop_is_join helpers.asString (b :: args) a "").
  rewrite app_nil_l. unfold Str.trim. by rewrite trimEnd_app_space.
Qed.

(** X7.  The message of a record never starts or ends with white space. *)
Theorem argsToString_trimmed (args : list value) :
  is_trimmed (helpers.argsToString args) = true.
Proof. unfold helpers.argsToString. apply trim_is_trimmed. Qed.

End MoreFormatting.

(** ** The console handler (handlers.ts [ConsoleHandler]) *)

Module ConsoleFacts.
Import StrFacts RegexFacts SplitFacts.

(** The cases of the [switch] on the level of the record. *)
Definition painted `{Colors} (level : LogLevels) (prefix : option string)
    (msg : string) : string :=
  let fp := {| fr_prefix := prefix; fr_msg := msg |} in
  match level with
  | INFO => ConsoleHandler.coloured_prefix blue fp
  | WARNING => ConsoleHandler.coloured_prefix yellow fp
  | ERROR => red (ConsoleHandler.prefix_and_msg fp)
  | CRITICAL => bold (red (ConsoleHandler.prefix_and_msg fp))
  | _ => ""
  end.

(** With distinct numbers for the levels, the [switch] selects the case
    of the level of the record. *)
Lemma format_switch `{Env} `{Colors} (h : ConsoleHandler.t)
    (r : LogRecord.t) :
  levels_ordered →
  BaseHandler.noColor (ConsoleHandler.base h) = false →
  ConsoleHandler.format h r =
  match BaseHandler.formatAndPrefix (ConsoleHandler.base h) r with
  | Throw e => Throw e
  | Normal fp => Normal (painted (LogRecord.level r) (fr_prefix fp) (fr_msg fp))
  end.
Proof.
  intros (H1 & H2 & H3 & H4 & H5) Hnc. unfold ConsoleHandler.format.
  rewrite Hnc.
  destruct (BaseHandler.formatAndPrefix _ r) as [[p m]|e]; [|done].
  cbn [fr_prefix fr_msg]. f_equal. unfold painted.
  destruct (LogRecord.level r);
    repeat match goal with
    | |- context [(?a =? ?b)%Z] => destruct (Z.eqb_spec a b); try lia
    end; done.
Qed.

(** The split of a template of one line whose only [{msg}] is at its
    start. *)
Lemma split_msg_first fmt :
  Str.single_line fmt = true → String.prefix MSG fmt = true →
  Str.occurs_in MSG (Str.tail fmt) = false →
  BaseHandler.splitFormatter fmt
  = {| sf_prefix := Some ""; sf_msg := Some fmt |}.
Proof.
  intros Hline Hp Ho.
  destruct (splitFormatter_single_line fmt Hline (occurs_in_prefix _ _ Hp))
    as (a & b & Hfmt & Hsf & Hpb & Hob).
  rewrite Hsf. destruct a as [|c a]; [by rewrite Hfmt|].
  exfalso. rewrite Hfmt, app_cons in Ho. cbn [Str.tail] in Ho.
  assert (Str.occurs_in MSG (a +:+ b) = true) as Hin; [|congruence].
  clear -Hpb. induction a as [|d a IH].
  - rewrite app_nil_l. by apply occurs_in_prefix.
  - rewrite app_cons. cbn [Str.occurs_in]. rewrite IH. apply orb_true_r.
Qed.

(** A template without [{msg}] is not split. *)
Lemma split_no_msg fmt :
  Str.occurs_in MSG fmt = false →
  BaseHandler.splitFormatter fmt = {| sf_prefix := None; sf_msg := None |}.
Proof.
  intros Ho. unfold BaseHandler.splitFormatter.
  destruct (Regex.exec_split fmt) as [[g1 g2]|] eqn:He; [|done].
  exfalso. apply exec_split_inv in He
    as (before & after & Hs & _ & _ & _ & _ & Hsl).
  apply split_line_Some in Hsl as (_ & Hp & _).
  assert (Str.occurs_in MSG fmt = true) as Hin; [|congruence].
  rewrite Hs. clear -Hp.
  assert (∀ x y, Str.occurs_in MSG y = true
                 → Str.occurs_in MSG (x +:+ y) = true) as Happ.
  { intros x y Hy. induction x as [|d x IH]; [done|].
    rewrite app_cons. cbn [Str.occurs_in]. rewrite IH. apply orb_true_r. }
  apply Happ, Happ. apply occurs_in_prefix. by apply prefix_app_l.
Qed.

End ConsoleFacts.

Section Console.
Context `{Env} `{Colors}.
Import StrFacts RegexFacts SplitFacts ConsoleFacts.

(** X8.  With colours on, a template of one line that has text before its
    [{msg}] loses no text: the console handler splits it at its last
    [{msg}], formats the two parts on their own, and what it prints is
    the text that the base handler would print, with the part before
    that [{msg}] coloured (blue for INFO, yellow for WARNING) or the
    whole text coloured (red for ERROR, bold red for CRITICAL). *)
Theorem console_colours_keep_text (h : ConsoleHandler.t) (fmt : string)
    (r : LogRecord.t) :
  levels_ordered →
  BaseHandler.noColor (ConsoleHandler.base h) = false →
  BaseHandler.formatter (ConsoleHandler.base h) = Template fmt →
  Str.single_line fmt = true →
  Str.occurs_in "{msg}" fmt = true → String.prefix "{msg}" fmt = false →
  ∃ a b,
    fmt = a +:+ b ∧ String.prefix "{msg}" b = true ∧
    Str.occurs_in "{msg}" (Str.tail b) = false ∧
    let p := BaseHandler.formatCustom (ConsoleHandler.base h) a r in
    let m := BaseHandler.formatCustom (ConsoleHandler.base h) b r in
    BaseHandler.format (ConsoleHandler.base h) r = Normal (p +:+ m) ∧
    ConsoleHandler.format h r =
    Normal
      match LogRecord.level r with
      | INFO => match p with "" => "" | _ => blue p end +:+ m
      | WARNING => match p with "" => "" | _ => yellow p end +:+ m
      | ERROR => red (p +:+ m)
      | CRITICAL => bold (red (p +:+ m))
      | _ => ""
      end.
Proof.
  intros Hord Hnc Hf Hline Ho Hp.
  destruct (splitFormatter_single_line fmt Hline Ho)
    as (a & b & Hfmt & Hsf & Hpb & Hob).
  exists a, b. split; [done|]. split; [done|]. split; [done|].
  intros p m.
  assert (a ≠ "") as Ha.
  { intros ->. rewrite app_nil_l in Hfmt. subst b. congruence. }
  destruct (prefix_inv _ _ Hpb) as [t Hb].
  split.
  - unfold BaseHandler.format. rewrite Hf. f_equal.
    rewrite Hfmt. unfold p, m, BaseHandler.formatCustom.
    rewrite Hb. apply replace_app_brace.
  - rewrite format_switch by done.
    unfold BaseHandler.formatAndPrefix. rewrite Hf. cbn zeta. rewrite Hsf.
    cbn [sf_prefix sf_msg].
    assert (BaseHandler.truthy (Some a) = Some a) as -> by (by destruct a).
    assert (BaseHandler.truthy (Some b) = Some b) as ->
      by (rewrite Hb; done).
    fold p m. f_equal. unfold painted, ConsoleHandler.coloured_prefix,
      ConsoleHandler.prefix_and_msg. cbn [fr_prefix fr_msg].
    destruct (LogRecord.level r); try done; by destruct p.
Qed.

(** X9.  With colours on, a record below INFO is printed as an empty line:
    the [switch] of [format] has no case for DEBUG (nor for NOTSET), and
    the text stays the empty string it was initialised with. *)
Theorem console_low_levels_blank (h : ConsoleHandler.t) (r : LogRecord.t) :
  levels_ordered →
  BaseHandler.noColor (ConsoleHandler.base h) = false →
  LogRecord.level r = DEBUG ∨ LogRecord.level r = NOTSET →
  is_normal (BaseHandler.formatAndPrefix (ConsoleHandler.base h) r) →
  ConsoleHandler.format h r = Normal "" ∧
  ((BaseHandler.level (ConsoleHandler.base h)
    ≤ levelNum (LogRecord.level r))%Z →
   ConsoleHandler.handle h r =
   ({| ConsoleHandler.base := ConsoleHandler.base h;
       ConsoleHandler.console := ConsoleHandler.console h ++ [""] |},
    Normal tt)).
Proof.
  intros Hord Hnc Hr Hn.
  assert (ConsoleHandler.format h r = Normal "") as Hfmt.
  { rewrite format_switch by done.
    destruct (BaseHandler.formatAndPrefix _ r) as [fp|e]; [|done].
    by destruct Hr as [-> | ->]. }
  split; [done|]. intros Hle.
  unfold ConsoleHandler.handle, BaseHandler.handle.
  rewrite Hfmt, Hnc.
  destruct (Z.gtb_spec (BaseHandler.level (ConsoleHandler.base h))
              (levelNum (LogRecord.level r))); [lia|done].
Qed.

(** X10.  With colours on, at ERROR and CRITICAL the prefix is concatenated
    without a test.  When there is none (the formatter is a function, the
    template starts with its only [{msg}], or the template has no
    [{msg}]), the text printed starts with the word [undefined]. *)
Theorem console_error_without_prefix (h : ConsoleHandler.t)
    (r : LogRecord.t) :
  levels_ordered →
  BaseHandler.noColor (ConsoleHandler.base h) = false →
  LogRecord.level r = ERROR ∨ LogRecord.level r = CRITICAL →
  let paint := λ s,
    match LogRecord.level r with
    | CRITICAL => bold (red s)
    | _ => red s
    end in
  (∀ f text,
     BaseHandler.formatter (ConsoleHandler.base h) = Callback f →
     f r = Normal text →
     ConsoleHandler.format h r = Normal (paint ("undefined" +:+ text))) ∧
  (∀ fmt,
     BaseHandler.formatter (ConsoleHandler.base h) = Template fmt →
     Str.single_line fmt = true → String.prefix "{msg}" fmt = true →
     Str.occurs_in "{msg}" (Str.tail fmt) = false →
     ConsoleHandler.format h r =
     Normal (paint ("undefined"
                    +:+ BaseHandler.formatCustom (ConsoleHandler.base h)
                          fmt r))) ∧
  (∀ fmt,
     BaseHandler.formatter (ConsoleHandler.base h) = Template fmt →
     Str.occurs_in "{msg}" fmt = false →
     ConsoleHandler.format h r = Normal (paint "undefined")).
Proof.
  intros Hord Hnc Hr paint.
  split; [|split].
  - intros f text Hf Hcall. rewrite format_switch by done.
    unfold BaseHandler.formatAndPrefix. rewrite Hf, Hcall.
    unfold paint. by destruct Hr as [-> | ->].
  - intros fmt Hf Hline Hp Ho. rewrite format_switch by done.
    unfold BaseHandler.formatAndPrefix. rewrite Hf. cbn zeta.
    rewrite (split_msg_first fmt Hline Hp Ho). cbn [sf_prefix sf_msg].
    assert (BaseHandler.truthy (Some fmt) = Some fmt) as ->.
    { destruct (prefix_inv _ _ Hp) as [t ->]. done. }
    unfold paint. by destruct Hr as [-> | ->].
  - intros fmt Hf Ho. rewrite format_switch by done.
    unfold BaseHandler.formatAndPrefix. rewrite Hf. cbn zeta.
    rewrite (split_no_msg fmt Ho). cbn [sf_prefix sf_msg].
    unfold paint. by destruct Hr as [-> | ->].
Qed.

End Console.

(** ** What a log call returns (logger.ts) *)

Section Results.
Context `{Env} {T : Type} `{Handler T}.

(** [this.#returnResult ? stripColor(text) : undefined] *)
Definition result_of (lg : Logger.t T) (text : string) : option string :=
  if Logger.returnResult lg then Some (stripColor text) else None.

(** A completion that is normal has the given value. *)
Definition returns (c : Completion (option string)) (v : option string)
    : Prop :=
  match c with
  | Normal v' => v' = v
  | Throw _ => True
  end.

(** X11.  What a log call returns does not depend on the gate: when the call
    returns, whether the record was handed to the handlers or not, the
    result is the text of the message without its colour codes if the
    logger has [returnResult] set, and [undefined] if not.  The text is
    [argsToString(args)] for the plain calls and [msgFormat(format, args)]
    for the format calls, of a logger and of a category logger. *)
Theorem result_independent_of_gate (lg : Logger.t T) (category : string)
    (now : Z) (R : LogLevels) (format : string) (args : list value) :
  let cat := LoggerCategory.mk category lg in
  returns (snd (Logger._log lg now R args))
    (result_of lg (helpers.argsToString args)) ∧
  returns (snd (Logger._logFormat lg now R format args))
    (result_of lg (Logger.msgFormat format args)) ∧
  returns (snd (LoggerCategory._log cat now R args))
    (result_of lg (helpers.argsToString args)) ∧
  returns (snd (LoggerCategory._logFormat cat now R format args))
    (result_of lg (Logger.msgFormat format args)).
Proof.
  intros cat. unfold result_of.
  split; [|split; [|split]].
  - unfold Logger._log.
    destruct (levelNum (Logger.level lg) >? levelNum R)%Z; [done|].
    by destruct (forEach _ _) as [hs [[]|e]].
  - unfold Logger._logFormat.
    destruct (levelNum (Logger.level lg) >? levelNum R)%Z; [done|].
    by destruct (forEach _ _) as [hs [[]|e]].
  - unfold LoggerCategory._log. cbn [LoggerCategory.logger cat].
    destruct (levelNum (Logger.level lg) >? levelNum R)%Z; [done|].
    by destruct (forEach _ _) as [hs [[]|e]].
  - unfold LoggerCategory._logFormat. cbn [LoggerCategory.logger cat].
    destruct (levelNum (Logger.level lg) >? levelNum R)%Z; [done|].
    by destruct (forEach _ _) as [hs [[]|e]].
Qed.

End Results.

(** ** The registry of loggers (mod.ts [getLogger]) *)

Section Registry.
Context `{Env} {T : Type} `{Handler T}.

(** X12.  [getLogger(name)] for a name that is not empty: the logger of that
    name is returned; when there is none, a logger of level NOTSET
    without handlers is made, registered under the name and returned.
    The loggers of the other names stay as they are, a second call
    returns the same logger and changes nothing, and
    [createCategoryLogger] wraps that logger with the category, which is
    [default] when none is given. *)
Theorem getLogger_registers_once (loggers : gmap string (Logger.t T))
    (name : string) (category : option string) :
  name ≠ "" →
  ∃ lg loggers',
    Mod.getLogger (Some name) loggers = (Normal lg, loggers') ∧
    lg = default (Logger.mk NOTSET [] false name) (loggers !! name) ∧
    loggers' = <[name := lg]> loggers ∧
    (is_Some (loggers !! name) → loggers' = loggers) ∧
    Mod.getLogger (Some name) loggers' = (Normal lg, loggers') ∧
    Mod.createCategoryLogger category (Some name) loggers
    = (Normal (LoggerCategory.mk (default "default" category) lg), loggers').
Proof.
  intros Hne.
  assert (BaseHandler.truthy (Some name) = Some name) as Ht
    by (by destruct name).
  assert (∀ (m : gmap string (Logger.t T)) lg, m !! name = Some lg →
            Mod.getLogger (Some name) m = (Normal lg, m)) as Hknown.
  { intros m lg Hm. unfold Mod.getLogger. rewrite Ht.
    unfold bind, gets. by rewrite Hm. }
  destruct (loggers !! name) as [known|] eqn:Hl.
  - exists known, loggers.
    split; [by apply Hknown|]. split; [done|].
    split; [by rewrite insert_id|]. split; [done|].
    split; [by apply Hknown|].
    unfold Mod.createCategoryLogger, bind. by rewrite (Hknown _ _ Hl).
  - eexists _, _.
    assert (Mod.getLogger (Some name) loggers
            = (Normal (Logger.mk NOTSET [] false name),
               <[name := Logger.mk NOTSET [] false name]> loggers)) as Hnew.
    { unfold Mod.getLogger. rewrite Ht. unfold bind, gets. by rewrite Hl. }
    split; [exact Hnew|]. split; [done|]. split; [done|].
    split; [by intros [? ?]|].
    split; [apply Hknown; by rewrite lookup_insert_eq|].
    unfold Mod.createCategoryLogger, bind. by rewrite Hnew.
Qed.

(** X13.  Without a name, or with the empty name, [getLogger] returns the
    logger registered as [default] and throws when there is none; it
    never registers a logger. *)
Theorem getLogger_without_name (loggers : gmap string (Logger.t T))
    (name : option string) :
  name = None ∨ name = Some "" →
  Mod.getLogger name loggers =
  (match loggers !! "default" with
   | Some d => Normal d
   | None => Throw Mod.default_required
   end, loggers).
Proof.
  intros [-> | ->]; unfold Mod.getLogger; cbn [BaseHandler.truthy];
    unfold bind, gets; by destruct (loggers !! "default").
Qed.

(** X14.  A logger obtained under a name that is not registered accepts the
    records of every level and drops them: no handler is there to take
    them, and the call returns [undefined]. *)
Theorem unregistered_logger_drops_records (loggers : gmap string (Logger.t T))
    (name : string) (now : Z) (R : LogLevels) (format : string)
    (args : list value) :
  levels_ordered → name ≠ "" → loggers !! name = None →
  ∃ lg loggers',
    Mod.getLogger (Some name) loggers = (Normal lg, loggers') ∧
    Logger.handlers lg = [] ∧
    Logger._log lg now R args = (lg, Normal None) ∧
    Logger._logFormat lg now R format args = (lg, Normal None).
Proof.
  intros Hord Hne Hl.
  assert (BaseHandler.truthy (Some name) = Some name) as Ht
    by (by destruct name).
  eexists _, _. split.
  { unfold Mod.getLogger. rewrite Ht. unfold bind, gets. rewrite Hl.
    reflexivity. }
  assert ((levelNum NOTSET >? levelNum R)%Z = false) as Hg.
  { apply (gate_passes NOTSET R Hord). cbn. lia. }
  split; [done|].
  unfold Logger._log, Logger._logFormat. cbn. by rewrite Hg.
Qed.

End Registry.

(** ** More on the file handlers (handlers.ts [FileHandler],
    [RotatingFileHandler]) *)

Module FileMoreFacts.
Import FileFacts RotateFacts.
Local Open Scope Z_scope.

(** The state once the writer is flushed. *)
Definition flushed_state (s : St) : St :=
  mkSt (flushed s) (trace s ++ flush_events s)
       (FileObj.set_buf (Some BufWriterSync.new) (this s)) (refused s).

(** [flush] of the handler, which tests the writer first, does what
    [flush] of the writer does. *)
Lemma FileHandler_flush_eq s :
  writable s → FileHandler.flush s = (Normal tt, flushed_state s).
Proof.
  intros Hw. pose proof Hw as [Hfile Hbuf [c Hdisk] Hq].
  unfold FileHandler.flush. rewrite bind_field, Hbuf.
  destruct (pending s) as [|b p] eqn:Hp.
  - rewrite buffered_nil by done. unfold when, ret. f_equal.
    unfold flushed_state, flushed, flush_events, segment, disk.
    rewrite Hp, Hdisk. cbn. rewrite !List.app_nil_r, insert_id by done.
    destruct s as [f t o r].
    destruct o as [file buf fname mode opts ul mb mbc cur].
    cbn in *. by rewrite Hbuf.
  - destruct (buffered_cons {| BufObj.buf := b :: p; BufObj.err := None |})
      as [-> _]; [done|].
    unfold when. by apply flush_writable.
Qed.

Lemma flushed_state_facts s :
  writable s →
  writable (flushed_state s) ∧ active (flushed_state s) = active s ∧
  pending (flushed_state s) = [] ∧ disk (flushed_state s) = segment s ∧
  segment (flushed_state s) = segment s.
Proof.
  intros [Hfile Hbuf Hdisk Hq].
  assert (disk (flushed_state s) = segment s) as Hd.
  { unfold disk, flushed_state, flushed, active. cbn.
    fold (active s). by rewrite lookup_insert_eq. }
  split; [|split; [done|split; [done|split; [done|]]]].
  - split; [done|done| |done].
    unfold flushed_state, flushed, active. cbn. fold (active s).
    rewrite lookup_insert_eq. by eexists.
  - unfold segment at 1. rewrite Hd. unfold pending. cbn.
    by rewrite List.app_nil_r.
Qed.

Lemma ready_flushed_state s : ready s → ready (flushed_state s).
Proof.
  intros Hr.
  destruct (flushed_state_facts s (ready_writable s Hr))
    as ([Hf Hb Hd Hq] & Hact & _ & _ & Hseg).
  destruct Hr as [Hfile Hbuf Hdisk Hq' Hcount Hopts Hsize].
  split; try done. by rewrite Hseg.
Qed.

(** What [destroy] leaves of a handler that holds its file open. *)
Definition closed_state (s : St) : St :=
  mkSt (flushed s)
       (trace s ++ [CallDestroy] ++ flush_events s ++ [SysClose (active s)])
       (FileObj.set_unloadListener false
          (FileObj.set_file None
             (FileObj.set_buf (Some BufWriterSync.new) (this s))))
       (refused s).

Lemma destroy_eq s :
  writable s → FileHandler.destroy s = (Normal tt, closed_state s).
Proof.
  intros Hw. pose proof Hw as [Hfile Hbuf Hdisk Hq].
  unfold FileHandler.destroy. unfold bind at 1.
  unfold emit at 1, modify.
  set (s1 := mkSt (fs s) (trace s ++ [CallDestroy]) (this s) (refused s)).
  assert (writable s1) as Hw1 by (by split).
  unfold bind at 1. rewrite (FileHandler_flush_eq s1 Hw1).
  rewrite bind_field.
  change (FileObj._file (this (flushed_state s1)))
    with (FileObj._file (this s)).
  rewrite Hfile. unfold closed_state.
  unfold bind, Deno.close, emit, update, modify.
  cbn [fs trace this refused flushed_state].
  change (flushed s1) with (flushed s).
  change (flush_events s1) with (flush_events s).
  change (trace s1) with (trace s ++ [CallDestroy]).
  change (this s1) with (this s). change (refused s1) with (refused s).
  by rewrite <- !List.app_assoc.
Qed.

(** [log] of the plain file handler hands the line to the writer. *)
Lemma FileHandler_log_eq msg s :
  writable s →
  FileHandler.log msg s
  = (Normal tt, written (TextEncoder.encode (msg +:+ newline)) s).
Proof. intros Hw. by apply writeSync_eq. Qed.

(** The lines of a run of messages. *)
Definition lines (msgs : list string) : list Byte.byte :=
  concat (map (λ m, TextEncoder.encode m ++ [Byte.x0a]) msgs).

Lemma FileHandler_logs msgs s :
  writable s →
  ∃ s', for_each msgs FileHandler.log s = (Normal tt, s') ∧
        writable s' ∧ active s' = active s ∧
        fs s' = <[active s := disk s']> (fs s) ∧
        segment s' = segment s ++ lines msgs.
Proof.
  revert s. induction msgs as [|msg msgs IH]; intros s Hw.
  - exists s. split; [done|]. split; [done|]. split; [done|].
    unfold lines. cbn. rewrite List.app_nil_r. split; [|done].
    destruct Hw as [_ _ [c Hc] _]. unfold disk. rewrite Hc. cbn.
    by rewrite insert_id.
  - destruct (written_facts (TextEncoder.encode (msg +:+ newline)) s Hw)
      as (Hw1 & Hact1 & Hseg1 & _ & _ & _ & Hfs1).
    destruct (IH _ Hw1) as (s' & Hrun & Hw' & Hact' & Hfs' & Hseg').
    exists s'. split.
    { rewrite for_each_step. by rewrite (FileHandler_log_eq msg s Hw). }
    split; [done|]. split; [congruence|]. split.
    { rewrite Hfs', Hact1, Hfs1. by rewrite insert_insert_eq. }
    rewrite Hseg', Hseg1, encode_newline. unfold lines. cbn [map concat].
    by rewrite <- !List.app_assoc.
Qed.

(** The backups are numbered without a gap. *)
Definition contiguous (filename : string) (n : Z)
    (files : gmap string (list Byte.byte)) : Prop :=
  ∀ j, 2 ≤ j ≤ n →
    is_Some (files !! RotatingFileHandler.backup filename j) →
    is_Some (files !! RotatingFileHandler.backup filename (j - 1)).

Lemma rotated_contiguous s :
  ready s →
  contiguous (active s) (FileObj.maxBackupCount (this s)) (fs s) →
  contiguous (active s) (FileObj.maxBackupCount (this s)) (fs (rotated s)).
Proof.
  intros Hr Hc. destruct (rotated_files s Hr) as (_ & H1 & Hj & _).
  cbn zeta in *. intros j Hjn Hsome.
  destruct (decide (j = 2)) as [->|Hj2];
    [change (2 - 1) with 1; by rewrite H1|].
  rewrite Hj by lia. rewrite Hj in Hsome by lia.
  destruct (fs s !! RotatingFileHandler.backup (active s) (j - 1))
    as [c|] eqn:Hprev.
  - destruct (Hc (j - 1)) as [c' Hc']; [lia|by rewrite Hprev|].
    rewrite Hc'. by eexists.
  - exfalso. destruct (Z.eqb_spec j (FileObj.maxBackupCount (this s)))
      as [->|Hne]; [|by destruct Hsome].
    destruct (Hc (FileObj.maxBackupCount (this s))) as [c' Hc'];
      [lia|done|]. congruence.
Qed.

(** [log] changes no backup unless it rotates. *)
Lemma appended_backup s msg i :
  ready s →
  fs (appended msg s) !! RotatingFileHandler.backup (active s) i
  = fs s !! RotatingFileHandler.backup (active s) i.
Proof.
  intros Hr.
  destruct (written_facts (TextEncoder.encode (msg +:+ newline)) s
              (ready_writable s Hr)) as (_ & _ & _ & _ & _ & _ & Hfs).
  change (fs (appended msg s))
    with (fs (written (TextEncoder.encode (msg +:+ newline)) s)).
  rewrite Hfs. apply lookup_insert_ne. intros Heq. symmetry in Heq.
  by apply backup_ne_filename in Heq.
Qed.

Lemma contiguous_ext filename n files files' :
  (∀ i, files' !! RotatingFileHandler.backup filename i
        = files !! RotatingFileHandler.backup filename i) →
  contiguous filename n files → contiguous filename n files'.
Proof. intros Hsame Hc j Hj. rewrite !Hsame. by apply Hc. Qed.

Lemma log_contiguous s msg s' :
  ready s →
  contiguous (active s) (FileObj.maxBackupCount (this s)) (fs s) →
  RotatingFileHandler.log msg s = (Normal tt, s') →
  contiguous (active s') (FileObj.maxBackupCount (this s')) (fs s').
Proof.
  intros Hr Hc Hlog.
  destruct (log_ready s msg Hr) as (s'' & Hlog' & _ & (Hact & _ & Hn & _) & _).
  rewrite Hlog in Hlog'. injection Hlog' as <-. rewrite Hact, Hn.
  rewrite (log_eq s msg Hr) in Hlog. injection Hlog as <-.
  destruct (exceeds s msg).
  - destruct (ready_rotated s Hr) as (Hr1 & _ & Hact1 & _ & Hn1).
    apply (contiguous_ext _ _ (fs (rotated s))).
    + intros i. rewrite <- Hact1.
      by rewrite (appended_backup (reset (rotated s)) msg i Hr1).
    + by apply rotated_contiguous.
  - apply (contiguous_ext _ _ (fs s)); [|done].
    intros i. by apply appended_backup.
Qed.

End FileMoreFacts.

Section FileHandlers.
Context `{Env}.
Import FileFacts RotateFacts FileMoreFacts.
Local Open Scope Z_scope.

(** X15.  The plain file handler from end to end: [setup], a run of [log]
    calls and [destroy] return, and leave the file with what it held
    before (in append mode; nothing in the other modes) followed by one
    line per message, in the order of the calls; no other file is
    changed, the file is closed and the listener removed.  In mode [x]
    this needs the file not to exist. *)
Theorem file_handler_writes_lines
    (files : gmap string (list Byte.byte)) (filename : string)
    (mode : option LogMode) (msgs : list string) :
  let m := default mode_a mode in
  let old :=
    match m with
    | mode_a => default [] (files !! filename)
    | _ => []
    end in
  (m = mode_x → files !! filename = None) →
  ∃ s,
    (FileHandler.setup ;;
     for_each msgs FileHandler.log ;;
     FileHandler.destroy)
      (initial files (FileHandler.new filename mode)) = (Normal tt, s) ∧
    fs s = <[filename := old ++ lines msgs]> files ∧
    FileObj._file (this s) = None ∧
    FileObj.unloadListener (this s) = false ∧
    pending s = [].
Proof.
  intros m old Hx.
  set (s0 := initial files (FileHandler.new filename mode)).
  assert (quiet s0) as Hq0 by (by intros c).
  assert (FileHandler.setup s0 = (Normal tt, opened s0)) as Hsetup.
  { rewrite (FileHandler_setup_result s0 Hq0 eq_refl).
    change (FileObj._filename (this s0)) with filename.
    change (FileObj._mode (this s0)) with m.
    change (fs s0) with files.
    destruct m eqn:Hm; try by destruct (files !! filename).
    by rewrite Hx. }
  assert (fs (opened s0) = <[filename := old]> files) as Hfs.
  { unfold opened. cbn [fs].
    change (FileObj._filename (this s0)) with filename.
    change (fs s0) with files.
    change (FileObj._openOptions (this s0))
      with (FileHandler.openOptions_of m).
    unfold old.
    destruct (files !! filename) as [c|] eqn:Hf, m; cbn; try done.
    by rewrite insert_id. }
  assert (writable (opened s0)) as Hw.
  { split; [done|done| |done].
    change (active (opened s0)) with filename.
    rewrite Hfs, lookup_insert_eq. by eexists. }
  assert (segment (opened s0) = old) as Hseg0.
  { unfold segment, disk. change (active (opened s0)) with filename.
    rewrite Hfs, lookup_insert_eq. cbn. apply List.app_nil_r. }
  destruct (FileHandler_logs msgs _ Hw)
    as (s1 & Hlogs & Hw1 & Hact1 & Hfs1 & Hseg1).
  exists (closed_state s1). split.
  { rewrite (bind_Normal _ _ _ _ _ Hsetup).
    rewrite (bind_Normal _ _ _ _ _ Hlogs). by apply destroy_eq. }
  split; [|done].
  cbn [fs closed_state]. unfold flushed.
  rewrite Hseg1, Hseg0, Hact1, Hfs1. change (active (opened s0)) with filename.
  by rewrite Hfs, !insert_insert_eq.
Qed.

(** X16.  [destroy] on a handler that holds its file open: the bytes still in
    the writer go to the file, which then holds the whole segment; the
    file is closed and the listener removed; no other file changes.  A
    second [destroy] writes nothing and closes nothing. *)
Theorem destroy_flushes_and_closes (s : St) :
  writable s →
  ∃ s1 s2,
    FileHandler.destroy s = (Normal tt, s1) ∧
    fs s1 = <[active s := segment s]> (fs s) ∧
    trace s1 =
      trace s ++ [CallDestroy] ++ flush_events s ++ [SysClose (active s)] ∧
    FileObj._file (this s1) = None ∧
    FileObj.unloadListener (this s1) = false ∧
    pending s1 = [] ∧
    FileHandler.destroy s1 = (Normal tt, s2) ∧
    fs s2 = fs s1 ∧ this s2 = this s1 ∧
    trace s2 = trace s1 ++ [CallDestroy].
Proof.
  intros Hw. exists (closed_state s), (destroyed (closed_state s)).
  split; [by apply destroy_eq|].
  do 5 (split; [done|]).
  split; [apply destroy_empty_buffer; right; by eexists|].
  split; [done|]. split; [done|].
  unfold destroyed. cbn. by rewrite ?List.app_nil_r.
Qed.

(** X17.  [handle] of the file handlers, for a template formatter and a
    record that passes the gate of the handler: the text goes through
    [log] of the class.  For a record above ERROR (that is, CRITICAL) the
    writer is flushed at once, so that the file holds the whole segment
    and nothing is pending.  For the other levels [handle] adds no flush
    of its own: it leaves the state that [log] leaves.  So, when [log]
    does not rotate, a line that fits in the room left in the writer
    stays there and the files are as they were; a line that does not fit
    is written by the writer itself. *)
Theorem handle_flushes_above_error
    (base : BaseHandler.t) (fmt : string) (r : LogRecord.t)
    (log : string → M St unit) (s : St) :
  levels_ordered →
  BaseHandler.formatter base = Template fmt →
  (BaseHandler.level base ≤ levelNum (LogRecord.level r)) →
  (log = FileHandler.log ∧ writable s) ∨
  (log = RotatingFileHandler.log ∧ ready s) →
  let text :=
    if BaseHandler.noColor base
    then stripColor (BaseHandler.formatCustom base fmt r)
    else BaseHandler.formatCustom base fmt r in
  let line := TextEncoder.encode text ++ [Byte.x0a] in
  ∃ s1 s',
    log text s = (Normal tt, s1) ∧ writable s1 ∧
    FileHandling.handle base log r s = (Normal tt, s') ∧
    match LogRecord.level r with
    | CRITICAL =>
        fs s' = <[active s1 := segment s1]> (fs s1) ∧
        pending s' = [] ∧ disk s' = segment s1 ∧
        FileObj.currentFileSize (this s')
          = FileObj.currentFileSize (this s1)
    | _ => s' = s1
    end ∧
    (log = FileHandler.log ∨ exceeds s text = false →
     (Z.of_nat (length line)
        ≤ BufWriterSync.DEFAULT_BUF_SIZE - Z.of_nat (length (pending s)) →
      fs s1 = fs s ∧ trace s1 = trace s ∧ pending s1 = pending s ++ line) ∧
     (BufWriterSync.DEFAULT_BUF_SIZE - Z.of_nat (length (pending s))
        < Z.of_nat (length line) →
      disk s ++ pending s `prefix_of` disk s1)).
Proof.
  intros Hord Hf Hle Hlog text line.
  assert (writable s) as Hw.
  { destruct Hlog as [[_ Hw]|[_ Hr]]; [done|by apply ready_writable]. }
  assert (∃ s1, log text s = (Normal tt, s1) ∧ writable s1 ∧
                active s1 = active s) as (s1 & Hs1 & Hw1 & Hact1).
  { destruct Hlog as [[-> _]|[-> Hr]].
    - exists (written (TextEncoder.encode (text +:+ newline)) s).
      split; [by apply FileHandler_log_eq|].
      split; by apply written_facts.
    - destruct (log_ready s text Hr) as (s1 & Hl & Hr1 & (Ha & _) & _).
      exists s1. split; [done|]. split; [by apply ready_writable|done]. }
  assert (log = FileHandler.log ∨ exceeds s text = false →
          fs s1 = fs (written (TextEncoder.encode (text +:+ newline)) s)
          ∧ trace s1
            = trace (written (TextEncoder.encode (text +:+ newline)) s)
          ∧ pending s1
            = pending (written (TextEncoder.encode (text +:+ newline)) s))
    as Hwhere.
  { assert (log = FileHandler.log →
            s1 = written (TextEncoder.encode (text +:+ newline)) s) as Hplain.
    { intros Heq. rewrite Heq, (FileHandler_log_eq text s Hw) in Hs1.
      by injection Hs1. }
    intros [Heq|Hex]; [by rewrite (Hplain Heq)|].
    destruct Hlog as [[Heq _]|[Heq Hr]]; [by rewrite (Hplain Heq)|].
    rewrite Heq, (log_eq s text Hr), Hex in Hs1. by injection Hs1 as <-. }
  assert (FileHandling.super_handle base log r s = (Normal tt, s1)) as Hsuper.
  { unfold FileHandling.super_handle, BaseHandler.handle.
    destruct (Z.gtb_spec (BaseHandler.level base)
                (levelNum (LogRecord.level r))) as [Hgt|_]; [lia|].
    unfold BaseHandler.format. rewrite Hf. fold text. by rewrite Hs1. }
  pose proof (FileHandler_flush_eq s1 Hw1) as Hflush.
  destruct (flushed_state_facts s1 Hw1) as (_ & _ & Hp & Hd & _).
  destruct Hord as (H1 & H2 & H3 & H4 & H5).
  assert (log = FileHandler.log ∨ exceeds s text = false →
          (Z.of_nat (length line)
             ≤ BufWriterSync.DEFAULT_BUF_SIZE - Z.of_nat (length (pending s)) →
           fs s1 = fs s ∧ trace s1 = trace s ∧ pending s1 = pending s ++ line) ∧
          (BufWriterSync.DEFAULT_BUF_SIZE - Z.of_nat (length (pending s))
             < Z.of_nat (length line) →
           disk s ++ pending s `prefix_of` disk s1)) as Hline.
  { intros Hcase. destruct (Hwhere Hcase) as (Hfs & Htr & Hpend).
    subst line. rewrite <- encode_newline.
    set (data := TextEncoder.encode (text +:+ newline)) in *.
    split.
    - intros Hfits. rewrite Hfs, Htr, Hpend.
      by rewrite (written_fits data s Hw Hfits).
    - intros Hbig.
      destruct (written_facts data s Hw) as (_ & Hact & _ & _ & Hdisk & _ & Hfs').
      assert (disk s1 = disk (written data s)) as ->.
      { unfold disk. by rewrite Hfs, Hact1, Hact. }
      rewrite Hdisk. unfold write_plan.
      destruct (Z.eqb_spec (Z.of_nat (length data)) 0) as [H0|H0].
      { pose proof (Zle_0_nat (length (pending s))).
        unfold BufWriterSync.DEFAULT_BUF_SIZE in *.
        destruct (pending s) eqn:Hp0; cbn in *; [lia|].
        exfalso. destruct Hw as [_ _ _ _].
        assert (length data = 0%nat) as Hd0 by lia.
        subst data. rewrite encode_newline, length_app in Hd0.
        cbn in Hd0. lia. }
      destruct (Z.gtb_spec (Z.of_nat (length data))
                  (BufWriterSync.DEFAULT_BUF_SIZE
                   - Z.of_nat (length (pending s)))) as [_|?]; [|lia].
      destruct (Z.eqb_spec (Z.of_nat (length (pending s))) 0) as [Hp0|Hp0].
      + assert (pending s = []) as ->
          by (destruct (pending s); [done|cbn in Hp0; lia]).
        cbn. rewrite !List.app_nil_r. by apply prefix_app_r.
      + cbn zeta.
        destruct (Z.of_nat (length (drop _ data))
                  >? BufWriterSync.DEFAULT_BUF_SIZE); cbn;
          rewrite ?List.app_nil_r, <- ?List.app_assoc;
          apply prefix_app, prefix_app_r; done. }
  exists s1.
  destruct (LogRecord.level r) eqn:Hlevel.
  all: try (exists s1; split; [done|]; split; [done|]; split;
            [|split; [done|exact Hline]];
            unfold FileHandling.handle;
            rewrite (bind_Normal _ _ _ _ _ Hsuper); rewrite Hlevel;
            match goal with
            | |- context [(?a >? ?b)%Z] =>
                destruct (Z.gtb_spec a b) as [Hgt|_]; [lia|done]
            end).
  exists (flushed_state s1). split; [done|]. split; [done|].
  split; [|split; [done|exact Hline]].
  unfold FileHandling.handle.
  rewrite (bind_Normal _ _ _ _ _ Hsuper). rewrite Hlevel.
  destruct (Z.gtb_spec (levelNum CRITICAL) (levelNum ERROR)) as [_|Hle'];
    [|lia].
  exact Hflush.
Qed.

(** X18.  What a successful [setup] of the rotating handler does, on a
    handler just built or on one that was set up before.  The active
    file is empty, except in append mode, where it keeps what it held;
    in mode [w] the backups 1..maxBackupCount are removed, in the other
    modes they are kept; no other file is touched.  The handler holds
    the file with a new writer that holds nothing (what the writer
    before it held is dropped).  The counter is the size of the active
    file in append mode only: in the modes [w] and [x] it keeps the
    value it had, which is 0 on a handler just built.  With a runtime
    that refuses nothing [setup] succeeds when both limits are at least
    1 and, in mode [x], neither the active file nor one of these backups
    exists. *)
Theorem setup_files (s0 : St) :
  let filename := FileObj._filename (this s0) in
  let m := FileObj._mode (this s0) in
  let n := FileObj.maxBackupCount (this s0) in
  FileObj._openOptions (this s0) = FileHandler.openOptions_of m →
  (∀ s, RotatingFileHandler.setup s0 = (Normal tt, s) →
     fs s !! filename
       = Some (match m with
               | mode_a => default [] (fs s0 !! filename)
               | _ => []
               end) ∧
     (∀ i, 1 ≤ i ≤ n →
        fs s !! RotatingFileHandler.backup filename i
        = match m with
          | mode_w => None
          | _ => fs s0 !! RotatingFileHandler.backup filename i
          end) ∧
     (∀ p, p ≠ filename →
        (∀ i, 1 ≤ i ≤ n → p ≠ RotatingFileHandler.backup filename i) →
        fs s !! p = fs s0 !! p) ∧
     FileObj._file (this s) = Some filename ∧
     FileObj._buf (this s) = Some BufWriterSync.new ∧
     FileObj.unloadListener (this s) = true ∧
     FileObj.currentFileSize (this s)
       = match m with
         | mode_a => Z.of_nat (length (default [] (fs s0 !! filename)))
         | _ => FileObj.currentFileSize (this s0)
         end) ∧
  (quiet s0 → 1 ≤ FileObj.maxBytes (this s0) → 1 ≤ n →
   (m = mode_x →
    fs s0 !! filename = None ∧
    ∀ i, 1 ≤ i ≤ n →
      fs s0 !! RotatingFileHandler.backup filename i = None) →
   ∃ s, RotatingFileHandler.setup s0 = (Normal tt, s)).
Proof.
  intros filename m n Hopts.
  pose proof (setup_run s0 Hopts) as Heq. cbn zeta in Heq.
  fold filename m n in Heq.
  pose proof (opened_active s0) as Hact. fold filename in Hact.
  fold m in Hopts. rewrite Hopts in Hact.
  assert (∀ p, p ≠ filename → fs (opened s0) !! p = fs s0 !! p) as Hother.
  { intros p Hp. by apply opened_other. }
  assert (∀ i, fs (opened s0) !! RotatingFileHandler.backup filename i
               = fs s0 !! RotatingFileHandler.backup filename i) as Hbk.
  { intros i. apply Hother, backup_ne_filename. }
  split.
  - intros s Hs. rewrite Hs in Heq.
    destruct (FileObj.maxBytes (this s0) <? 1).
    { destruct (then_throw FileHandler.destroy
                  "maxBytes cannot be less than 1" s0) as (e & s' & He).
      by rewrite He in Heq. }
    destruct (n <? 1).
    { destruct (then_throw FileHandler.destroy
                  "maxBackupCount cannot be less than 1" s0)
        as (e & s' & He).
      by rewrite He in Heq. }
    destruct (refused s0 (CallOpen filename)); [done|].
    destruct m eqn:Hm.
    + (* append *)
      destruct (refused s0 (CallStat filename)); [done|].
      assert (s = sized (opened s0)) as ->
        by (destruct (fs s0 !! filename); by injection Heq).
      unfold sized. cbn [fs this FileObj.currentFileSize
        FileObj.set_currentFileSize].
      change (FileObj._filename (this (opened s0))) with filename.
      rewrite Hact. cbn [truncate FileHandler.openOptions_of].
      split; [by destruct (fs s0 !! filename)|].
      split; [intros i _; apply Hbk|].
      split; [intros p Hp _; by apply Hother|].
      split; [done|]. split; [done|]. split; [done|].
      by destruct (fs s0 !! filename).
    + (* truncate *)
      destruct (remove_loop_cases filename (seqZ 1 n) (opened s0)
                  (NoDup_seqZ 1 n))
        as [(s' & Hs' & (Hthis & _) & Hfs & _)|(i & e & s' & Hs' & _)];
        cycle 1.
      { destruct (fs s0 !! filename); rewrite Hs' in Heq; done. }
      assert (s = s') as <-.
      { destruct (fs s0 !! filename); rewrite Hs' in Heq; by injection Heq. }
      rewrite Hfs, Hthis.
      split.
      { rewrite without_backups_kept; [by destruct (fs s0 !! filename)|].
        intros i _ Heq'. symmetry in Heq'.
        by apply backup_ne_filename in Heq'. }
      split.
      { intros i Hi. apply without_backups_removed, elem_of_seqZ. lia. }
      split; [|done].
      intros p Hp Hnb. rewrite without_backups_kept; [by apply Hother|].
      intros i Hi%elem_of_seqZ. apply Hnb. lia.
    + (* exclusive *)
      destruct (fs s0 !! filename) eqn:Hf; [done|].
      assert (s = opened s0) as ->.
      { destruct (refuse_loop_cases filename (seqZ 1 n) (opened s0))
          as [Hl|[(i & e & _ & _ & Hl)|(i & _ & _ & Hl)]];
          rewrite Hl in Heq; [by injection Heq| done |].
        destruct (then_throw FileHandler.destroy
                    ("Backup log file "
                     +:+ RotatingFileHandler.backup filename i
                     +:+ " already exists") (opened s0)) as (e & s' & He).
        by rewrite He in Heq. }
      split; [done|]. split; [intros i _; apply Hbk|].
      split; [intros p Hp _; by apply Hother|done].
  - intros Hq Hmb Hn Hx. rewrite Heq.
    destruct (Z.ltb_spec (FileObj.maxBytes (this s0)) 1); [lia|].
    destruct (Z.ltb_spec n 1); [lia|].
    rewrite !Hq.
    assert (quiet (opened s0)) as Hq1 by done.
    destruct m eqn:Hm.
    + destruct (fs s0 !! filename); by eexists.
    + destruct (remove_loop_eq filename (seqZ 1 n) (opened s0) Hq1
                  (NoDup_seqZ 1 n)) as (s & Hs & _).
      exists s. by destruct (fs s0 !! filename).
    + destruct (Hx eq_refl) as [-> Hnone].
      rewrite refuse_loop_clear; [by eexists|].
      intros i Hi%elem_of_seqZ. split; [apply Hq|].
      rewrite Hbk. apply Hnone. lia.
Qed.

(** X19.  The backups stay numbered without a gap: if, when [setup] returns,
    every backup 2..maxBackupCount that exists has its predecessor, this
    still holds after any run of [log] calls.  It holds when [setup]
    returns in the modes [w] and [x] (no backup is left then), and in
    append mode if it holds of the files found. *)
Theorem backups_stay_contiguous
    (files : gmap string (list Byte.byte)) (filename : string)
    (mode : option LogMode) (maxBytes n : Z) (msgs : list string) (s : St) :
  RotatingFileHandler.setup
    (initial files (RotatingFileHandler.new filename mode maxBytes n))
  = (Normal tt, s) →
  (default mode_a mode = mode_a → contiguous filename n files) →
  ∃ s',
    RotatingFileHandler.logs msgs s = (Normal tt, s') ∧
    contiguous filename n (fs s) ∧ contiguous filename n (fs s').
Proof.
  intros Hsetup Hfiles.
  pose proof (setup_ready _ _ _ _ _ _ Hsetup) as (Hr & Hact & _ & Hn & Hm).
  assert (1 ≤ maxBytes ∧ 1 ≤ n) as [Hmb Hn1].
  { pose proof (setup_eq files filename mode maxBytes n) as Heq.
    cbn zeta in Heq. rewrite Hsetup in Heq.
    destruct (Z.ltb_spec maxBytes 1); [done|].
    destruct (Z.ltb_spec n 1); [done|]. lia. }
  assert (contiguous filename n (fs s)) as Hc.
  { pose proof (setup_eq files filename mode maxBytes n) as Heq.
    pose proof (opened_backup files filename mode maxBytes n) as Hbk.
    cbn zeta in Heq, Hbk. rewrite Hsetup in Heq.
    set (s0 := initial files
                 (RotatingFileHandler.new filename mode maxBytes n)) in *.
    assert (quiet (opened s0)) as Hq0 by (by intros c).
    destruct (Z.ltb_spec maxBytes 1); [lia|].
    destruct (Z.ltb_spec n 1); [lia|].
    destruct (default mode_a mode) eqn:Hmode.
    - assert (fs s = fs (opened s0)) as Hfs by (by injection Heq as ->).
      intros j Hj. rewrite Hfs, !Hbk. by apply Hfiles.
    - destruct (remove_loop_eq filename (seqZ 1 n) (opened s0) Hq0
                  (NoDup_seqZ 1 n))
        as (s1 & Hs1 & _ & _ & Hfs).
      assert (s = s1) as ->.
      { destruct (files !! filename); rewrite Hs1 in Heq;
          by injection Heq. }
      intros j Hj [c Hc]. rewrite Hfs in Hc.
      rewrite without_backups_removed in Hc; [done|].
      apply elem_of_seqZ. lia.
    - destruct (files !! filename) eqn:Hf; [done|].
      destruct (refuse_loop_quiet filename (seqZ 1 n) (opened s0) Hq0
                  eq_refl) as [[Hl Hnone]|[_ [e Hl]]];
        rewrite Hl in Heq; [|done].
      assert (s = opened s0) as -> by congruence.
      intros j Hj [c Hc]. rewrite Hnone in Hc; [done|].
      apply elem_of_seqZ. lia. }
  assert (∀ msgs s, ready s → active s = filename →
            FileObj.maxBackupCount (this s) = n →
            contiguous filename n (fs s) →
            ∃ s', RotatingFileHandler.logs msgs s = (Normal tt, s') ∧
                  contiguous filename n (fs s')) as Hruns.
  { clear. intros msgs. induction msgs as [|msg msgs IH];
      intros s Hr Hact Hn Hc.
    - by exists s.
    - destruct (log_ready s msg Hr)
        as (s1 & Hlog & Hr1 & (Hact1 & _ & Hn1 & _) & _).
      pose proof (log_contiguous s msg s1 Hr) as Hc1.
      rewrite Hact, Hn, Hact1, Hn1, Hact, Hn in Hc1.
      destruct (IH s1 Hr1) as (s' & Hlogs & Hc');
        [congruence|congruence|by apply Hc1|].
      exists s'. split; [|done].
      unfold RotatingFileHandler.logs in *. cbn [for_each].
      by rewrite (bind_Normal _ _ _ _ _ Hlog). }
  destruct (Hruns msgs s Hr Hact Hn Hc) as (s' & Hlogs & Hc').
  by exists s'.
Qed.

End FileHandlers.

(** ** What the files keep of the lines logged (handlers.ts
    [RotatingFileHandler]) *)

Module HistoryFacts.
Import FileFacts RotateFacts FileMoreFacts.
Local Open Scope Z_scope.

(** What backup [i] holds; nothing when there is no such file. *)
Definition backup_content (filename : string)
    (files : gmap string (list Byte.byte)) (i : Z) : list Byte.byte :=
  default [] (files !! RotatingFileHandler.backup filename i).

(** The backups [k], [k - 1], ..., 1 one after the other: the oldest
    first. *)
Definition backups_content (filename : string)
    (files : gmap string (list Byte.byte)) (k : nat) : list Byte.byte :=
  concat (map (backup_content filename files)
            (reverse (seqZ 1 (Z.of_nat k)))).

(** All that the files of the handler hold, in the order in which it was
    logged: the backups, the oldest first, then the active segment. *)
Definition history (s : St) : list Byte.byte :=
  backups_content (active s) (fs s)
    (Z.to_nat (FileObj.maxBackupCount (this s)))
  ++ segment s.







End HistoryFacts.

Section History.
Import FileFacts RotateFacts FileMoreFacts HistoryFacts.
Local Open Scope Z_scope.


End History.

(** ** More on the delivery queue (handlers/telegram.handler.ts) *)

Module TelegramMoreFacts.
Import TelegramHandler TelegramFacts.

(** When a message could be sent (the connection is up, the queue is
    not empty, no request is in flight), a tick is pending. *)
Definition tick_pending (s : Sys) : Prop :=
  hasConnectToTg (handler s) = true → queue (handler s) ≠ [] →
  isRunQueue (handler s) = false → 0 < timers (loop s).

(** [tapQueue] leaves such a state, whatever the state it is called in:
    it does nothing only when no message can be sent, it schedules a
    tick when it drops an empty message, and it sets the flag when it
    starts a request. *)
Lemma tapQueue_tick_pending s : tick_pending (tapQueue s).
Proof.
  destruct s as [h l]. unfold tapQueue, tick_pending. cbn [handler loop].
  destruct (isRunQueue h) eqn:Hr; [cbn; congruence|].
  destruct (queue h) as [|m rest] eqn:Hq; [cbn; congruence|].
  destruct (hasConnectToTg h) eqn:Hc; [|cbn; congruence].
  cbn [orb negb]. rewrite bool_decide_eq_false_2 by done. cbn [orb].
  destruct (String.eqb m ""); cbn; [lia|congruence].
Qed.

Lemma step_tick_pending s e s' :
  tick_pending s → step s e = Some s' → tick_pending s'.
Proof.
  intros Hinv Hstep. destruct e as [|msg| | |err|k err]; simpl in Hstep.
  - inversion Hstep; subst. unfold setup.
    destruct (botToken _); [done|]. by destruct (chatID _).
  - inversion Hstep; subst. unfold log, tick_pending in *. cbn.
    destruct (hasConnectToTg (handler s)) eqn:Hc; cbn; [lia|congruence].
  - inversion Hstep; subst. apply tapQueue_tick_pending.
  - destruct (timers (loop s)); [done|]. inversion Hstep; subst.
    apply tapQueue_tick_pending.
  - destruct (probing (loop s)); [|done]. inversion Hstep; subst.
    unfold probe_settled, tick_pending in *.
    destruct err; cbn; [done|lia].
  - destruct (inflight (loop s) !! k) as [m|] eqn:Hk; [|done].
    inversion Hstep; subst. unfold tick_pending. destruct err; cbn; lia.
Qed.

Lemma run_tick_pending s es s' :
  tick_pending s → run s es = Some s' → tick_pending s'.
Proof.
  revert s. induction es as [|e es IH]; intros s Hinv Hrun.
  - by inversion Hrun; subst.
  - simpl in Hrun. destruct (step s e) as [s1|] eqn:Hstep; [|done].
    apply (IH s1); [by eapply step_tick_pending|done].
Qed.

(** A tick, then the settling of the request it started, for each
    outcome of [outcomes]. *)
Definition deliveries (outcomes : list (option string)) : list event :=
  flat_map (λ err, [TimerFires; SendSettles 0 err]) outcomes.

(** [setup] changes nothing of the handler. *)
Lemma setup_handler s : handler (fst (setup s)) = handler s.
Proof.
  unfold setup. destruct (botToken _); [done|]. by destruct (chatID _).
Qed.

(** The steps keep the credentials. *)
Lemma step_credentials s e s' :
  step s e = Some s' →
  botToken (handler s') = botToken (handler s) ∧
  chatID (handler s') = chatID (handler s).
Proof.
  intros Hstep. destruct e as [|msg| | |err|k err]; simpl in Hstep.
  - inversion Hstep; subst. by rewrite setup_handler.
  - inversion Hstep; subst. unfold log. cbn.
    by destruct (hasConnectToTg _).
  - inversion Hstep; subst.
    destruct (tapQueue_cases s)
      as [->|(m & rest & _ & _ & _ & [[_ ->]|[_ ->]])]; by cbn.
  - destruct (timers (loop s)); [done|]. inversion Hstep; subst.
    destruct (tapQueue_cases (mkSys (handler s) (take_timer (loop s))))
      as [->|(m & rest & _ & _ & _ & [[_ ->]|[_ ->]])]; by cbn.
  - destruct (probing (loop s)); [|done]. inversion Hstep; subst.
    unfold probe_settled. by destruct err.
  - destruct (inflight (loop s) !! k) as [m|] eqn:Hk; [|done].
    by inversion Hstep; subst.
Qed.

(** Without the connection, [tapQueue] does nothing. *)
Lemma tapQueue_disconnected s :
  hasConnectToTg (handler s) = false → tapQueue s = s.
Proof.
  intros Hc. unfold tapQueue. rewrite Hc. cbn [negb].
  by rewrite !orb_true_r.
Qed.

Lemma run_app s es es' :
  run s (es ++ es') =
  match run s es with
  | Some s1 => run s1 es'
  | None => None
  end.
Proof.
  revert s. induction es as [|e es IH]; intros s; [done|].
  cbn [app run]. by destruct (step s e).
Qed.

(** Without the connection, [log] only queues. *)
Lemma logs_while_disconnected h l msgs :
  hasConnectToTg h = false →
  run (mkSys h l) (map CallsLog msgs)
  = Some (mkSys (set_queue (queue h ++ msgs) h) l).
Proof.
  revert h. induction msgs as [|msg msgs IH]; intros h Hc.
  - destruct h. cbn. by rewrite List.app_nil_r.
  - cbn [map run step]. unfold log. cbn [handler loop].
    assert (hasConnectToTg (set_queue (queue h ++ [msg]) h) = false) as Hc'
      by (by destruct h).
    rewrite Hc'. rewrite (IH _ Hc').
    destruct h. cbn. by rewrite <- List.app_assoc.
Qed.

(** The drain loop on a system given by its fields: the connection is
    up, no request is in flight, [ti] timers are pending and the messages
    [q] are queued. *)
Lemma drain b tok chat proj (q : list string) (ti : nat) pr se er
    (outcomes : list (option string)) :
  0 < ti →
  Forall (λ m, nonempty m = true) q →
  length outcomes = length q →
  ∃ s',
    run (mkSys (mk b tok chat proj true q false) (mkLoop ti pr [] se er))
      (deliveries outcomes) = Some s' ∧
    queue (handler s') = [] ∧
    sent (loop s') = se ++ q ∧
    errors (loop s') = er ++ omap id outcomes ∧
    isRunQueue (handler s') = false ∧ inflight (loop s') = [] ∧
    timers (loop s') = ti.
Proof.
  intros Hti Hall. revert ti se er outcomes Hti.
  induction Hall as [|m q Hm Hall IH]; intros ti se er outcomes Hti Hlen.
  - destruct outcomes; [|done]. eexists. split; [reflexivity|].
    cbn. by rewrite !List.app_nil_r.
  - destruct outcomes as [|err outcomes]; [done|].
    destruct ti as [|t]; [lia|].
    unfold nonempty in Hm. apply negb_true_iff in Hm.
    destruct (IH (S t) (se ++ [m])
                (match err with Some e => er ++ [e] | None => er end)
                outcomes) as (s' & Hrun & Hq' & Hs' & He' & Hr' & Hi' & Ht');
      [lia|by injection Hlen|].
    exists s'. split.
    { cbn [deliveries flat_map app run step loop handler timers].
      unfold tapQueue. cbn. rewrite Hm. cbn.
      destruct err; exact Hrun. }
    split; [done|]. split; [by rewrite Hs', <- List.app_assoc|].
    split; [|done]. rewrite He'. destruct err; cbn; [|done].
    by rewrite <- List.app_assoc.
Qed.

End TelegramMoreFacts.

Section TelegramMore.
Import TelegramHandler TelegramFacts TelegramMoreFacts.

(** X20.  No message is left waiting without a tick: from a new handler,
    after any sequence of calls and callbacks, if the connection is up,
    the queue is not empty and no request is in flight, then a timer is
    pending, and when it fires [tapQueue] takes the head of the queue. *)
Theorem tick_is_pending (h : TelegramHandler.t) (es : list event) (s : Sys) :
  queue h = [] →
  run (mkSys h idle) es = Some s →
  hasConnectToTg (handler s) = true → queue (handler s) ≠ [] →
  isRunQueue (handler s) = false →
  0 < timers (loop s) ∧
  ∃ m rest s',
    queue (handler s) = m :: rest ∧
    step s TimerFires = Some s' ∧ queue (handler s') = rest.
Proof.
  intros Hq Hrun Hc Hne Hr.
  assert (tick_pending s) as Hinv.
  { apply (run_tick_pending (mkSys h idle) es); [|done].
    unfold tick_pending. cbn. congruence. }
  pose proof (Hinv Hc Hne Hr) as Ht. split; [done|].
  destruct (queue (handler s)) as [|m rest] eqn:Hqs; [done|].
  exists m, rest. unfold step.
  destruct (timers (loop s)) as [|t] eqn:Hts; [lia|].
  eexists. split; [done|]. split; [reflexivity|].
  unfold tapQueue. cbn [handler loop]. rewrite Hr, Hqs, Hc.
  cbn [orb negb]. rewrite bool_decide_eq_false_2 by done. cbn [orb].
  by destruct (String.eqb m "").
Qed.

(** X21.  The queue is drained in order, whatever the outcomes of the
    requests: with the connection up, no request in flight, a timer
    pending and only non-empty messages queued, a tick and the settling
    of its request, once per message, are all possible in turn and leave
    the queue empty; the requests made are those for the queued
    messages, in their order; the errors of the failed requests went to
    [console.error]; a timer is pending again. *)
Theorem queue_is_drained (s : Sys) (outcomes : list (option string)) :
  hasConnectToTg (handler s) = true →
  isRunQueue (handler s) = false →
  inflight (loop s) = [] →
  0 < timers (loop s) →
  Forall (λ m, nonempty m = true) (queue (handler s)) →
  length outcomes = length (queue (handler s)) →
  ∃ s',
    run s (deliveries outcomes) = Some s' ∧
    queue (handler s') = [] ∧
    sent (loop s') = sent (loop s) ++ queue (handler s) ∧
    errors (loop s') = errors (loop s) ++ omap id outcomes ∧
    isRunQueue (handler s') = false ∧ inflight (loop s') = [] ∧
    timers (loop s') = timers (loop s).
Proof.
  destruct s as [h l].
  destruct h as [b tok chat proj conn qu run0].
  destruct l as [ti pr infl se er].
  cbn [handler loop hasConnectToTg isRunQueue inflight timers queue sent
       errors].
  intros -> -> -> Hti Hall Hlen. by apply drain.
Qed.

(** X25.  Messages logged before the connection is up are delivered once it
    is: from a new handler with its credentials, after [setup], any
    calls of [log] with non-empty messages, and a probe that answers with
    status 200, a tick and the settling of its request, once per message,
    empty the queue; the requests made are those for the messages logged,
    in the order of the calls, whatever the outcomes of the requests. *)
Theorem queued_messages_are_delivered (h : TelegramHandler.t)
    (msgs : list string) (outcomes : list (option string)) :
  botToken h ≠ "" → chatID h ≠ "" →
  hasConnectToTg h = false → queue h = [] → isRunQueue h = false →
  Forall (λ m, nonempty m = true) msgs →
  length outcomes = length msgs →
  ∃ s',
    run (mkSys h idle)
      ([CallsSetup] ++ map CallsLog msgs ++ [ProbeSettles None]
       ++ deliveries outcomes) = Some s' ∧
    sent (loop s') = msgs ∧ queue (handler s') = [] ∧
    errors (loop s') = omap id outcomes ∧
    isRunQueue (handler s') = false ∧ inflight (loop s') = [].
Proof.
  destruct h as [b tok chat proj conn qu run0].
  cbn [botToken chatID hasConnectToTg queue isRunQueue].
  intros Htok Hchat -> -> -> Hall Hlen.
  destruct tok as [|t0 tok]; [done|]. destruct chat as [|c0 chat]; [done|].
  set (h1 := mk b (String t0 tok) (String c0 chat) proj false [] false).
  destruct (drain b (String t0 tok) (String c0 chat) proj msgs 1 false [] []
              outcomes) as (s' & Hrun & Hq & Hs & He & Hr & Hi & _);
    [lia|done|done|].
  exists s'. split; [|done].
  change ([CallsSetup] ++ map CallsLog msgs ++ [ProbeSettles None]
          ++ deliveries outcomes)
    with (CallsSetup
          :: (map CallsLog msgs ++ [ProbeSettles None] ++ deliveries outcomes)).
  assert (fst (setup (mkSys h1 idle)) = mkSys h1 (fetch_getMe idle))
    as Hsetup by reflexivity.
  cbn [run step]. rewrite Hsetup, run_app.
  rewrite (logs_while_disconnected h1 (fetch_getMe idle) msgs eq_refl).
  cbn [app run step loop fetch_getMe probing].
  exact Hrun.
Qed.

(** X22.  Without the connection nothing is sent: as long as the probe of
    [setup] has not answered with status 200 (it is not pending, and
    [setup] is not called again, or it throws because the token or the
    chat is missing), every message logged stays in the queue, in order,
    and no request is made. *)
Theorem disconnected_sends_nothing (s : Sys) (es : list event) (s' : Sys) :
  hasConnectToTg (handler s) = false → probing (loop s) = false →
  botToken (handler s) = "" ∨ chatID (handler s) = "" ∨ CallsSetup ∉ es →
  run s es = Some s' →
  sent (loop s') = sent (loop s) ∧
  queue (handler s') = queue (handler s) ++ logged es ∧
  hasConnectToTg (handler s') = false.
Proof.
  revert s. induction es as [|e es IH]; intros s Hc Hp Hsetup Hrun.
  { inversion Hrun; subst. cbn. by rewrite List.app_nil_r. }
  simpl in Hrun. destruct (step s e) as [s1|] eqn:Hstep; [|done].
  destruct (step_credentials _ _ _ Hstep) as [Htok Hchat].
  assert (botToken (handler s1) = "" ∨ chatID (handler s1) = ""
          ∨ CallsSetup ∉ es) as Hsetup1.
  { rewrite Htok, Hchat.
    destruct Hsetup as [?|[?|Hno]]; [by left|by right; left|].
    right. right. intros Hin. apply Hno. by right. }
  assert (sent (loop s1) = sent (loop s) ∧
          queue (handler s1) = queue (handler s) ++ logged [e] ∧
          hasConnectToTg (handler s1) = false ∧
          probing (loop s1) = false) as (Hs1 & Hq1 & Hc1 & Hp1).
  { destruct e as [|msg| | |err|k err]; simpl in Hstep;
      cbn [logged omap]; rewrite ?List.app_nil_r.
    - inversion Hstep; subst. unfold setup.
      destruct (botToken (handler s)) eqn:Ht; [done|].
      destruct (chatID (handler s)) eqn:Hch; [done|].
      exfalso. destruct Hsetup as [?|[?|Hno]]; [done|done|].
      apply Hno. by left.
    - inversion Hstep; subst. unfold log. cbn. rewrite Hc. done.
    - inversion Hstep; subst. by rewrite tapQueue_disconnected.
    - destruct (timers (loop s)); [done|]. inversion Hstep; subst.
      by rewrite tapQueue_disconnected.
    - by rewrite Hp in Hstep.
    - destruct (inflight (loop s) !! k) as [m|] eqn:Hk; [|done].
      inversion Hstep; subst. by destruct err. }
  destruct (IH s1 Hc1 Hp1 Hsetup1 Hrun) as (Hs' & Hq' & Hc').
  split; [congruence|]. split; [|done].
  rewrite Hq', Hq1. change (e :: es) with ([e] ++ es).
  by rewrite logged_app, List.app_assoc.
Qed.

End TelegramMore.

(** ** Handlers with template formatters (logger.ts [_log],
    logger_test.ts [TestHandler]) *)

Section FanOut.
Context `{Env}.

(** What a handler of the tests keeps of a record: the record, and the
    text when the record passes the gate of the handler. *)
Definition kept (h : TestHandler.t) (text : string) (r : LogRecord.t)
    : TestHandler.t :=
  {| TestHandler.base := TestHandler.base h;
     TestHandler.messages :=
       TestHandler.messages h
       ++ (if (BaseHandler.level (TestHandler.base h)
               >? levelNum (LogRecord.level r))%Z
           then []
           else [if BaseHandler.noColor (TestHandler.base h)
                 then stripColor text else text]);
     TestHandler.records := TestHandler.records h ++ [r] |}.

Lemma TestHandler_handle_template (h : TestHandler.t) (fmt : string)
    (r : LogRecord.t) :
  BaseHandler.formatter (TestHandler.base h) = Template fmt →
  TestHandler.handle h r =
  (kept h (BaseHandler.formatCustom (TestHandler.base h) fmt r) r, Normal tt).
Proof.
  intros Hf. unfold TestHandler.handle, BaseHandler.handle, kept.
  cbn [TestHandler.base TestHandler.messages TestHandler.records].
  destruct (BaseHandler.level (TestHandler.base h)
            >? levelNum (LogRecord.level r))%Z.
  - by rewrite List.app_nil_r.
  - unfold BaseHandler.format. by rewrite Hf.
Qed.

(** X23.  Of the values that a template can name, the array of the
    arguments is the only one whose conversion by [String] can throw (on
    an argument that has no conversion to a string); the others are
    strings, numbers, functions of the classes and prototype objects.
    So, when every handler of a logger has as formatter a template that
    does not name [{args}], a log call that passes the gate of the logger
    returns, every handler has been handed the record, in the order of
    the handlers, and each handler whose own level admits the record has
    been given the text of its own template, without colour codes unless
    it keeps colours. *)
Theorem template_handlers_all_receive (lg : Logger.t TestHandler.t)
    (now : Z) (R : LogLevels) (args : list value) :
  (levelNum (Logger.level lg) >? levelNum R)%Z = false →
  Forall (λ h, ∃ fmt, BaseHandler.formatter (TestHandler.base h)
                      = Template fmt ∧
                      Str.occurs_in "{args}" fmt = false)
    (Logger.handlers lg) →
  let record := record_of lg now R args in
  ∃ hs',
    Logger._log lg now R args =
      (Logger.set_handlers lg hs',
       Normal (if Logger.returnResult lg
               then Some (stripColor (helpers.argsToString args))
               else None)) ∧
    Forall2
      (λ h h', ∃ fmt,
         BaseHandler.formatter (TestHandler.base h) = Template fmt ∧
         h' = kept h
                (BaseHandler.formatCustom (TestHandler.base h) fmt record)
                record)
      (Logger.handlers lg) hs'.
Proof.
  intros Hg Hall record.
  exists (map (λ x, fst (handle x record)) (Logger.handlers lg)).
  split.
  - rewrite (dispatch_all lg now R args Hg); [done|].
    intros x r Hx. rewrite Forall_forall in Hall.
    destruct (Hall x Hx) as (fmt & Hf & _).
    cbn [handle TestHandler_Handler].
    by rewrite (TestHandler_handle_template x fmt r Hf).
  - induction Hall as [|h hs (fmt & Hf & _) Hall IH]; [constructor|].
    cbn [map]. constructor; [|exact IH].
    exists fmt. split; [done|].
    cbn [handle TestHandler_Handler].
    by rewrite (TestHandler_handle_template h fmt record Hf).
Qed.

End FanOut.

Section FanOutSamples.
Existing Instance Sample.env.

Definition two_handlers : Logger.t TestHandler.t :=
  Logger.new "default" DEBUG
    {| Logger.o_handlers :=
         Some [TestHandler.new DEBUG no_options;
               TestHandler.new ERROR
                 {| o_formatter := Some (Template "{loggerName}: {msg}");
                    o_datetimeFormat := None; o_noColor := None |}];
       Logger.o_returnResult := Some true |}.

Lemma template_handlers_all_receive_witness :
  ∃ hs',
    Logger._log two_handlers 0 WARNING [VString "low disk"] =
      (Logger.set_handlers two_handlers hs', Normal (Some "low disk")) ∧
    Forall2
      (λ h h', ∃ fmt,
         BaseHandler.formatter (TestHandler.base h) = Template fmt ∧
         h' = kept h
                (BaseHandler.formatCustom (TestHandler.base h) fmt
                   (record_of two_handlers 0 WARNING [VString "low disk"]))
                (record_of two_handlers 0 WARNING [VString "low disk"]))
      (Logger.handlers two_handlers) hs'.
Proof.
  apply (@template_handlers_all_receive Sample.env two_handlers 0%Z WARNING
           [VString "low disk"] eq_refl).
  repeat constructor; eexists; split; reflexivity.
Defined.

(** The first handler takes the text, the second, at ERROR, only the
    record. *)
Example two_handlers_messages :
  map TestHandler.messages
    (Logger.handlers
       (fst (Logger._log two_handlers 0 WARNING [VString "low disk"])))
  = [["WARNING low disk"]; []].
Proof. vm_compute. reflexivity. Qed.

End FanOutSamples.

(** ** The properties above on concrete inputs *)

Section FormattingSamples.
Existing Instance Sample.env.

Lemma msgFormat_named_witness :
  Logger.msgFormat "Hello {user}!" [VObject [("user", VString "Ann")]]
  = "Hello Ann!".
Proof.
  exact (msgFormat_named [("user", VString "Ann")] [] "Hello " "!"
           "u" "ser" (VString "Ann") eq_refl eq_refl eq_refl eq_refl
           eq_refl).
Defined.

Lemma text_without_brace_unchanged_witness :
  Logger.msgFormat "50% done" [VNumber 50] = "50% done" ∧
  BaseHandler.formatCustom (BaseHandler.new INFO no_options) "50% done"
    sample_record = "50% done".
Proof.
  exact (text_without_brace_unchanged (BaseHandler.new INFO no_options)
           sample_record [VNumber 50] "50% done" eq_refl).
Defined.

Lemma default_format_witness :
  BaseHandler.format
    (BaseHandler.new INFO
       {| o_formatter := Some (Template "");
          o_datetimeFormat := None; o_noColor := None |})
    sample_record
  = Normal "INFO hello".
Proof.
  exact (default_format INFO
           {| o_formatter := Some (Template "");
              o_datetimeFormat := None; o_noColor := None |}
           sample_record (or_intror eq_refl)).
Defined.

(** The examples of the sources: positional arguments, and the
    renderings of several arguments joined by spaces. *)
Example msgFormat_two_arguments :
  Logger.msgFormat "{0} and {1}, not {2}" [VString "a"; VNumber 2]
  = "a and 2, not {2}".
Proof. vm_compute. reflexivity. Qed.

Example argsToString_three_arguments :
  helpers.argsToString [VString " one"; VNumber 2; VString "three "]
  = "one 2 three".
Proof. vm_compute. reflexivity. Qed.

End FormattingSamples.

Section ConsoleSamples.
Existing Instance Sample.env.
Existing Instance SampleColors.colors.

Definition record_at (level : LogLevels) : LogRecord.t :=
  LogRecord.new 1604300000000
    {| LogRecord.o_msg := "hello";
       LogRecord.o_args := [VString "hello"];
       LogRecord.o_level := level;
       LogRecord.o_loggerName := "default";
       LogRecord.o_category := None |}.

Definition sample_console : ConsoleHandler.t :=
  ConsoleHandler.new DEBUG no_options.

Definition console_with_function : ConsoleHandler.t :=
  ConsoleHandler.new DEBUG
    {| o_formatter := Some (Callback (λ r, Normal (LogRecord.msg r)));
       o_datetimeFormat := None; o_noColor := None |}.

Lemma console_colours_keep_text_witness :
  ∃ a b,
    DEFAULT_FORMATTER = a +:+ b ∧ String.prefix "{msg}" b = true ∧
    Str.occurs_in "{msg}" (Str.tail b) = false ∧
    let p := BaseHandler.formatCustom (ConsoleHandler.base sample_console)
               a (record_at WARNING) in
    let m := BaseHandler.formatCustom (ConsoleHandler.base sample_console)
               b (record_at WARNING) in
    BaseHandler.format (ConsoleHandler.base sample_console)
      (record_at WARNING) = Normal (p +:+ m) ∧
    ConsoleHandler.format sample_console (record_at WARNING) =
    Normal (match p with "" => "" | _ => yellow p end +:+ m).
Proof.
  exact (console_colours_keep_text sample_console DEFAULT_FORMATTER
           (record_at WARNING) sample_levels_ordered eq_refl eq_refl
           eq_refl eq_refl eq_refl).
Defined.

Lemma console_low_levels_blank_witness :
  ConsoleHandler.handle sample_console (record_at DEBUG) =
  ({| ConsoleHandler.base := ConsoleHandler.base sample_console;
      ConsoleHandler.console := [""] |}, Normal tt).
Proof.
  refine (proj2 (console_low_levels_blank sample_console (record_at DEBUG)
                   sample_levels_ordered eq_refl (or_introl eq_refl) I) _).
  simpl. lia.
Defined.

Lemma console_error_without_prefix_witness :
  ConsoleHandler.format console_with_function (record_at ERROR)
  = Normal (red ("undefined" +:+ "hello")).
Proof.
  exact (proj1 (console_error_without_prefix console_with_function
                  (record_at ERROR) sample_levels_ordered eq_refl
                  (or_introl eq_refl))
           (λ r, Normal (LogRecord.msg r)) "hello" eq_refl eq_refl).
Defined.

(** What the console shows for the default template: the level in
    colour before the message, and nothing at DEBUG. *)
Example console_output :
  let run := λ level,
    ConsoleHandler.console
      (fst (ConsoleHandler.handle sample_console (record_at level))) in
  run WARNING = [yellow "WARNING " +:+ "hello"] ∧
  run ERROR = [red "ERROR hello"] ∧
  run DEBUG = [""].
Proof. vm_compute. done. Qed.

End ConsoleSamples.

Section RegistrySamples.
Existing Instance Sample.env.

Definition no_loggers : gmap string (Logger.t TestHandler.t) := ∅.

Lemma getLogger_registers_once_witness :
  ∃ lg loggers',
    Mod.getLogger (Some "net") no_loggers = (Normal lg, loggers') ∧
    lg = default (Logger.mk NOTSET [] false "net") (no_loggers !! "net") ∧
    loggers' = <["net" := lg]> no_loggers ∧
    (is_Some (no_loggers !! "net") → loggers' = no_loggers) ∧
    Mod.getLogger (Some "net") loggers' = (Normal lg, loggers') ∧
    Mod.createCategoryLogger None (Some "net") no_loggers
    = (Normal (LoggerCategory.mk "default" lg), loggers').
Proof.
  assert ("net" ≠ "") as Hne by discriminate.
  exact (getLogger_registers_once no_loggers "net" None Hne).
Defined.

Lemma getLogger_without_name_witness :
  Mod.getLogger (Some "") no_loggers
  = (Throw Mod.default_required, no_loggers).
Proof.
  exact (getLogger_without_name no_loggers (Some "") (or_intror eq_refl)).
Defined.

Lemma unregistered_logger_drops_records_witness :
  ∃ lg loggers',
    Mod.getLogger (Some "typo") no_loggers = (Normal lg, loggers') ∧
    Logger.handlers lg = [] ∧
    Logger._log lg 0 CRITICAL [VString "disk full"] = (lg, Normal None) ∧
    Logger._logFormat lg 0 CRITICAL "{0}" [VString "disk full"]
    = (lg, Normal None).
Proof.
  assert ("typo" ≠ "") as Hne by discriminate.
  exact (unregistered_logger_drops_records no_loggers "typo" 0%Z CRITICAL
           "{0}" [VString "disk full"] sample_levels_ordered Hne eq_refl).
Defined.

End RegistrySamples.

Section FileSamples.
Import RotateFacts FileMoreFacts HistoryFacts.
Existing Instance Sample.env.
Local Open Scope Z_scope.

(** The handler of the rotation examples, after [setup]. *)
Definition sample_ready : St := snd (RotatingFileHandler.setup sample_start).

Lemma sample_is_ready : ready sample_ready.
Proof. apply (setup_ready _ _ _ _ _ _ sample_setup). Qed.

Lemma file_handler_writes_lines_witness :
  ∃ s,
    (FileHandler.setup ;;
     for_each ["one"; "two"] FileHandler.log ;;
     FileHandler.destroy)
      (initial sample_files (FileHandler.new "app.log" None))
    = (Normal tt, s) ∧
    fs s = <["app.log" := default [] (sample_files !! "app.log")
                          ++ lines ["one"; "two"]]> sample_files ∧
    FileObj._file (this s) = None ∧
    FileObj.unloadListener (this s) = false ∧
    pending s = [].
Proof.
  apply (file_handler_writes_lines sample_files "app.log" None
           ["one"; "two"]).
  simpl. discriminate.
Defined.

Lemma destroy_flushes_and_closes_witness :
  ∃ s1 s2,
    FileHandler.destroy sample_ready = (Normal tt, s1) ∧
    fs s1 = <[active sample_ready := segment sample_ready]>
              (fs sample_ready) ∧
    trace s1 =
      trace sample_ready ++ [CallDestroy] ++ flush_events sample_ready
      ++ [SysClose (active sample_ready)] ∧
    FileObj._file (this s1) = None ∧
    FileObj.unloadListener (this s1) = false ∧
    pending s1 = [] ∧
    FileHandler.destroy s1 = (Normal tt, s2) ∧
    fs s2 = fs s1 ∧ this s2 = this s1 ∧
    trace s2 = trace s1 ++ [CallDestroy].
Proof.
  apply (destroy_flushes_and_closes sample_ready).
  apply ready_writable, sample_is_ready.
Defined.

Definition critical_record : LogRecord.t :=
  LogRecord.new 1604300000000
    {| LogRecord.o_msg := "disk full";
       LogRecord.o_args := [VString "disk full"];
       LogRecord.o_level := CRITICAL;
       LogRecord.o_loggerName := "default";
       LogRecord.o_category := None |}.

Lemma handle_flushes_above_error_witness :
  ∃ s1 s',
    RotatingFileHandler.log "CRITICAL disk full" sample_ready
    = (Normal tt, s1) ∧
    writable s1 ∧
    FileHandling.handle (BaseHandler.new DEBUG no_options)
      RotatingFileHandler.log critical_record sample_ready
    = (Normal tt, s') ∧
    fs s' = <[active s1 := segment s1]> (fs s1) ∧
    pending s' = [] ∧ disk s' = segment s1 ∧
    FileObj.currentFileSize (this s') = FileObj.currentFileSize (this s1).
Proof.
  assert (BaseHandler.level (BaseHandler.new DEBUG no_options)
          ≤ levelNum (LogRecord.level critical_record)) as Hle
    by (simpl; lia).
  destruct (handle_flushes_above_error (BaseHandler.new DEBUG no_options)
              DEFAULT_FORMATTER critical_record RotatingFileHandler.log
              sample_ready sample_levels_ordered eq_refl Hle
              (or_intror (conj eq_refl sample_is_ready)))
    as (s1 & s' & Hlog & Hw & Hhandle & Hflushed & _).
  exists s1, s'. split; [exact Hlog|]. split; [exact Hw|].
  split; [exact Hhandle|exact Hflushed].
Defined.

(** A record below CRITICAL, through the plain file handler: its line
    stays in the writer. *)
Example handle_keeps_short_line :
  let r :=
    LogRecord.new 1604300000000
      {| LogRecord.o_msg := "low";
         LogRecord.o_args := [VString "low"];
         LogRecord.o_level := WARNING;
         LogRecord.o_loggerName := "default";
         LogRecord.o_category := None |} in
  let s :=
    snd (FileHandling.handle (BaseHandler.new DEBUG no_options)
           FileHandler.log r sample_ready) in
  fs s = fs sample_ready ∧ trace s = trace sample_ready ∧
  pending s = TextEncoder.encode ("WARNING low" +:+ newline).
Proof. vm_compute. done. Qed.


Lemma setup_files_witness :
  ∃ s,
    RotatingFileHandler.setup
      (initial sample_files
         (RotatingFileHandler.new "app.log" (Some mode_w) 20 2))
    = (Normal tt, s) ∧
    fs s !! "app.log" = Some [] ∧
    (∀ i, 1 ≤ i ≤ 2 →
       fs s !! RotatingFileHandler.backup "app.log" i = None) ∧
    (∀ p, p ≠ "app.log" →
       (∀ i, 1 ≤ i ≤ 2 → p ≠ RotatingFileHandler.backup "app.log" i) →
       fs s !! p = sample_files !! p) ∧
    FileObj.currentFileSize (this s) = 0.
Proof.
  destruct (setup_files
              (initial sample_files
                 (RotatingFileHandler.new "app.log" (Some mode_w) 20 2))
              eq_refl) as [Hfiles Hreturns].
  destruct Hreturns as [s Hs];
    [by intros c|simpl; lia|simpl; lia|simpl; discriminate|].
  destruct (Hfiles s Hs) as (Hactive & Hbackups & Hothers & _ & _ & _ & Hsize).
  exists s. split; [exact Hs|]. split; [exact Hactive|].
  split; [exact Hbackups|]. split; [exact Hothers|exact Hsize].
Defined.

(** A handler in mode [w] that is set up again after [destroy]: the file
    is emptied, the counter keeps the 6 bytes counted before. *)
Example second_setup_keeps_counter :
  let s0 := initial ∅ (RotatingFileHandler.new "app.log" (Some mode_w) 20 2) in
  let s :=
    snd ((RotatingFileHandler.setup ;;
          RotatingFileHandler.log "hello" ;;
          FileHandler.destroy ;;
          RotatingFileHandler.setup) s0) in
  fs s !! "app.log" = Some [] ∧ pending s = [] ∧
  FileObj.currentFileSize (this s) = 6.
Proof. vm_compute. done. Qed.

Lemma sample_files_contiguous : contiguous "app.log" 2 sample_files.
Proof.
  intros j Hj _. replace j with 2 by lia. eexists. vm_compute. reflexivity.
Qed.

Lemma backups_stay_contiguous_witness :
  ∃ s',
    RotatingFileHandler.logs ["0123456789"; "abcdefghi"; "third"]
      sample_ready = (Normal tt, s') ∧
    contiguous "app.log" 2 (fs sample_ready) ∧
    contiguous "app.log" 2 (fs s').
Proof.
  apply (backups_stay_contiguous sample_files "app.log" (Some mode_a) 20 2
           ["0123456789"; "abcdefghi"; "third"] sample_ready sample_setup).
  intros _. exact sample_files_contiguous.
Defined.


(** In the run of the example the two backups found are discarded, one
    by each of the two rotations; the segment found and the three lines
    are kept. *)
Example history_of_the_example :
  let s' :=
    snd (RotatingFileHandler.logs ["0123456789"; "abcdefghi"; "third"]
           sample_ready) in
  history sample_ready = TextEncoder.encode "twoonefifteen bytes.." ∧
  history s' =
    TextEncoder.encode
      ("fifteen bytes.." +:+ "0123456789" +:+ newline
       +:+ "abcdefghi" +:+ newline +:+ "third" +:+ newline).
Proof. vm_compute. done. Qed.

(** A plain file handler in mode [w]: the lines logged replace what the
    file held. *)
Example file_handler_truncates :
  let s :=
    snd ((FileHandler.setup ;;
          for_each ["one"; "two"] FileHandler.log ;;
          FileHandler.destroy)
           (initial sample_files (FileHandler.new "app.log" (Some mode_w)))) in
  fs s !! "app.log"
    = Some (TextEncoder.encode ("one" +:+ newline +:+ "two" +:+ newline)) ∧
  fs s !! "app.log.1" = sample_files !! "app.log.1".
Proof. vm_compute. done. Qed.

End FileSamples.

Section TelegramMoreSamples.
Import TelegramHandler.
Existing Instance Sample.env.

Lemma tick_is_pending_witness :
  ∃ s,
    run (mkSys sample_telegram idle)
      [CallsSetup; CallsLog "one"; ProbeSettles None; CallsLog "two";
       TimerFires; SendSettles 0 None] = Some s ∧
    0 < timers (loop s) ∧
    ∃ m rest s',
      queue (handler s) = m :: rest ∧
      step s TimerFires = Some s' ∧ queue (handler s') = rest.
Proof.
  eexists. split; [vm_compute; reflexivity|].
  match goal with
  | |- 0 < timers (loop ?s) ∧ _ =>
      apply (tick_is_pending sample_telegram
               [CallsSetup; CallsLog "one"; ProbeSettles None;
                CallsLog "two"; TimerFires; SendSettles 0 None] s
               eq_refl eq_refl eq_refl)
  end.
  - discriminate.
  - reflexivity.
Defined.

Definition connected_with_queue : Sys :=
  mkSys (set_hasConnectToTg true
           (set_queue ["one"; "two"; "three"] sample_telegram))
        (setTimeout idle).

Lemma queue_is_drained_witness :
  ∃ s',
    run connected_with_queue
      (TelegramMoreFacts.deliveries [None; Some "network error"; None])
    = Some s' ∧
    queue (handler s') = [] ∧
    sent (loop s') = ["one"; "two"; "three"] ∧
    errors (loop s') = ["network error"] ∧
    isRunQueue (handler s') = false ∧ inflight (loop s') = [] ∧
    timers (loop s') = 1.
Proof.
  apply (queue_is_drained connected_with_queue
           [None; Some "network error"; None] eq_refl eq_refl eq_refl).
  - simpl. lia.
  - repeat constructor.
  - reflexivity.
Defined.

Lemma queued_messages_are_delivered_witness :
  ∃ s',
    run (mkSys sample_telegram idle)
      ([CallsSetup] ++ map CallsLog ["one"; "two"] ++ [ProbeSettles None]
       ++ TelegramMoreFacts.deliveries [Some "network error"; None])
    = Some s' ∧
    sent (loop s') = ["one"; "two"] ∧ queue (handler s') = [] ∧
    errors (loop s') = ["network error"] ∧
    isRunQueue (handler s') = false ∧ inflight (loop s') = [].
Proof.
  assert ("token" ≠ "") as Htok by discriminate.
  assert ("chat" ≠ "") as Hchat by discriminate.
  apply (queued_messages_are_delivered sample_telegram ["one"; "two"]
           [Some "network error"; None] Htok Hchat eq_refl eq_refl eq_refl).
  - repeat constructor.
  - reflexivity.
Defined.

Definition without_token : Sys :=
  mkSys (TelegramHandler.new ERROR no_options "" "chat" None) idle.

Lemma disconnected_sends_nothing_witness :
  ∃ s',
    run without_token
      [CallsSetup; CallsLog "one"; CallsTapQueue; CallsLog "two"]
    = Some s' ∧
    sent (loop s') = [] ∧
    queue (handler s') = ["one"; "two"] ∧
    hasConnectToTg (handler s') = false.
Proof.
  eexists. split; [vm_compute; reflexivity|].
  match goal with
  | |- sent (loop ?s') = _ ∧ _ =>
      apply (disconnected_sends_nothing without_token
               [CallsSetup; CallsLog "one"; CallsTapQueue; CallsLog "two"]
               s' eq_refl eq_refl (or_introl eq_refl) eq_refl)
  end.
Defined.

End TelegramMoreSamples.

(** ** The configuration (mod.ts [setup]) *)

Module ModFacts.
Import Mod.

Definition keys {A : Type} (o : Obj A) : list string := fst <$> o.

Lemma obj_get_set {A : Type} (k k' : string) (v : A) (o : Obj A) :
  obj_get k (obj_set k' v o)
  = if String.eqb k k' then Some v else obj_get k o.
Proof.
  induction o as [|[k1 v1] o IH]; cbn [obj_set obj_get].
  - done.
  - destruct (String.eqb_spec k' k1) as [->|Hne]; cbn [obj_get].
    + by destruct (String.eqb k k1).
    + destruct (String.eqb_spec k k1) as [->|Hne1]; [|done].
      by destruct (String.eqb_spec k1 k'); [congruence|].
Qed.

Lemma obj_get_None {A : Type} (k : string) (o : Obj A) :
  k ∉ keys o → obj_get k o = None.
Proof.
  induction o as [|[k1 v1] o IH]; [done|]. cbn [keys fmap list_fmap fst obj_get].
  intros Hk. destruct (String.eqb_spec k k1) as [->|Hne].
  - exfalso. apply Hk. by left.
  - apply IH. intros Hin. apply Hk. by right.
Qed.

Lemma obj_get_elem {A : Type} (k : string) (v : A) (o : Obj A) :
  NoDup (keys o) → (obj_get k o = Some v ↔ (k, v) ∈ o).
Proof.
  induction o as [|[k1 v1] o IH]; cbn [keys fmap list_fmap fst obj_get].
  - intros _. split; [done|]. by intros ?%elem_of_nil.
  - intros [Hk1 Hnd]%NoDup_cons. rewrite elem_of_cons.
    destruct (String.eqb_spec k k1) as [->|Hne].
    + split; [by intros [= ->]; left|].
      intros [[= ->]|Hin]; [done|].
      exfalso. apply Hk1. unfold keys. apply list_elem_of_fmap.
      by exists (k1, v).
    + rewrite (IH Hnd). split; [by right|].
      by intros [[= -> ->]|Hin].
Qed.

(** On objects whose keys are distinct, the order of the properties
    does not matter to a lookup. *)
Lemma obj_get_perm {A : Type} (k : string) (o o' : Obj A) :
  NoDup (keys o) → o ≡ₚ o' → obj_get k o' = obj_get k o.
Proof.
  intros Hnd Hp.
  assert (NoDup (keys o')) as Hnd'.
  { unfold keys in *. by rewrite <- Hp. }
  destruct (obj_get k o) as [v|] eqn:Ho.
  - apply (obj_get_elem _ _ _ Hnd'). rewrite <- Hp.
    by apply (obj_get_elem _ _ _ Hnd).
  - destruct (obj_get k o') as [v'|] eqn:Ho'; [|done].
    apply (obj_get_elem _ _ _ Hnd') in Ho'. rewrite <- Hp in Ho'.
    apply (obj_get_elem _ _ _ Hnd) in Ho'. congruence.
Qed.

Lemma keys_set {A : Type} (k : string) (v : A) (o : Obj A) :
  keys (obj_set k v o) = keys o ∨
  ((k ∉ keys o) ∧ keys (obj_set k v o) = keys o ++ [k]).
Proof.
  induction o as [|[k1 v1] o IH]; cbn [obj_set keys fmap list_fmap fst].
  - right. split; [apply not_elem_of_nil|done].
  - destruct (String.eqb_spec k k1) as [->|Hne]; [by left|].
    cbn [fmap list_fmap fst]. fold (keys o). fold (keys (obj_set k v o)).
    destruct IH as [->|[Hk ->]]; [by left|].
    right. split; [|done]. by intros [?|?]%elem_of_cons.
Qed.

Lemma NoDup_set {A : Type} (k : string) (v : A) (o : Obj A) :
  NoDup (keys o) → NoDup (keys (obj_set k v o)).
Proof.
  intros Hnd. destruct (keys_set k v o) as [->|[Hk ->]]; [done|].
  apply NoDup_app. split; [done|]. split.
  - intros x Hx [->|[]%elem_of_nil]%elem_of_cons. done.
  - apply NoDup_singleton.
Qed.

Lemma insert_by_index_perm {A : Type} (x : string * A) (l : Obj A) :
  insert_by_index x l ≡ₚ x :: l.
Proof.
  induction l as [|y l IH]; [done|]. cbn [insert_by_index].
  destruct (index_of x <? index_of y)%N; [done|].
  rewrite IH. apply Permutation_swap.
Qed.

Lemma own_properties_perm {A : Type} (o : Obj A) : own_properties o ≡ₚ o.
Proof.
  unfold own_properties.
  assert (∀ l : Obj A, foldr insert_by_index [] l ≡ₚ l) as Hsort.
  { induction l as [|x l IH]; [done|]. cbn [foldr].
    by rewrite insert_by_index_perm, IH. }
  rewrite Hsort.
  induction o as [|x o IH]; [done|]. cbn [List.filter].
  destruct (bool_decide (is_Some (array_index x.1))); cbn [negb app].
  - by rewrite IH.
  - rewrite <- Permutation_middle. by rewrite IH.
Qed.

Lemma NoDup_own_properties {A : Type} (o : Obj A) :
  NoDup (keys o) → NoDup (keys (own_properties o)).
Proof. unfold keys. by rewrite own_properties_perm. Qed.

(** A run of assignments: the last value assigned to a key wins. *)
Lemma foldl_set_get {A : Type} (k : string) (l acc : Obj A) :
  NoDup (keys l) →
  obj_get k (foldl (λ o entry, obj_set entry.1 entry.2 o) acc l)
  = match obj_get k l with
    | Some v => Some v
    | None => obj_get k acc
    end.
Proof.
  revert acc. induction l as [|[k1 v1] l IH]; intros acc Hnd; [done|].
  cbn [keys fmap list_fmap fst] in Hnd. apply NoDup_cons in Hnd as [Hk1 Hnd].
  cbn [foldl fst snd obj_get]. rewrite (IH _ Hnd), obj_get_set.
  destruct (String.eqb_spec k k1) as [->|Hne]; [|done].
  by rewrite (obj_get_None k1 l Hk1).
Qed.

Lemma NoDup_foldl_set {A : Type} (l acc : Obj A) :
  NoDup (keys acc) →
  NoDup (keys (foldl (λ o entry, obj_set entry.1 entry.2 o) acc l)).
Proof.
  revert acc. induction l as [|[k1 v1] l IH]; intros acc Hnd; [done|].
  cbn [foldl]. apply IH. by apply NoDup_set.
Qed.

(** The spread of two objects: the properties of the second, then
    those of the first. *)
Lemma spread_get {A : Type} (k : string) (a b : Obj A) :
  NoDup (keys a) → NoDup (keys b) →
  obj_get k (spread a b)
  = match obj_get k b with
    | Some v => Some v
    | None => obj_get k a
    end.
Proof.
  intros Ha Hb. unfold spread, assign.
  rewrite !foldl_set_get by (by apply NoDup_own_properties).
  rewrite (obj_get_perm k b (own_properties b))
    by (done || by rewrite own_properties_perm).
  rewrite (obj_get_perm k a (own_properties a))
    by (done || by rewrite own_properties_perm).
  by destruct (obj_get k a).
Qed.

Lemma NoDup_spread {A : Type} (a b : Obj A) : NoDup (keys (spread a b)).
Proof.
  unfold spread, assign. apply NoDup_foldl_set, NoDup_foldl_set.
  apply NoDup_nil_2.
Qed.

Section Loops.
Context {W : Type} `{Handlers W}.

Lemma for_each_cons {S A : Type} (x : A) (l : list A) (body : A → M S unit)
    (s : S) :
  for_each (x :: l) body s =
  match body x s with
  | (Normal _, s') => for_each l body s'
  | (Throw e, s') => (Throw e, s')
  end.
Proof. reflexivity. Qed.

Lemma register_handler_eq (k : string) (h : loc) (st : State W) :
  register_handler (k, h) st =
  match call_setup h (world st) with
  | (Normal _, w) =>
      (Normal tt, mkState w (obj_set k h (handlers st)) (loggers st))
  | (Throw e, w) => (Throw e, mkState w (handlers st) (loggers st))
  end.
Proof.
  unfold register_handler, bind, in_world, modify.
  by destruct (call_setup h (world st)) as [[[]|e] w].
Qed.

(** A loop over calls of the handlers changes the world only. *)
Lemma in_world_loop (f : loc → M W unit) (l : Obj loc) (st : State W) :
  for_each l (λ entry, in_world (f entry.2)) st =
  let '(c, w) := for_each (map snd l) f (world st) in
  (c, mkState w (handlers st) (loggers st)).
Proof.
  revert st. induction l as [|[k h] l IH]; intros st.
  - by destruct st.
  - cbn [map snd]. rewrite !for_each_cons. unfold in_world at 1.
    cbn [snd]. destruct (f h (world st)) as [[[]|e] w]; [|done].
    by rewrite IH.
Qed.

(** The handlers set up so far are registered, in order. *)
Definition registered (before : Obj loc) (st : State W) (w : W) : State W :=
  mkState w
    (foldl (λ o entry, obj_set entry.1 entry.2 o) (handlers st) before)
    (loggers st).

Lemma register_handlers_ok (l : Obj loc) (st : State W) (w : W) :
  for_each (map snd l) call_setup (world st) = (Normal tt, w) →
  for_each l register_handler st = (Normal tt, registered l st w).
Proof.
  revert st. induction l as [|[k h] l IH]; intros st Hrun.
  - cbn in Hrun. injection Hrun as <-. by destruct st.
  - cbn [map snd] in Hrun. rewrite for_each_cons in Hrun.
    rewrite for_each_cons, register_handler_eq.
    destruct (call_setup h (world st)) as [[[]|e] w1]; [|done].
    by rewrite (IH (mkState w1 (obj_set k h (handlers st)) (loggers st))
                  Hrun).
Qed.

Lemma register_handlers_fail (before : Obj loc) (name : string) (h : loc)
    (after : Obj loc) (st : State W) (w1 w2 : W) (e : string) :
  for_each (map snd before) call_setup (world st) = (Normal tt, w1) →
  call_setup h w1 = (Throw e, w2) →
  for_each (before ++ (name, h) :: after) register_handler st
  = (Throw e, registered before st w2).
Proof.
  revert st. induction before as [|[k0 h0] before IH]; intros st Hrun Hh.
  - cbn in Hrun. injection Hrun as <-.
    cbn [app]. rewrite for_each_cons, register_handler_eq. by rewrite Hh.
  - cbn [app map snd] in *. rewrite for_each_cons in Hrun.
    rewrite for_each_cons, register_handler_eq.
    destruct (call_setup h0 (world st)) as [[[]|e0] w0]; [|done].
    by rewrite (IH (mkState w0 (obj_set k0 h0 (handlers st)) (loggers st))
                  Hrun Hh).
Qed.

(** The logger that [setup] builds for an entry of the configuration,
    from the handlers registered. *)
Definition configured (handlers : string → option loc) (name : string)
    (c : LoggerConfig) : Logger.t loc :=
  Logger.mk (default DEFAULT_LEVEL (lc_level c))
    (omap handlers (default [] (lc_handlers c))) false name.

Lemma register_loggers (l : Obj LoggerConfig) (st : State W) :
  ∃ m,
    for_each l register_logger st
    = (Normal tt, mkState (world st) (handlers st) m) ∧
    ∀ name,
      NoDup (keys l) →
      m !! name =
      match obj_get name l with
      | Some c =>
          Some (configured (λ n, obj_get n (handlers st)) name c)
      | None => loggers st !! name
      end.
Proof.
  revert st. induction l as [|[k c] l IH]; intros st.
  - exists (loggers st). split; [by destruct st|done].
  - cbn [for_each]. unfold bind at 1. unfold register_logger at 1.
    unfold bind at 1. unfold gets, modify.
    match goal with |- context [for_each l register_logger ?s1] =>
      destruct (IH s1) as (m & Hm & Hlook) end.
    exists m. split; [by rewrite Hm|].
    intros name Hnd. cbn [keys fmap list_fmap fst] in Hnd.
    apply NoDup_cons in Hnd as [Hk Hnd].
    rewrite (Hlook name Hnd). cbn [handlers loggers obj_get].
    destruct (String.eqb_spec name k) as [->|Hne].
    + rewrite (obj_get_None k l Hk). by rewrite lookup_insert_eq.
    + rewrite lookup_insert_ne by done. done.
Qed.

End Loops.
End ModFacts.

Section Configuration.
Context {W : Type} `{Mod.Handlers W} (default_handler : Mod.loc).
Import Mod ModFacts.

(** The handler and the logger of a name in the configuration that
    [setup] works with: those of the call when it has them, else the
    default ones. *)
Definition handler_of (config : LogConfig) (name : string) : option loc :=
  match obj_get name (default [] (c_handlers config)) with
  | Some h => Some h
  | None => if String.eqb name "default" then Some default_handler else None
  end.

Definition logger_of (config : LogConfig) (name : string)
    : option LoggerConfig :=
  match obj_get name (default [] (c_loggers config)) with
  | Some c => Some c
  | None =>
      if String.eqb name "default"
      then Some {| lc_level := Some DEFAULT_LEVEL;
                   lc_handlers := Some ["default"] |}
      else None
  end.

(** The handlers that [setup] sets up, in the order of the calls. *)
Definition handlers_to_set_up (config : LogConfig) : Obj loc :=
  own_properties
    (spread [("default", default_handler)]
       (default [] (c_handlers config))).

(** X26.  When the handlers registered so far are destroyed and the handlers
    of the configuration are set up without an exception, [setup]
    returns; the handlers registered are those of the call and, unless
    the call has one of that name, the default one; the loggers
    registered are those of the call and, unless the call has one of
    that name, the default one, and no other: a logger has the level of
    its entry, INFO when it gives none, and the handlers that its entry
    names, in that order, without the names that are not registered.  So
    the logger [default] exists, and [getLogger()] returns it. *)
Theorem setup_registers_configuration (config : LogConfig) (st : State W)
    (w1 w2 : W) :
  NoDup (keys (default [] (c_handlers config))) →
  NoDup (keys (default [] (c_loggers config))) →
  for_each (map snd (handlers st)) call_destroy (world st)
    = (Normal tt, w1) →
  for_each (map snd (handlers_to_set_up config)) call_setup w1
    = (Normal tt, w2) →
  ∃ st',
    setup default_handler config st = (Normal tt, st') ∧
    world st' = w2 ∧
    (∀ name, obj_get name (handlers st') = handler_of config name) ∧
    (∀ name,
       loggers st' !! name =
       match logger_of config name with
       | Some c => Some (configured (handler_of config) name c)
       | None => None
       end) ∧
    ∃ d, getLogger None (loggers st') = (Normal d, loggers st').
Proof.
  intros Hh Hl Hdestroy Hsetup.
  set (hs := spread [("default", default_handler)]
               (default [] (c_handlers config))).
  set (ls := spread
               [("default", {| lc_level := Some DEFAULT_LEVEL;
                               lc_handlers := Some ["default"] |})]
               (default [] (c_loggers config))).
  set (st1 := mkState w1 [] (loggers st)).
  set (st2 := mkState w2 (handlers (registered (own_properties hs) st1 w2)) ∅).
  destruct (register_loggers (own_properties ls) st2) as (m & Hm & Hlook).
  assert (setup default_handler config st
          = (Normal tt, mkState w2 (handlers st2) m)) as Hrun.
  { unfold setup. cbn [DEFAULT_CONFIG c_handlers c_loggers default
                       from_option id].
    fold hs ls. unfold bind at 1. unfold gets.
    unfold bind at 1. rewrite in_world_loop, Hdestroy.
    unfold bind at 1. unfold modify at 1. cbn [world loggers]. fold st1.
    unfold bind at 1.
    rewrite (register_handlers_ok (own_properties hs) st1 w2 Hsetup).
    unfold bind at 1. unfold modify at 1.
    change (mkState (world (registered (own_properties hs) st1 w2))
              (handlers (registered (own_properties hs) st1 w2)) ∅)
      with st2.
    exact Hm. }
  assert (∀ name, obj_get name (handlers st2) = handler_of config name)
    as Hhandlers.
  { intros name. cbn [st2 handlers registered st1].
    rewrite foldl_set_get by apply NoDup_own_properties, NoDup_spread.
    rewrite (obj_get_perm name hs (own_properties hs))
      by (apply NoDup_spread || by rewrite own_properties_perm).
    unfold hs. rewrite spread_get; [|by apply NoDup_singleton|done].
    unfold handler_of. destruct (obj_get name _); [done|].
    cbn [obj_get]. by destruct (String.eqb name "default"). }
  assert (∀ name,
            m !! name =
            match logger_of config name with
            | Some c => Some (configured (handler_of config) name c)
            | None => None
            end) as Hloggers.
  { intros name.
    rewrite (Hlook name) by apply NoDup_own_properties, NoDup_spread.
    rewrite (obj_get_perm name ls (own_properties ls))
      by (apply NoDup_spread || by rewrite own_properties_perm).
    unfold ls. rewrite spread_get; [|by apply NoDup_singleton|done].
    unfold logger_of.
    assert (∀ c, configured (λ n, obj_get n (handlers st2)) name c
                 = configured (handler_of config) name c) as Hc.
    { intros c. unfold configured. f_equal.
      apply list_omap_ext. apply Forall2_same_length_lookup. split; [done|].
      intros i x y Hx Hy. rewrite Hx in Hy. injection Hy as <-. apply Hhandlers. }
    destruct (obj_get name (default [] (c_loggers config))) as [c|];
      [by rewrite Hc|].
    cbn [obj_get]. destruct (String.eqb name "default"); [by rewrite Hc|].
    cbn [st2 loggers]. apply lookup_empty. }
  exists (mkState w2 (handlers st2) m).
  split; [exact Hrun|]. split; [done|]. split; [exact Hhandlers|].
  split; [exact Hloggers|]. cbn [loggers].
  pose proof (Hloggers "default") as Hd. unfold logger_of in Hd.
  cbn [String.eqb Ascii.eqb Bool.eqb] in Hd.
  assert (is_Some (m !! "default")) as [d Hsome].
  { rewrite Hd. by destruct (obj_get "default" _). }
  exists d. unfold getLogger. cbn [BaseHandler.truthy].
  unfold bind, gets, assert. by rewrite Hsome.
Qed.

(** X27.  When the set-up of a handler throws, [setup] throws at that point:
    the handlers registered before the call have all been destroyed and
    are registered no more, the handlers set up before the failing one
    are registered, and the loggers are still those registered before
    the call, with the handlers they had. *)
Theorem failed_setup_keeps_old_loggers (config : LogConfig) (st : State W)
    (before : Obj loc) (name : string) (h : loc) (after : Obj loc)
    (w1 w2 w3 : W) (e : string) :
  for_each (map snd (handlers st)) call_destroy (world st)
    = (Normal tt, w1) →
  handlers_to_set_up config = before ++ (name, h) :: after →
  for_each (map snd before) call_setup w1 = (Normal tt, w2) →
  call_setup h w2 = (Throw e, w3) →
  setup default_handler config st =
  (Throw e,
   mkState w3 (foldl (λ o entry, obj_set entry.1 entry.2 o) [] before)
     (loggers st)).
Proof.
  intros Hdestroy Hsplit Hbefore Hh.
  unfold setup. cbn [DEFAULT_CONFIG c_handlers c_loggers default
                     from_option id].
  unfold handlers_to_set_up in Hsplit. rewrite Hsplit.
  unfold bind at 1. unfold gets.
  unfold bind at 1. rewrite in_world_loop, Hdestroy.
  unfold bind at 1. unfold modify at 1. cbn [world loggers].
  unfold bind at 1.
  by rewrite (register_handlers_fail before name h after
                (mkState w1 [] (loggers st)) w2 w3 e Hbefore Hh).
Qed.

(** X28.  When the [destroy] of a registered handler throws, [setup] throws
    at that point and registers nothing: the handlers and the loggers
    registered before the call stay registered, those already destroyed
    among them. *)
Theorem failed_destroy_keeps_registrations (config : LogConfig)
    (st : State W) (w : W) (e : string) :
  for_each (map snd (handlers st)) call_destroy (world st) = (Throw e, w) →
  setup default_handler config st
  = (Throw e, mkState w (handlers st) (loggers st)).
Proof.
  intros Hdestroy. unfold setup.
  unfold bind at 1. unfold gets.
  unfold bind at 1. by rewrite in_world_loop, Hdestroy.
Qed.

End Configuration.

Module SampleWorld.
Import Mod.

(** A world that records the calls of the handlers; the set-up of
    handler 13 and the [destroy] of handler 17 throw. *)
Definition calls : Type := list (string * loc).

#[local] Instance handlers : Handlers calls :=
  {| call_setup h := λ w,
       (if (h =? 13)%nat then Throw "cannot open" else Normal tt,
        w ++ [("setup", h)]);
     call_destroy h := λ w,
       (if (h =? 17)%nat then Throw "cannot close" else Normal tt,
        w ++ [("destroy", h)]) |}.

Definition old_logger : Logger.t loc := Logger.mk DEBUG [7] false "old".

Definition before_setup : State calls :=
  mkState [] [("old", 7)] {["old" := old_logger]}.

Definition sample_config : LogConfig :=
  {| c_handlers := Some [("file", 1); ("0", 2)];
     c_loggers :=
       Some [("app",
              {| lc_level := None;
                 lc_handlers := Some ["file"; "missing"; "default"] |})] |}.

Definition failing_config : LogConfig :=
  {| c_handlers := Some [("file", 13); ("0", 2)];
     c_loggers := c_loggers sample_config |}.

Definition undestroyable : State calls :=
  mkState [] [("old", 7); ("stuck", 17); ("other", 8)]
    {["old" := old_logger]}.

End SampleWorld.

Section ConfigurationSamples.
Import Mod ModFacts SampleWorld.
Existing Instance SampleWorld.handlers.

Lemma setup_registers_configuration_witness :
  ∃ st',
    setup 0 sample_config before_setup = (Normal tt, st') ∧
    world st' = [("destroy", 7); ("setup", 2); ("setup", 0); ("setup", 1)] ∧
    (∀ name, obj_get name (Mod.handlers st') = handler_of 0 sample_config name) ∧
    (∀ name,
       loggers st' !! name =
       match logger_of sample_config name with
       | Some c => Some (configured (handler_of 0 sample_config) name c)
       | None => None
       end) ∧
    ∃ d, getLogger None (loggers st') = (Normal d, loggers st').
Proof.
  apply (@setup_registers_configuration calls SampleWorld.handlers 0
           sample_config before_setup [("destroy", 7)]).
  - unfold keys. apply (bool_decide_eq_true_1 (NoDup _)). reflexivity.
  - unfold keys. apply (bool_decide_eq_true_1 (NoDup _)). reflexivity.
  - reflexivity.
  - reflexivity.
Defined.

(** The handler under the array index comes first; the logger gets the
    handlers that exist, and the level INFO. *)
Example setup_of_the_sample :
  let st' := snd (setup 0 sample_config before_setup) in
  Mod.handlers st' = [("0", 2); ("default", 0); ("file", 1)] ∧
  loggers st' !! "app" = Some (Logger.mk INFO [1; 0] false "app") ∧
  loggers st' !! "default" = Some (Logger.mk INFO [0] false "default") ∧
  loggers st' !! "old" = None.
Proof. vm_compute. done. Qed.

Lemma failed_setup_keeps_old_loggers_witness :
  setup 0 failing_config before_setup =
  (Throw "cannot open",
   mkState
     [("destroy", 7); ("setup", 2); ("setup", 0); ("setup", 13)]
     [("0", 2); ("default", 0)] {["old" := old_logger]}).
Proof.
  exact (@failed_setup_keeps_old_loggers calls SampleWorld.handlers 0
           failing_config before_setup [("0", 2); ("default", 0)] "file" 13 []
           [("destroy", 7)] [("destroy", 7); ("setup", 2); ("setup", 0)]
           [("destroy", 7); ("setup", 2); ("setup", 0); ("setup", 13)]
           "cannot open" eq_refl eq_refl eq_refl eq_refl).
Defined.

Lemma failed_destroy_keeps_registrations_witness :
  setup 0 sample_config undestroyable =
  (Throw "cannot close",
   mkState [("destroy", 7); ("destroy", 17)]
     [("old", 7); ("stuck", 17); ("other", 8)] {["old" := old_logger]}).
Proof.
  exact (@failed_destroy_keeps_registrations calls SampleWorld.handlers 0
           sample_config undestroyable [("destroy", 7); ("destroy", 17)]
           "cannot close" eq_refl).
Defined.

End ConfigurationSamples.
